(** * mnet: a shallow embedding of the reactor core (src/mnet.cc)

    The development follows the layout of the source file:
    - [Buffer]     : the dual-cursor byte buffer (Grow, Read, Write, Fill, Inject);
    - [Endpoint]   : IPv4/port value object and its string codec;
    - [Socket]     : DoRead, DoWrite and the three notification entry points;
    - [ServerSocket] : DoAccept and the descriptor-exhaustion recovery;
    - [IOManager]  : DispatchLoop and UpdateTimer.

    Part I holds the model, Part II the properties proved about it.

    Conventions.
    - [std::size_t] offsets and lengths are lengths of in-memory regions and
      are modelled by [nat]; 32/64-bit integers whose wrap-around matters
      ([uint32_t] address words, the [int] elapsed time) are modelled by [Z]
      with the wrap written out.
    - System calls are answered by a script of results (an oracle) that the
      code consumes in order; [errno] is an explicit cell of the environment.
    - [assert] and [VERIFY] stop the program: they yield [Aborted]. *)

From Stdlib Require Import ZArith Lia Bool Ascii String Strings.Byte.
From stdpp Require Import base list gmap.

Set Default Proof Using "Type".

(* ===================================================================== *)
(** * Part I: the model                                                   *)
(* ===================================================================== *)

(** ** Addresses, methods and outcomes of a call *)

Definition ptr := nat.     (* address of a pollable object *)
Definition cb_id := nat.   (* identity of a user handler *)
Definition cell := nat.    (* address of a stack variable [bool deleted] *)

Inductive Method := MOnReadNotify | MOnWriteNotify | MOnException | MSetNotifyFlag.

Inductive Outcome (A : Type) : Type :=
| Done (a : A)                           (* the call returned *)
| Aborted                                (* assert or VERIFY failed, or a null handler was called *)
| Starved                                (* the script of system-call results has no answer *)
| UseAfterFree (p : ptr) (m : Method).   (* method [m] was entered on the destroyed object [p] *)
Arguments Done {A} a.
Arguments Aborted {A}.
Arguments Starved {A}.
Arguments UseAfterFree {A} p m.

(** errno values (Linux, asm-generic) *)
Definition EINTR : Z := 4.
Definition EAGAIN : Z := 11.
Definition EWOULDBLOCK : Z := 11.
Definition ENFILE : Z := 23.
Definition EMFILE : Z := 24.
Definition ERANGE : Z := 34.
Definition ENOBUFS : Z := 105.

(** ** NetState *)

Module state_category.
Inductive t := kDefault | kSystem | kUser.
End state_category.

(** Modelled from the spec: mnet.h is not part of the sources.  A NetState is
    "either OK or (category, code)"; it converts to boolean [true] iff OK;
    [Clear] resets it to OK and [CheckPoint] records a category and a code. *)
Inductive NetState : Type :=
| NetOK
| NetError (category : state_category.t) (error_code : Z).

Definition NetState_bool (s : NetState) : bool :=
  match s with NetOK => true | NetError _ _ => false end.

Definition CheckPoint (c : state_category.t) (code : Z) : NetState := NetError c code.

(** ** Buffer *)

Module Buffer.

Record t : Type := mk {
  mem_ : list byte;      (* the backing allocation *)
  read_ptr_ : nat;
  write_ptr_ : nat;
  capacity_ : nat;
  is_fixed_ : bool
}.

(** Modelled from the spec: the inline accessors of mnet.h.  "Readable span
    = [read_ptr, write_ptr); writable span = [write_ptr, C)". *)
Definition readable_size (b : t) : nat := write_ptr_ b - read_ptr_ b.
Definition writable_size (b : t) : nat := capacity_ b - write_ptr_ b.

(** Modelled from the spec: [RewindBuffer] of mnet.h.  "when readable span
    is empty, both offsets reset to 0 (rewind)". *)
Definition RewindBuffer (b : t) : t :=
  if read_ptr_ b =? write_ptr_ b
  then mk (mem_ b) 0 0 (capacity_ b) (is_fixed_ b)
  else b.

(** [malloc]: fresh memory; its (indeterminate) content is modelled by
    zero bytes. *)
Definition malloc (sz : nat) : list byte := replicate sz x00.

(** [memcpy(base + off, src, length src)] *)
Definition memcpy (m : list byte) (off : nat) (src : list byte) : list byte :=
  take off m ++ src ++ drop (off + length src) m.

(** The bytes of the readable span. *)
Definition readable (b : t) : list byte :=
  take (readable_size b) (drop (read_ptr_ b) (mem_ b)).

Definition Grow (cap : nat) (b : t) : t :=
  if cap =? 0 then b
  else
    let sz := cap + readable_size b in
    let mem := malloc sz in
    let mem := if 0 <? readable_size b then memcpy mem 0 (readable b) else mem in
    mk mem 0 (readable_size b) sz (is_fixed_ b).

(** [Read(&size)]: the result is the returned pointer (as an offset into
    the allocation), the content of the cell [*size] when the call
    returns, and the buffer. *)
Definition Read (size : nat) (b : t) : nat * nat * t :=
  let read_sz := Nat.min size (readable_size b) in
  let mem := read_ptr_ b in
  let b := mk (mem_ b) (read_ptr_ b + read_sz) (write_ptr_ b) (capacity_ b) (is_fixed_ b) in
  let b := RewindBuffer b in
  (mem, size, b).

Definition append (src : list byte) (b : t) : t :=
  mk (memcpy (mem_ b) (write_ptr_ b) src) (read_ptr_ b)
     (write_ptr_ b + length src) (capacity_ b) (is_fixed_ b).

Definition Write (src : list byte) (b : t) : bool * t :=
  let length := length src in
  if writable_size b <? length then
    if is_fixed_ b then (false, b)
    else
      let ncap := if capacity_ b <? length then length else capacity_ b in
      let ncap := ncap * 2 in
      (true, append src (Grow ncap b))
  else (true, append src b).

Definition Fill (src : list byte) (b : t) : nat * t :=
  let sz := Nat.min (writable_size b) (length src) in
  if sz =? 0 then (0, b)
  else (sz, append (take sz src) b).

Definition Inject (src : list byte) (b : t) : Outcome (bool * t) :=
  let length := length src in
  let grown := if writable_size b <? length
               then (if is_fixed_ b then None else Some (Grow length b))
               else Some b in
  match grown with
  | None => Done (false, b)
  | Some b =>
      let b := append src b in
      if write_ptr_ b =? capacity_ b then Done (true, b) else Aborted
  end.

(** Modelled from the spec: the [Accessor] of mnet.h, "a scoped view
    exposing address, size, and a committed-size field; on release, the
    committed size advances write_ptr (write-accessor) or read_ptr
    (read-accessor)".  The write accessor views the writable span, the read
    accessor the readable span; the kernel fills or drains the view, so the
    write commit also stores the bytes. *)
Definition commit_write (data : list byte) (b : t) : t := append data b.

Definition commit_read (n : nat) (b : t) : t :=
  RewindBuffer (mk (mem_ b) (read_ptr_ b + n) (write_ptr_ b) (capacity_ b) (is_fixed_ b)).

(** The class invariant: offsets ordered, allocation of size capacity. *)
Definition wf (b : t) : Prop :=
  read_ptr_ b <= write_ptr_ b /\ write_ptr_ b <= capacity_ b /\
  length (mem_ b) = capacity_ b.

End Buffer.

(** ** Endpoint *)

Module Endpoint.

Open Scope Z_scope.

(** C strings: the characters before the terminating NUL; reading at or
    past the end yields NUL. *)
Definition cstr (s : string) : list ascii := list_ascii_of_string s.

Definition NUL : ascii := "000"%char.
Definition char_at (buf : list ascii) (i : nat) : ascii := default NUL (buf !! i).

Definition to_uint32 (z : Z) : Z := z mod 2 ^ 32.
Definition to_int32 (z : Z) : Z := (z + 2 ^ 31) mod 2 ^ 32 - 2 ^ 31.

(** *** The C library pieces the codec is built on (LP64: long is 64 bit) *)

Definition LONG_MAX : Z := 2 ^ 63 - 1.
Definition LONG_MIN : Z := - 2 ^ 63.

Definition isspace (c : ascii) : bool :=
  let n := Z.of_nat (nat_of_ascii c) in
  (n =? 32) || ((9 <=? n) && (n <=? 13)).

Definition digit_val (c : ascii) : option Z :=
  let n := Z.of_nat (nat_of_ascii c) in
  if (48 <=? n) && (n <=? 57) then Some (n - 48) else None.

Definition is_digit (c : ascii) : bool :=
  match digit_val c with Some _ => true | None => false end.

Fixpoint skip_space (s : list ascii) : nat * list ascii :=
  match s with
  | c :: s' => if isspace c then let '(n, r) := skip_space s' in (S n, r) else (O, s)
  | [] => (O, [])
  end.

(** value and count of the longest prefix of decimal digits *)
Fixpoint scan_digits (s : list ascii) (acc : Z) (n : nat) : Z * nat :=
  match s with
  | c :: s' =>
      match digit_val c with
      | Some d => scan_digits s' (acc * 10 + d) (S n)
      | None => (acc, n)
      end
  | [] => (acc, n)
  end.

(** [strtol(s, &pend, 10)] called with [errno == 0]: the value, the number
    of characters consumed ([pend - s]) and errno afterwards.  Leading
    white space and one sign are accepted; without any digit nothing is
    consumed and the value is 0; out-of-range values saturate and set
    ERANGE. *)
Definition strtol (s : list ascii) : Z * nat * Z :=
  let '(ws, s1) := skip_space s in
  let '(neg, sg, s2) :=
    match s1 with
    | c :: r =>
        if Ascii.eqb c "-" then (true, 1%nat, r)
        else if Ascii.eqb c "+" then (false, 1%nat, r)
        else (false, O, s1)
    | [] => (false, O, s1)
    end in
  let '(v, nd) := scan_digits s2 0 O in
  if (nd =? 0)%nat then (0, O, 0)
  else
    let v := if neg then - v else v in
    let consumed := (ws + sg + nd)%nat in
    if v >? LONG_MAX then (LONG_MAX, consumed, ERANGE)
    else if v <? LONG_MIN then (LONG_MIN, consumed, ERANGE)
    else (v, consumed, 0).

Definition digit_char (d : Z) : ascii := ascii_of_nat (Z.to_nat (48 + d)).

Fixpoint utoa (fuel : nat) (n : Z) (acc : list ascii) : list ascii :=
  let acc := digit_char (n mod 10) :: acc in
  match fuel with
  | O => acc
  | S fuel => if n <? 10 then acc else utoa fuel (n / 10) acc
  end.

(** [sprintf("%d", n)] for an [int] argument *)
Definition sprintf_d (n : Z) : list ascii :=
  if n <? 0 then "-"%char :: utoa (Z.to_nat (Z.log2 (- n))) (- n) []
  else utoa (Z.to_nat (Z.log2 n)) n [].

(** *** The value object *)

Record t : Type := mk { ipv4_ : Z; port_ : Z }.

Section Codec.

(** [kEndpointError] is declared in mnet.h, which is not part of the
    sources; the codec is parametric in it. *)
Variable kEndpointError : Z.

Definition Ipv4ToString (e : t) : Z * list ascii :=
  let c1 := Z.land (ipv4_ e) 255 in
  let c2 := Z.land (Z.shiftr (ipv4_ e) 8) 255 in
  let c3 := Z.land (Z.shiftr (ipv4_ e) 16) 255 in
  let c4 := Z.land (Z.shiftr (ipv4_ e) 24) 255 in
  let s := sprintf_d c4 ++ "."%char :: sprintf_d c3 ++ "."%char ::
           sprintf_d c2 ++ "."%char :: sprintf_d c1 in
  (Z.of_nat (length s), s).

Definition PortToString (e : t) : Z * list ascii :=
  let s := sprintf_d (to_int32 (port_ e)) in
  (Z.of_nat (length s), s).

(** The macro PARSE: [None] is [goto fail]; otherwise the component (an
    [uint32_t]) and the new [pend], as an offset from [buf]. *)
Definition PARSE (buf : list ascii) (len : nat) : option (Z * nat) :=
  let '(v, n, errno) := strtol (drop len buf) in
  let c := to_uint32 v in
  if negb (errno =? 0) then None
  else if (c >? 255) || (c <? 0) then None
  else Some (c, (len + n)%nat).

(** The macro CHECK: [None] is [goto fail]; otherwise the new [len]. *)
Definition CHECK (buf : list ascii) (pend : nat) : option nat :=
  if Ascii.eqb (char_at buf pend) "." then Some (pend + 1)%nat else None.

Definition parse_components (buf : list ascii) : option (Z * Z * Z * Z * nat) :=
  '(c1, pend) ← PARSE buf 0;
  len ← CHECK buf pend;
  '(c2, pend) ← PARSE buf len;
  len ← CHECK buf pend;
  '(c3, pend) ← PARSE buf len;
  len ← CHECK buf pend;
  '(c4, pend) ← PARSE buf len;
  Some (c1, c2, c3, c4, pend).

Definition StringToIpv4 (buf : list ascii) (e : t) : Z * t :=
  match parse_components buf with
  | Some (c1, c2, c3, c4, pend) =>
      let ipv4 := Z.lor (Z.lor (Z.lor c4 (to_uint32 (Z.shiftl c3 8)))
                               (to_uint32 (Z.shiftl c2 16)))
                        (to_uint32 (Z.shiftl c1 24)) in
      (Z.of_nat pend, mk ipv4 (port_ e))
  | None => (-1, mk (ipv4_ e) kEndpointError)
  end.

Definition StringToPort (buf : list ascii) (e : t) : Z * t :=
  let '(p, n, errno) := strtol buf in
  if negb (errno =? 0) then (-1, mk (ipv4_ e) kEndpointError)
  else if (p >? 65535) || (p <? 0) then (-1, mk (ipv4_ e) kEndpointError)
  else (Z.of_nat n, mk (ipv4_ e) (to_uint32 p)).

End Codec.

End Endpoint.

(** ** The environment of the reactor *)

(** Arguments handed to a user handler. *)
Inductive CbArgs :=
| ReadArgs (sz : nat) (st : NetState)    (* ReadCallback::Invoke(socket, size, state) *)
| WriteArgs (sz : nat) (st : NetState)   (* WriteCallback::Invoke(socket, size, state) *)
| CloseData (sz : nat)                   (* CloseCallback::InvokeData(size) *)
| CloseDone (st : NetState).             (* CloseCallback::InvokeClose(state) *)

Inductive Syscall :=
| SysReadv (fd : Z) (tail swap : nat)    (* readv(fd, {tail, swap}, 2) *)
| SysWrite (fd : Z) (len : nat)          (* write(fd, addr, len) *)
| SysAccept4 (fd : Z)                    (* accept4(fd, NULL, NULL, O_CLOEXEC|O_NONBLOCK) *)
| SysAccept (fd : Z)                     (* accept(fd, NULL, NULL) *)
| SysClose (fd : Z)
| SysOpenDevNull                         (* open("/dev/null", O_RDONLY) *)
| SysGetSoError (fd : Z).                (* getsockopt(fd, SOL_SOCKET, SO_ERROR, ...) *)

(** One scripted answer of the kernel. *)
Inductive SysRet :=
| Fails (e : Z)                (* the call returns -1 and stores [e] in errno *)
| Returns (v : Z)              (* the call returns [v]; errno is left alone *)
| Delivers (data : list byte). (* readv: the bytes the kernel hands over *)

Inductive Event :=
| EvSys (c : Syscall) (r : SysRet)
| EvEnter (p : ptr) (m : Method)
| EvInvoke (p : ptr) (cb : cb_id) (args : CbArgs)
| EvDestroy (p : ptr).

Record World (O : Type) : Type := mkWorld {
  objs : gmap ptr O;          (* the live pollables *)
  cells : list bool;          (* the stack variables [deleted], by address *)
  errno : Z;
  script : list SysRet;       (* answers to the system calls still to come *)
  log : list Event;           (* what happened so far, oldest first *)
  swap_buffer_size_ : nat     (* IOManager::swap_buffer_size_ *)
}.
Arguments mkWorld {O}.
Arguments objs {O}.
Arguments cells {O}.
Arguments errno {O}.
Arguments script {O}.
Arguments log {O}.
Arguments swap_buffer_size_ {O}.

(** A computation over the world that may stop the program. *)
Definition M (O A : Type) : Type := World O -> Outcome (A * World O).

Definition ret {O A} (a : A) : M O A := fun w => Done (a, w).

Definition bind {O A B} (k : A -> M O B) (m : M O A) : M O B :=
  fun w =>
    match m w with
    | Done (a, w') => k a w'
    | Aborted => Aborted
    | Starved => Starved
    | UseAfterFree p mth => UseAfterFree p mth
    end.

(** stdpp's monad notations: [x ← m; k], ['(x, y) ← m; k] and [m;; k]. *)
#[global] Instance M_ret {O} : MRet (M O) := @ret O.
#[global] Instance M_bind {O} : MBind (M O) := @bind O.

Section Primitives.
Context {O : Type}.

Definition abort {A} : M O A := fun _ => Aborted.
Definition starve {A} : M O A := fun _ => Starved.

Definition VERIFY (cond : bool) : M O unit := if cond then ret tt else abort.
Definition assert (cond : bool) : M O unit := if cond then ret tt else abort.

Definition emit (e : Event) : M O unit :=
  fun w => Done (tt, mkWorld (objs w) (cells w) (errno w) (script w)
                             (log w ++ [e]) (swap_buffer_size_ w)).

(** Entering method [m] of the object at [p]: the object must be alive. *)
Definition enter (p : ptr) (m : Method) : M O O :=
  fun w =>
    match objs w !! p with
    | Some o => Done (o, mkWorld (objs w) (cells w) (errno w) (script w)
                                  (log w ++ [EvEnter p m]) (swap_buffer_size_ w))
    | None => UseAfterFree p m
    end.

(** Reading and writing the fields of [*this] inside a method. *)
Definition this (p : ptr) (m : Method) : M O O :=
  fun w => match objs w !! p with
           | Some o => Done (o, w)
           | None => UseAfterFree p m
           end.

Definition update (p : ptr) (m : Method) (f : O -> O) : M O unit :=
  fun w => match objs w !! p with
           | Some o => Done (tt, mkWorld (<[p := f o]> (objs w)) (cells w) (errno w)
                                         (script w) (log w) (swap_buffer_size_ w))
           | None => UseAfterFree p m
           end.

Definition get_errno : M O Z := fun w => Done (errno w, w).
Definition get_swap_buffer_size : M O nat := fun w => Done (swap_buffer_size_ w, w).

(** Performing a system call: the next scripted answer is consumed. *)
Definition syscall (c : Syscall) : M O SysRet :=
  fun w =>
    match script w with
    | [] => Starved
    | r :: rest =>
        let e := match r with Fails e => e | _ => errno w end in
        Done (r, mkWorld (objs w) (cells w) e rest (log w ++ [EvSys c r])
                         (swap_buffer_size_ w))
    end.

(** A system call with an integer result. *)
Definition sys_int (c : Syscall) : M O Z :=
  r ← syscall c;
  match r with
  | Fails _ => ret (-1)%Z
  | Returns v => ret v
  | Delivers _ => starve
  end.

(** The rounds a loop around a system call can make: every round consumes
    one scripted answer. *)
Definition get_fuel : M O nat := fun w => Done (S (length (script w)), w).

(** [bool deleted = false;] on the stack of the running method. *)
Definition alloc_cell : M O cell :=
  fun w => Done (length (cells w),
                 mkWorld (objs w) (cells w ++ [false]) (errno w) (script w) (log w)
                         (swap_buffer_size_ w)).

Definition read_cell (c : cell) : M O bool :=
  fun w => Done (default false (cells w !! c), w).

Definition write_cell (c : cell) (v : bool) : M O unit :=
  fun w => Done (tt, mkWorld (objs w) (<[c := v]> (cells w)) (errno w) (script w) (log w)
                             (swap_buffer_size_ w)).

End Primitives.

(** The interface [detail::Pollable]: what the reactor needs of an object.
    Modelled from the spec: the base class is declared in mnet.h; it holds
    "file descriptor, ..., optional external deleted flag pointer", and "a
    socket destructor called from within a callback sets [*deleted = true]". *)
Module detail.
(** the data members of the base class *)
Class Pollable (O : Type) : Type := {
  fd : O -> Z;
  notify_flag : O -> option cell;
  with_notify_flag : option cell -> O -> O
}.
(** its virtual methods *)
Class Notifiable (O : Type) : Type := {
  OnReadNotify : ptr -> M O unit;
  OnWriteNotify : ptr -> M O unit;
  OnException : ptr -> NetState -> M O unit
}.
End detail.

Section Lifetime.
Context {O : Type} `{detail.Pollable O}.

Definition set_notify_flag (p : ptr) (c : cell) : M O unit :=
  update p MSetNotifyFlag (detail.with_notify_flag (Some c)).

(** [delete this] issued by user code: the destructor signals through the
    installed flag, then the object is gone. *)
Definition destroy (p : ptr) : M O unit :=
  fun w =>
    match objs w !! p with
    | None => Aborted   (* double delete *)
    | Some o =>
        let cs := match detail.notify_flag o with
                  | Some c => <[c := true]> (cells w)
                  | None => cells w
                  end in
        Done (tt, mkWorld (delete p (objs w)) cs (errno w) (script w)
                          (log w ++ [EvDestroy p]) (swap_buffer_size_ w))
    end.
End Lifetime.

(** ** Socket (connected) *)

Module Socket.

Inductive State := CONNECTED | CLOSING | CLOSED.

Definition State_eqb (a b : State) : bool :=
  match a, b with
  | CONNECTED, CONNECTED | CLOSING, CLOSING | CLOSED, CLOSED => true
  | _, _ => false
  end.

(** Modelled from the spec: the class is declared in mnet.h; its fields are
    those the methods of mnet.cc read and write.  A handler slot holds at
    most one handler ([None] is the null ScopePtr). *)
Record t : Type := mk {
  fd_ : Z;
  can_read_ : bool;
  can_write_ : bool;
  notify_flag_ : option cell;
  read_buffer_ : Buffer.t;
  write_buffer_ : Buffer.t;
  eof_ : bool;
  prev_write_size_ : nat;
  state_ : State;
  user_read_callback_ : option cb_id;
  user_write_callback_ : option cb_id;
  user_close_callback_ : option cb_id
}.

Definition set_fd v s :=
  mk v (can_read_ s) (can_write_ s) (notify_flag_ s) (read_buffer_ s) (write_buffer_ s)
     (eof_ s) (prev_write_size_ s) (state_ s)
     (user_read_callback_ s) (user_write_callback_ s) (user_close_callback_ s).
Definition set_can_read v s :=
  mk (fd_ s) v (can_write_ s) (notify_flag_ s) (read_buffer_ s) (write_buffer_ s)
     (eof_ s) (prev_write_size_ s) (state_ s)
     (user_read_callback_ s) (user_write_callback_ s) (user_close_callback_ s).
Definition set_can_write v s :=
  mk (fd_ s) (can_read_ s) v (notify_flag_ s) (read_buffer_ s) (write_buffer_ s)
     (eof_ s) (prev_write_size_ s) (state_ s)
     (user_read_callback_ s) (user_write_callback_ s) (user_close_callback_ s).
Definition with_flag v s :=
  mk (fd_ s) (can_read_ s) (can_write_ s) v (read_buffer_ s) (write_buffer_ s)
     (eof_ s) (prev_write_size_ s) (state_ s)
     (user_read_callback_ s) (user_write_callback_ s) (user_close_callback_ s).
Definition set_read_buffer v s :=
  mk (fd_ s) (can_read_ s) (can_write_ s) (notify_flag_ s) v (write_buffer_ s)
     (eof_ s) (prev_write_size_ s) (state_ s)
     (user_read_callback_ s) (user_write_callback_ s) (user_close_callback_ s).
Definition set_write_buffer v s :=
  mk (fd_ s) (can_read_ s) (can_write_ s) (notify_flag_ s) (read_buffer_ s) v
     (eof_ s) (prev_write_size_ s) (state_ s)
     (user_read_callback_ s) (user_write_callback_ s) (user_close_callback_ s).
Definition set_eof v s :=
  mk (fd_ s) (can_read_ s) (can_write_ s) (notify_flag_ s) (read_buffer_ s) (write_buffer_ s)
     v (prev_write_size_ s) (state_ s)
     (user_read_callback_ s) (user_write_callback_ s) (user_close_callback_ s).
Definition set_prev_write_size v s :=
  mk (fd_ s) (can_read_ s) (can_write_ s) (notify_flag_ s) (read_buffer_ s) (write_buffer_ s)
     (eof_ s) v (state_ s)
     (user_read_callback_ s) (user_write_callback_ s) (user_close_callback_ s).
Definition set_state v s :=
  mk (fd_ s) (can_read_ s) (can_write_ s) (notify_flag_ s) (read_buffer_ s) (write_buffer_ s)
     (eof_ s) (prev_write_size_ s) v
     (user_read_callback_ s) (user_write_callback_ s) (user_close_callback_ s).
Definition set_user_read_callback v s :=
  mk (fd_ s) (can_read_ s) (can_write_ s) (notify_flag_ s) (read_buffer_ s) (write_buffer_ s)
     (eof_ s) (prev_write_size_ s) (state_ s)
     v (user_write_callback_ s) (user_close_callback_ s).
Definition set_user_write_callback v s :=
  mk (fd_ s) (can_read_ s) (can_write_ s) (notify_flag_ s) (read_buffer_ s) (write_buffer_ s)
     (eof_ s) (prev_write_size_ s) (state_ s)
     (user_read_callback_ s) v (user_close_callback_ s).
Definition set_user_close_callback v s :=
  mk (fd_ s) (can_read_ s) (can_write_ s) (notify_flag_ s) (read_buffer_ s) (write_buffer_ s)
     (eof_ s) (prev_write_size_ s) (state_ s)
     (user_read_callback_ s) (user_write_callback_ s) v.

(** The three handler slots. *)
Inductive Slot := ReadSlot | WriteSlot | CloseSlot.

Definition slot (k : Slot) (s : t) : option cb_id :=
  match k with
  | ReadSlot => user_read_callback_ s
  | WriteSlot => user_write_callback_ s
  | CloseSlot => user_close_callback_ s
  end.

(** [X.Release()]: the slot is emptied. *)
Definition Release (k : Slot) (s : t) : t :=
  match k with
  | ReadSlot => set_user_read_callback None s
  | WriteSlot => set_user_write_callback None s
  | CloseSlot => set_user_close_callback None s
  end.

#[export] Instance pollable : detail.Pollable t := {|
  detail.fd := fd_;
  detail.notify_flag := notify_flag_;
  detail.with_notify_flag := with_flag
|}.

Section Methods.

(** User code.  [handler cb args s] is what the handler [cb], called with
    [args] on a socket in state [s], leaves behind: [Some s'] when the
    socket lives on (its fields possibly changed: handlers re-armed, data
    queued, ...), [None] when the handler destroyed the socket. *)
Variable handler : cb_id -> CbArgs -> t -> option t.

(** [cb->Invoke(...)] *)
Definition Invoke (mth : Method) (p : ptr) (cb : cb_id) (args : CbArgs) : M t unit :=
  s ← this p mth;
  emit (EvInvoke p cb args);;
  match handler cb args s with
  | Some s' => update p mth (fun _ => s')
  | None => destroy p
  end.

(** The macro DO_INVOKE(X, T, ...): the slot must hold a handler; it is
    released, then the released handler is invoked. *)
Definition DO_INVOKE (mth : Method) (p : ptr) (k : Slot) (args : CbArgs) : M t unit :=
  s ← this p mth;
  match slot k s with
  | None => abort
  | Some cb =>
      update p mth (Release k);;
      Invoke mth p cb args
  end.

(** Modelled from the spec: [Close()] is defined in mnet.h; "close the FD
    and move to CLOSED" (the caller sets the state). *)
Definition Close (mth : Method) (p : ptr) : M t unit :=
  s ← this p mth;
  sys_int (SysClose (fd_ s));;
  update p mth (set_fd (-1)).

Definition is_EAGAIN (e : Z) : bool := (e =? EAGAIN)%Z || (e =? EWOULDBLOCK)%Z.

(** One round of the loop of DoRead: [inl] is [continue] with the new
    [read_sz], [inr] is [return]. *)
Definition DoRead_step (mth : Method) (p : ptr) (read_sz : nat)
    : M t (nat + nat * NetState) :=
  s ← this p mth;
  swap ← get_swap_buffer_size;
  let accessor_sz := Buffer.writable_size (read_buffer_ s) in
  r ← syscall (SysReadv (fd_ s) accessor_sz swap);
  match r with
  | Returns _ => starve
  | Fails _ =>
      e ← get_errno;
      if is_EAGAIN e then
        update p mth (set_can_read false);;
        mret (inr (read_sz, NetOK))
      else if (e =? EINTR)%Z then mret (inl read_sz)
      else mret (inr (read_sz, CheckPoint state_category.kSystem e))
  | Delivers data =>
      (* the kernel fills at most the two segments *)
      let data := take (accessor_sz + swap) data in
      let sz := length data in
      if sz =? 0 then
        update p mth (set_eof true);;
        mret (inr (read_sz, NetOK))
      else
        let commit_tail :=
          update p mth (fun s => set_read_buffer
            (Buffer.commit_write (take accessor_sz data) (read_buffer_ s)) s) in
        injected ←
          (if sz <=? accessor_sz then commit_tail;; mret true
           else
             commit_tail;;
             s ← this p mth;
             match Buffer.Inject (drop accessor_sz data) (read_buffer_ s) with
             | Done (ok, b) => update p mth (set_read_buffer b);; mret ok
             | _ => abort
             end);
        if negb injected then
          mret (inr (read_sz, NetError state_category.kSystem ENOBUFS))
        else
          let read_sz := read_sz + sz in
          if sz <? swap + accessor_sz then
            update p mth (set_can_read false);;
            mret (inr (read_sz, NetOK))
          else mret (inl read_sz)
  end.

Fixpoint DoRead_loop (fuel : nat) (mth : Method) (p : ptr) (read_sz : nat)
    : M t (nat * NetState) :=
  match fuel with
  | O => starve
  | S fuel =>
      r ← DoRead_step mth p read_sz;
      match r with
      | inl read_sz => DoRead_loop fuel mth p read_sz
      | inr res => mret res
      end
  end.

(** Every round consumes one scripted answer, so the length of the script
    bounds the number of rounds. *)
Definition DoRead (mth : Method) (p : ptr) : M t (nat * NetState) :=
  s ← this p mth;
  if eof_ s then mret (0, NetOK)
  else
    fuel ← get_fuel;
    DoRead_loop fuel mth p 0.

Definition DoWrite_step (mth : Method) (p : ptr) : M t (option (nat * NetState)) :=
  s ← this p mth;
  let size := Buffer.readable_size (write_buffer_ s) in
  sz ← sys_int (SysWrite (fd_ s) size);
  if (sz <=? 0)%Z then
    e ← get_errno;
    if is_EAGAIN e then
      update p mth (set_can_write false);;
      mret (Some (0, NetOK))
    else if (e =? EINTR)%Z then mret None
    else mret (Some (prev_write_size_ s, CheckPoint state_category.kSystem e))
  else
    (* the kernel takes at most what it was offered *)
    let sz := Nat.min (Z.to_nat sz) size in
    (if sz <? size then update p mth (set_can_write false) else mret tt);;
    update p mth (fun s => set_write_buffer (Buffer.commit_read sz (write_buffer_ s)) s);;
    mret (Some (sz, NetOK)).

Fixpoint DoWrite_loop (fuel : nat) (mth : Method) (p : ptr) : M t (nat * NetState) :=
  match fuel with
  | O => starve
  | S fuel =>
      r ← DoWrite_step mth p;
      match r with
      | None => DoWrite_loop fuel mth p
      | Some res => mret res
      end
  end.

Definition DoWrite (mth : Method) (p : ptr) : M t (nat * NetState) :=
  s ← this p mth;
  assert (0 <? Buffer.readable_size (write_buffer_ s));;
  fuel ← get_fuel;
  DoWrite_loop fuel mth p.

Definition OnReadNotify (p : ptr) : M t unit :=
  let mth := MOnReadNotify in
  enter p mth;;
  update p mth (set_can_read true);;
  s ← this p mth;
  if negb (bool_decide (is_Some (user_read_callback_ s))) then mret tt
  else
    '(read_sz, state) ← DoRead mth p;
    s ← this p mth;
    if negb (State_eqb (state_ s) CLOSING) then
      DO_INVOKE mth p ReadSlot (ReadArgs read_sz state)
    else if NetState_bool state then
      if 0 <? read_sz then
        match user_close_callback_ s with
        | Some cb => Invoke mth p cb (CloseData read_sz)
        | None => abort
        end
      else if eof_ s then
        deleted ← alloc_cell;
        update p mth (with_flag (Some deleted));;
        update p mth (Release CloseSlot);;
        match user_close_callback_ s with
        | Some cb => Invoke mth p cb (CloseDone NetOK)
        | None => abort
        end;;
        d ← read_cell deleted;
        if negb d then
          Close mth p;;
          update p mth (set_state CLOSED)
        else mret tt
      else mret tt
    else
      deleted ← alloc_cell;
      update p mth (with_flag (Some deleted));;
      match user_close_callback_ s with
      | Some cb => Invoke mth p cb (CloseDone state)
      | None => abort
      end;;
      d ← read_cell deleted;
      if negb d then
        Close mth p;;
        update p mth (set_state CLOSED)
      else mret tt.

Definition OnWriteNotify (p : ptr) : M t unit :=
  let mth := MOnWriteNotify in
  enter p mth;;
  update p mth (set_can_write true);;
  s ← this p mth;
  if Buffer.readable_size (write_buffer_ s) =? 0 then mret tt
  else
    '(write_sz, write_state) ← DoWrite mth p;
    s ← this p mth;
    if NetState_bool write_state then
      if Buffer.readable_size (write_buffer_ s) =? 0 then
        DO_INVOKE mth p WriteSlot (WriteArgs (prev_write_size_ s + write_sz) write_state)
      else
        update p mth (fun s => set_prev_write_size (prev_write_size_ s + write_sz) s)
    else
      DO_INVOKE mth p WriteSlot (WriteArgs (prev_write_size_ s) write_state).

Definition OnException (p : ptr) (state : NetState) : M t unit :=
  let mth := MOnException in
  enter p mth;;
  assert (negb (NetState_bool state));;
  deleted ← alloc_cell;
  update p mth (with_flag (Some deleted));;
  s ← this p mth;
  (if bool_decide (is_Some (user_read_callback_ s))
   then DO_INVOKE mth p ReadSlot (ReadArgs 0 state)
   else mret tt);;
  d ← read_cell deleted;
  if negb d then
    s ← this p mth;
    if bool_decide (is_Some (user_write_callback_ s))
    then DO_INVOKE mth p WriteSlot (WriteArgs 0 state)
    else mret tt
  else mret tt.

#[export] Instance notifiable : detail.Notifiable t := {|
  detail.OnReadNotify := OnReadNotify;
  detail.OnWriteNotify := OnWriteNotify;
  detail.OnException := OnException
|}.

End Methods.

End Socket.

(** ** ServerSocket *)

Module ServerSocket.

Open Scope Z_scope.

(** Modelled from the spec: the class is declared in mnet.h; of its fields,
    the accept path reads and writes the listening descriptor, the
    reserved [dummy_fd_] and the readiness flag. *)
Record t : Type := mk {
  fd_ : Z;
  dummy_fd_ : Z;
  can_read_ : bool;
  notify_flag_ : option cell
}.

Definition set_dummy_fd v s := mk (fd_ s) v (can_read_ s) (notify_flag_ s).
Definition set_can_read v s := mk (fd_ s) (dummy_fd_ s) v (notify_flag_ s).
Definition with_flag v s := mk (fd_ s) (dummy_fd_ s) (can_read_ s) v.

#[export] Instance pollable : detail.Pollable t := {|
  detail.fd := fd_;
  detail.notify_flag := notify_flag_;
  detail.with_notify_flag := with_flag
|}.

Definition is_EAGAIN (e : Z) : bool := (e =? EAGAIN) || (e =? EWOULDBLOCK).

Definition HandleRunOutOfFD (mth : Method) (p : ptr) (err : Z) : M t unit :=
  if (err =? EMFILE) || (err =? ENFILE) then
    s ← this p mth;
    r ← sys_int (SysClose (dummy_fd_ s));
    VERIFY (r =? 0);;
    f ← sys_int (SysAccept (fd_ s));
    (if f >? 0 then r ← sys_int (SysClose f); VERIFY (r =? 0) else mret tt);;
    d ← sys_int SysOpenDevNull;
    update p mth (set_dummy_fd d);;
    VERIFY (d >=? 0)
  else mret tt.

(** One round of the loop of DoAccept: [None] is [continue]; otherwise the
    returned descriptor and the content of [*state]. *)
Definition DoAccept_step (mth : Method) (p : ptr) (state : NetState)
    : M t (option (Z * NetState)) :=
  s ← this p mth;
  nfd ← sys_int (SysAccept4 (fd_ s));
  if nfd <? 0 then
    e ← get_errno;
    if is_EAGAIN e then
      update p mth (set_can_read false);;
      mret (Some (-1, state))
    else if e =? EINTR then mret None
    else
      let err := e in
      HandleRunOutOfFD mth p err;;
      let state := CheckPoint state_category.kSystem err in
      e ← get_errno;
      (if is_EAGAIN e then update p mth (set_can_read false) else mret tt);;
      mret (Some (-1, state))
  else mret (Some (nfd, state)).

Fixpoint DoAccept_loop (fuel : nat) (mth : Method) (p : ptr) (state : NetState)
    : M t (Z * NetState) :=
  match fuel with
  | O => starve
  | S fuel =>
      r ← DoAccept_step mth p state;
      match r with
      | None => DoAccept_loop fuel mth p state
      | Some res => mret res
      end
  end.

Definition DoAccept (mth : Method) (p : ptr) (state : NetState) : M t (Z * NetState) :=
  s ← this p mth;
  assert (can_read_ s);;
  fuel ← get_fuel;
  DoAccept_loop fuel mth p state.

End ServerSocket.

(** ** IOManager *)

Module IOManager.

Open Scope Z_scope.

Definition EPOLLIN : Z := 1.
Definition EPOLLOUT : Z := 4.
Definition EPOLLERR : Z := 8.
Definition EPOLLHUP : Z := 16.

Record epoll_event : Type := mk_event { data_ptr : ptr; events : Z }.

Definition has (ev bit : Z) : bool := negb (Z.land ev bit =? 0).
Definition without (ev bit : Z) : Z := Z.land ev (Z.lnot bit).

Section Dispatch.
Context {O : Type} `{detail.Pollable O} `{detail.Notifiable O}.

(** The body of the loop of DispatchLoop, for one event. *)
Definition dispatch (e : epoll_event) : M O unit :=
  let p := data_ptr e in
  let ev := events e in
  unhandled ←
    (if has ev EPOLLERR then
       o ← this p MOnException;
       r ← syscall (SysGetSoError (detail.fd o));
       match r with
       | Returns err_no =>
           if negb (err_no =? 0) then
             detail.OnException p (NetError state_category.kSystem err_no);;
             mret None
           else mret (Some (without ev EPOLLERR))
       | _ => abort
       end
     else mret (Some ev));
  match unhandled with
  | None => mret tt
  | Some ev =>
      if has (events e) EPOLLHUP then detail.OnReadNotify p
      else
        deleted ← alloc_cell;
        set_notify_flag p deleted;;
        ev ← (if has (events e) EPOLLIN
              then detail.OnReadNotify p;; mret (without ev EPOLLIN)
              else mret ev);
        ev ← (if has (events e) EPOLLOUT
              then
                d ← read_cell deleted;
                (if negb d then detail.OnWriteNotify p else mret tt);;
                mret (without ev EPOLLOUT)
              else mret ev);
        VERIFY (ev =? 0)
  end.

Fixpoint DispatchLoop (event_queue : list epoll_event) : M O unit :=
  match event_queue with
  | [] => mret tt
  | e :: rest => dispatch e;; DispatchLoop rest
  end.

End Dispatch.

(** *** The timer queue *)

(** Modelled from the spec: [TimerStruct] and its ordering are declared in
    mnet.h.  "Timer entry: (relative_time_ms, callback)"; "the queue is a
    min-heap ordered on relative time": the standard heap algorithms keep
    the greatest element for [operator<] in front, so [operator<] is the
    reversed order on times. *)
Record TimerStruct : Type := mk_timer { time : Z; callback : cb_id }.

Definition TimerStruct_lt (l r : TimerStruct) : bool := time r <? time l.

Definition to_uint64 (z : Z) : Z := z mod 2 ^ 64.
Definition to_int (z : Z) : Z := (z + 2 ^ 31) mod 2 ^ 32 - 2 ^ 31.

(** [std::pop_heap] on the whole vector: the front is exchanged with the
    last entry, which is then sifted down in the first [n - 1] places. *)
Definition swap_at (a : list TimerStruct) (i j : nat) : list TimerStruct :=
  match a !! i, a !! j with
  | Some x, Some y => <[j := x]> (<[i := y]> a)
  | _, _ => a
  end.

Definition greater_child (n : nat) (a : list TimerStruct) (best c : nat) : nat :=
  match a !! best, a !! c with
  | Some x, Some y => if (c <? n)%nat && TimerStruct_lt x y then c else best
  | _, _ => best
  end.

Fixpoint sift_down (fuel : nat) (n : nat) (i : nat) (a : list TimerStruct)
    : list TimerStruct :=
  match fuel with
  | O => a
  | S fuel =>
      let best := greater_child n a i (2 * i + 1) in
      let best := greater_child n a best (2 * i + 2) in
      if (best =? i)%nat then a else sift_down fuel n best (swap_at a i best)
  end.

Definition pop_heap (a : list TimerStruct) : list TimerStruct :=
  let n := length a in
  sift_down n (n - 1) 0 (swap_at a 0 (n - 1)).

Definition pop_back (a : list TimerStruct) : list TimerStruct :=
  take (length a - 1) a.

Definition kMinDiff : Z := 3.

(** The macro TIME_TRIGGER(diff, t): [diff] is an uint64_t, so the
    difference is computed in uint64_t. *)
Definition TIME_TRIGGER (diff t : Z) : bool :=
  Z.abs (to_uint64 (t - diff)) <? kMinDiff.

(** The loop of the timed-out branch; the handlers run are collected in
    the order of their invocation, with the time they are handed. *)
Fixpoint fire (fuel : nat) (diff : Z) (q : list TimerStruct)
    (fired : list (cb_id * Z)) : list TimerStruct * list (cb_id * Z) :=
  match fuel with
  | O => (q, fired)
  | S fuel =>
      match q with
      | [] => (q, fired)
      | front :: _ =>
          if TIME_TRIGGER diff (to_uint64 (time front)) then
            fire fuel diff (pop_back (pop_heap q)) (fired ++ [(callback front, time front)])
          else (q, fired)
      end
  end.

(** [UpdateTimer(event_sz, prev_time)] when the clock reads [now]: the
    value returned ([None] where the function ends without a return
    statement), the queue afterwards and the handlers run. *)
Definition UpdateTimer (now : Z) (event_sz : nat) (prev_time : Z)
    (timer_queue_ : list TimerStruct)
    : option Z * list TimerStruct * list (cb_id * Z) :=
  match timer_queue_ with
  | [] => (None, timer_queue_, [])
  | front :: _ =>
      if (event_sz =? 0)%nat then
        let diff := to_uint64 (time front) in
        let '(q, fired) := fire (length timer_queue_) diff timer_queue_ [] in
        (Some now, q, fired)
      else
        let ret := to_int now in
        let diff := to_int (to_uint64 ret - prev_time) in
        let q := map (fun e => mk_timer (to_int (time e - diff)) (callback e)) timer_queue_ in
        (Some (to_uint64 ret), q, [])
  end.

End IOManager.

(** ** IOManager: registration with the readiness instance *)

Module IOManagerWatch.

Import IOManager.
Open Scope Z_scope.

Inductive epoll_op := EPOLL_CTL_ADD | EPOLL_CTL_MOD.

Definition EPOLLET : Z := 2 ^ 31.

(** Modelled from the spec: the class is declared in mnet.h.  "Pollable.
    Holds: file descriptor, reactor pointer, flags watch_read, watch_write,
    ...": the two flags are the members [is_epoll_read_] and
    [is_epoll_write_] that WatchRead and WatchWrite test and set. *)
Record Pollable : Type := mk {
  fd_ : Z;
  is_epoll_read_ : bool;
  is_epoll_write_ : bool
}.

(** The interest list of the epoll instance: the event mask registered for
    each descriptor.  [epoll_ctl] as the kernel answers it when it is not
    short of resources: EPOLL_CTL_ADD fails (EEXIST) on a descriptor that is
    registered, EPOLL_CTL_MOD fails (ENOENT) on one that is not; the result
    is the value returned and the list afterwards. *)
Definition epoll_ctl (op : epoll_op) (fd : Z) (events : Z) (interest : gmap Z Z)
    : Z * gmap Z Z :=
  match op, interest !! fd with
  | EPOLL_CTL_ADD, None => (0, <[fd := events]> interest)
  | EPOLL_CTL_ADD, Some _ => (-1, interest)
  | EPOLL_CTL_MOD, Some _ => (0, <[fd := events]> interest)
  | EPOLL_CTL_MOD, None => (-1, interest)
  end.

Section Watch.
(** [Pollable::Valid] is declared in mnet.h; it is left abstract. *)
Variable Valid : Pollable -> bool.

Definition WatchRead (pollable : Pollable) (interest : gmap Z Z)
    : Outcome (Pollable * gmap Z Z) :=
  if negb (Valid pollable) then Aborted
  else if is_epoll_read_ pollable then Done (pollable, interest)
  else
    let events := Z.lor EPOLLIN EPOLLET in
    let '(op, events) :=
      if is_epoll_write_ pollable then (EPOLL_CTL_MOD, Z.lor events EPOLLOUT)
      else (EPOLL_CTL_ADD, events) in
    let '(r, interest) := epoll_ctl op (fd_ pollable) events interest in
    if r =? 0
    then Done (mk (fd_ pollable) true (is_epoll_write_ pollable), interest)
    else Aborted.

Definition WatchWrite (pollable : Pollable) (interest : gmap Z Z)
    : Outcome (Pollable * gmap Z Z) :=
  if negb (Valid pollable) then Aborted
  else if is_epoll_write_ pollable then Done (pollable, interest)
  else
    let events := Z.lor EPOLLOUT EPOLLET in
    let '(op, events) :=
      if is_epoll_read_ pollable then (EPOLL_CTL_MOD, Z.lor events EPOLLIN)
      else (EPOLL_CTL_ADD, events) in
    let '(r, interest) := epoll_ctl op (fd_ pollable) events interest in
    if r =? 0
    then Done (mk (fd_ pollable) (is_epoll_read_ pollable) true, interest)
    else Aborted.
End Watch.

End IOManagerWatch.

(** ** Vocabulary of the properties *)

Module BufferVocabulary.
Import Buffer.

(** What a successful or failed Inject leaves behind. *)
Definition Inject_post (src : list byte) (b b' : t) : Prop :=
  wf b' /\ readable b' = readable b ++ src /\ write_ptr_ b' = capacity_ b' /\
  is_fixed_ b' = is_fixed_ b /\
  if writable_size b <? length src
  then capacity_ b' = readable_size b + length src /\ read_ptr_ b' = 0
  else capacity_ b' = capacity_ b /\ read_ptr_ b' = read_ptr_ b.

(** A full buffer whose first two bytes were consumed. *)
Definition full_buffer : t := mk [x01; x02; x03; x04] 2 4 4 false.
End BufferVocabulary.

Module EndpointVocabulary.
Import Endpoint.
Open Scope Z_scope.

(** A decimal numeral: one or more decimal digits. *)
Definition numeral (s : list ascii) : bool :=
  negb (length s =? 0)%nat && forallb is_digit s.

(** A canonical numeral: no superfluous leading zero. *)
Definition canonical (s : list ascii) : bool :=
  numeral s &&
  match s with
  | c :: _ :: _ => negb (Ascii.eqb c "0")
  | _ => true
  end.

Definition decimal_step (acc : Z) (c : ascii) : Z := acc * 10 + default 0 (digit_val c).
Definition decimal_value (s : list ascii) : Z := fold_left decimal_step s 0.

(** The rest of the input does not go on with a digit. *)
Definition stops (rest : list ascii) : bool :=
  match rest with
  | c :: _ => negb (is_digit c)
  | [] => true
  end.

(** What PARSE makes of a numeral: its value as an uint32_t if that is at
    most 255 and strtol did not saturate. *)
Definition octet (s : list ascii) : option Z :=
  if decimal_value s >? LONG_MAX then None
  else if to_uint32 (decimal_value s) >? 255 then None
  else Some (to_uint32 (decimal_value s)).

Definition dotted (s1 s2 s3 s4 : list ascii) : list ascii :=
  s1 ++ "."%char :: s2 ++ "."%char :: s3 ++ "."%char :: s4.
End EndpointVocabulary.

Module ScriptVocabulary.
Open Scope Z_scope.

(** What a system call with an integer result hands back for an answer,
    and errno afterwards. *)
Definition int_result (r : SysRet) : option Z :=
  match r with
  | Fails _ => Some (-1)
  | Returns v => Some v
  | Delivers _ => None
  end.

Definition errno_after (e : Z) (r : SysRet) : Z :=
  match r with Fails e' => e' | _ => e end.
End ScriptVocabulary.

Module SocketVocabulary.
Import Socket.

(** Does the answer [ans] to a readv over a tail of [tail] bytes and a swap
    buffer of [swap] bytes make DoRead clear [can_read]?  It does on
    EAGAIN/EWOULDBLOCK and on a short read (fewer bytes than the two
    segments hold) whose overflow, if any, could be injected. *)
Definition clears_can_read (fixed : bool) (tail swap : nat) (ans : SysRet) : bool :=
  match ans with
  | Fails e => is_EAGAIN e
  | Delivers data =>
      let sz := length (take (tail + swap) data) in
      (0 <? sz) && (sz <? swap + tail) && negb (fixed && (tail <? sz))
  | Returns _ => false
  end.

(** Did the readv answered by [ans] return 0? *)
Definition returned_zero (tail swap : nat) (ans : SysRet) : bool :=
  match ans with
  | Delivers data => length (take (tail + swap) data) =? 0
  | _ => false
  end.

(** The claim's reading: the answer is EAGAIN/EWOULDBLOCK or "returned 0". *)
Definition eagain_or_zero (ans : SysRet) : bool :=
  match ans with
  | Fails e => is_EAGAIN e
  | Delivers data => length data =? 0
  | Returns v => (v =? 0)%Z
  end.

(** The flag [can_read] of the object at [p] when a call has returned. *)
Definition can_read_after {A} (o : Outcome (A * World t)) (p : ptr) : option bool :=
  match o with
  | Done (_, w) => can_read_ <$> objs w !! p
  | _ => None
  end.

(** The last event of a run. *)
Definition last_event {A} (o : Outcome (A * World t)) : option Event :=
  match o with
  | Done (_, w) => last (log w)
  | _ => None
  end.

(** A connected socket with descriptor 5, an empty read buffer of two
    bytes and [can_read] set, alone in a world whose swap buffer holds four
    bytes and whose system calls are answered by [answers]. *)
Definition fresh_buffer : Buffer.t := Buffer.mk [x00; x00] 0 0 2 false.
Definition ready_socket : t :=
  mk 5 true false None fresh_buffer fresh_buffer false 0 CONNECTED (Some 1) (Some 2) None.
Definition world_of (s : t) (answers : list SysRet) : World t :=
  mkWorld {[ 1 := s ]} [] 0 answers [] 4.

(** The handler invocations recorded in a log, oldest first. *)
Definition invocations (l : list Event) : list (ptr * cb_id * CbArgs) :=
  omap (fun e => match e with EvInvoke p cb a => Some (p, cb, a) | _ => None end) l.


(** A connected socket with two bytes queued for writing, and user code
    that leaves the socket alone. *)
Definition queued_socket : t :=
  mk 5 true false None fresh_buffer (Buffer.mk [x68; x69] 0 2 2 false) false 0 CONNECTED
     (Some 1) (Some 2) None.
Definition keep (cb : cb_id) (args : CbArgs) (s : t) : option t := Some s.


End SocketVocabulary.

Module ServerSocketVocabulary.
Import ServerSocket ScriptVocabulary.
Open Scope Z_scope.




Definition listening : t := mk 3 9 true None.


End ServerSocketVocabulary.

Module IOManagerVocabulary.
Import Socket IOManager SocketVocabulary.

(** The reactor's dispatch over connected sockets driven by [handler]. *)
Definition DispatchSockets (handler : cb_id -> CbArgs -> t -> option t)
    (event_queue : list epoll_event) : M t unit :=
  @DispatchLoop t pollable (notifiable handler) event_queue.

(** User code in which the handler [victim] destroys its socket and every
    other handler leaves the socket alone. *)
Definition destroys (victim : cb_id) (cb : cb_id) (args : CbArgs) (s : t) : option t :=
  if (cb =? victim)%nat then None else Some s.

(** A socket in asynchronous close that has seen EOF: read handler 1,
    write handler 2, close handler 9. *)
Definition closing_socket : t :=
  mk 5 false false None fresh_buffer fresh_buffer true 0%nat CLOSING
     (Some 1%nat) (Some 2%nat) (Some 9%nat).

Definition log_after {A} (o : Outcome (A * World t)) : option (list Event) :=
  match o with
  | Done (_, w) => Some (log w)
  | _ => None
  end.
End IOManagerVocabulary.

Module SocketIOVocabulary.
Import Socket.

(** The bytes a readv hands over: at most what the two segments hold. *)
Definition delivered (tail swap : nat) (ans : SysRet) : list byte :=
  match ans with
  | Delivers data => take (tail + swap) data
  | _ => []
  end.

(** The bytes received by the readv calls recorded in a log, in order. *)
Definition received (l : list Event) : list byte :=
  concat (omap (fun e => match e with
                         | EvSys (SysReadv _ tail swap) ans => Some (delivered tail swap ans)
                         | _ => None
                         end) l).

(** The system calls recorded in a log. *)
Definition syscalls (l : list Event) : list Syscall :=
  omap (fun e => match e with EvSys c _ => Some c | _ => None end) l.

(** What DoWrite leaves of a socket [s], by its result: the new [can_write]
    and write buffer for the size and state returned. *)
Definition DoWrite_post (s : t) (cw : bool) (wb : Buffer.t) (n : nat) (st : NetState) : Prop :=
  let size := Buffer.readable_size (write_buffer_ s) in
  match st with
  | NetOK =>
      n <= size /\ Buffer.wf wb /\
      Buffer.readable wb = drop n (Buffer.readable (write_buffer_ s)) /\
      (n < size -> cw = false) /\ (n = size -> cw = can_write_ s)
  | NetError c e =>
      c = state_category.kSystem /\ n = prev_write_size_ s /\
      wb = write_buffer_ s /\ cw = can_write_ s /\
      is_EAGAIN e = false /\ e <> EINTR
  end.

End SocketIOVocabulary.

Module SocketNotifyVocabulary.
Import Socket.
(** The fields DoRead never writes. *)
Definition DoRead_keeps (s s' : t) : Prop :=
  fd_ s' = fd_ s /\ can_write_ s' = can_write_ s /\ notify_flag_ s' = notify_flag_ s /\
  write_buffer_ s' = write_buffer_ s /\ prev_write_size_ s' = prev_write_size_ s /\
  state_ s' = state_ s /\ user_read_callback_ s' = user_read_callback_ s /\
  user_write_callback_ s' = user_write_callback_ s /\
  user_close_callback_ s' = user_close_callback_ s.

(** The world in which OnReadNotify calls DoRead: the method has been
    entered on the socket [s] at [p] and [can_read] set. *)
Definition entered_for_read (p : ptr) (s : t) (w : World t) : World t :=
  mkWorld (<[p := set_can_read true s]> (objs w)) (cells w) (errno w) (script w)
          (log w ++ [EvEnter p MOnReadNotify]) (swap_buffer_size_ w).
End SocketNotifyVocabulary.

Module DispatchVocabulary.
Import Socket IOManager SocketVocabulary IOManagerVocabulary.

(** The world in which DispatchLoop starts the notifications of the socket
    [s] at [p]: its flag [deleted] is allocated and installed. *)
Definition flagged_by_dispatch (p : ptr) (s : t) (w : World t) : World t :=
  mkWorld (<[p := with_flag (Some (length (cells w))) s]> (objs w)) (cells w ++ [false])
          (errno w) (script w) (log w) (swap_buffer_size_ w).

(** The world after the getsockopt(SO_ERROR) of DispatchLoop answered [r]. *)
Definition asked_for_error (s : t) (r : SysRet) (rest : list SysRet) (w : World t) : World t :=
  mkWorld (objs w) (cells w) (errno w) rest
          (log w ++ [EvSys (SysGetSoError (fd_ s)) r]) (swap_buffer_size_ w).
End DispatchVocabulary.

Module AcceptVocabulary.
Import ServerSocket.
Open Scope Z_scope.

(** The ways DoAccept returns: the descriptor [r] and the state [st] it
    hands back, and the listener [s'] it leaves, for a listener [s], the
    state [state] passed in and the value [errno'] of errno at the return. *)
Definition accepted (s : t) (state : NetState) (r : Z) (st : NetState) (s' : t) : Prop :=
  0 <= r /\ st = state /\ s' = s.

Definition would_block (s : t) (state : NetState) (r : Z) (st : NetState) (s' : t) : Prop :=
  r = -1 /\ st = state /\ s' = set_can_read false s.

Definition failed (s : t) (errno' : Z) (r : Z) (st : NetState) (s' : t) : Prop :=
  r = -1 /\
  exists e d,
    st = NetError state_category.kSystem e /\ is_EAGAIN e = false /\ e <> EINTR /\
    s' = set_can_read (if is_EAGAIN errno' then false else can_read_ s) (set_dummy_fd d s) /\
    if (e =? EMFILE) || (e =? ENFILE) then 0 <= d else d = dummy_fd_ s /\ errno' = e.
End AcceptVocabulary.

Module TimerVocabulary.
Import IOManager.
Open Scope Z_scope.

(** A timer as its handler sees it: the handler and the time it is handed. *)
Definition entry (e : TimerStruct) : cb_id * Z := (callback e, time e).

(** Is the timer [e] due with the front of the queue, whose time is
    [front]?  This is TIME_TRIGGER: the time of [e] less [front], taken as an
    uint64_t, is below kMinDiff. *)
Definition due (front : Z) (e : cb_id * Z) : bool :=
  TIME_TRIGGER (to_uint64 front) (to_uint64 (snd e)).

(** Entry [j] is a child of entry [k] in the implicit binary tree of the
    heap. *)
Definition child (k j : nat) : Prop := (j = 2 * k + 1 \/ j = 2 * k + 2)%nat.

(** [std::is_heap] for [operator<] on the first [n] entries: no entry is
    [operator<] one of its children, that is, no child is earlier than its
    parent. *)
Definition heap_upto (n : nat) (a : list TimerStruct) : Prop :=
  forall k j x y, (j < n)%nat -> child k j -> a !! k = Some x -> a !! j = Some y ->
                  time x <= time y.

Definition is_heap (a : list TimerStruct) : Prop := heap_upto (length a) a.

(** The first [n] entries form a heap except that entry [i] may be later than
    its children; the parent of [i] is not later than the children of [i]. *)
Definition heap_but (n i : nat) (a : list TimerStruct) : Prop :=
  (forall k j x y, (j < n)%nat -> k <> i -> child k j ->
                   a !! k = Some x -> a !! j = Some y -> time x <= time y) /\
  (forall k j x y, (j < n)%nat -> child k i -> child i j ->
                   a !! k = Some x -> a !! j = Some y -> time x <= time y).
End TimerVocabulary.

Module WatchVocabulary.
Import IOManager IOManagerWatch.
Open Scope Z_scope.

(** The mask the flags of a pollable stand for: nothing when no direction is
    watched, else the watched directions, edge-triggered. *)
Definition watched (pollable : Pollable) : option Z :=
  match is_epoll_read_ pollable, is_epoll_write_ pollable with
  | false, false => None
  | true, false => Some (Z.lor EPOLLIN EPOLLET)
  | false, true => Some (Z.lor EPOLLOUT EPOLLET)
  | true, true => Some (Z.lor (Z.lor EPOLLIN EPOLLOUT) EPOLLET)
  end.

(** The flags of the pollable and the interest list agree. *)
Definition in_step (pollable : Pollable) (interest : gmap Z Z) : Prop :=
  interest !! fd_ pollable = watched pollable.
End WatchVocabulary.

(* ===================================================================== *)
(** * Part II: properties                                                 *)
(* ===================================================================== *)

(** ** Buffer *)

Module BufferProps.
Import Buffer BufferVocabulary.

Lemma length_memcpy (m src : list byte) (off : nat) :
  off + length src <= length m -> length (memcpy m off src) = length m.
Proof.
  intros Hle. unfold memcpy.
  rewrite !length_app, length_take, length_drop. lia.
Qed.

Lemma length_readable (b : t) : wf b -> length (readable b) = readable_size b.
Proof.
  intros (Hrw & Hwc & Hlen). unfold readable, readable_size.
  rewrite length_take, length_drop. lia.
Qed.

(** Appending within the writable span extends the readable span by the
    source and keeps the invariant. *)
Lemma readable_append (src : list byte) (b : t) :
  wf b -> length src <= writable_size b ->
  readable (append src b) = readable b ++ src.
Proof.
  intros (Hrw & Hwc & Hlen) Hfit. unfold writable_size in Hfit.
  unfold readable, readable_size, append, memcpy; simpl.
  rewrite drop_app_le by (rewrite length_take; lia).
  rewrite skipn_firstn_comm.
  rewrite take_app_ge by (rewrite length_take, length_drop; lia).
  rewrite length_take, length_drop.
  f_equal.
  replace (write_ptr_ b + length src - read_ptr_ b -
           (write_ptr_ b - read_ptr_ b) `min` (length (mem_ b) - read_ptr_ b))
    with (length src) by lia.
  by rewrite take_app_length.
Qed.

Lemma wf_append (src : list byte) (b : t) :
  wf b -> length src <= writable_size b -> wf (append src b).
Proof.
  intros (Hrw & Hwc & Hlen) Hfit. unfold writable_size in Hfit.
  unfold wf, append; simpl. split_and!; [lia | lia |].
  rewrite length_memcpy; lia.
Qed.

Lemma Grow_spec (cap : nat) (b : t) :
  wf b -> cap <> 0 ->
  wf (Grow cap b) /\ readable (Grow cap b) = readable b /\
  read_ptr_ (Grow cap b) = 0 /\ write_ptr_ (Grow cap b) = readable_size b /\
  capacity_ (Grow cap b) = cap + readable_size b /\
  is_fixed_ (Grow cap b) = is_fixed_ b.
Proof.
  intros Hwf Hcap. pose proof (length_readable b Hwf) as Hlr.
  unfold Grow. destruct (Nat.eqb_spec cap 0) as [|_]; [done|].
  unfold wf; simpl.
  assert (Hmem : forall m, m = (if 0 <? readable_size b
                     then memcpy (malloc (cap + readable_size b)) 0 (readable b)
                     else malloc (cap + readable_size b)) ->
            length m = cap + readable_size b /\ take (readable_size b) m = readable b).
  { intros m ->. destruct (Nat.ltb_spec 0 (readable_size b)) as [Hpos|Hz].
    - split.
      + rewrite length_memcpy; unfold malloc; rewrite ?length_replicate; lia.
      + unfold memcpy. rewrite take_0. simpl.
        rewrite take_app_le by lia. apply take_ge. lia.
    - split; [unfold malloc; apply length_replicate|].
      assert (readable_size b = 0) as Hz' by lia.
      rewrite Hz'. rewrite take_0. symmetry. apply nil_length_inv. lia. }
  destruct (Hmem _ eq_refl) as [Hl Ht].
  split_and!; try done; try lia.
  unfold readable at 1, readable_size at 1; simpl.
  by rewrite Nat.sub_0_r, drop_0.
Qed.

Lemma Inject_cases (src : list byte) (b : t) :
  Inject src b =
    if writable_size b <? length src then
      if is_fixed_ b then Done (false, b)
      else
        let b' := append src (Grow (length src) b) in
        if write_ptr_ b' =? capacity_ b' then Done (true, b') else Aborted
    else
      let b' := append src b in
      if write_ptr_ b' =? capacity_ b' then Done (true, b') else Aborted.
Proof.
  unfold Inject. destruct (writable_size b <? length src); [|done].
  by destruct (is_fixed_ b).
Qed.

(** What a returning Inject leaves behind. *)
Lemma Inject_results (src : list byte) (b : t) :
  wf b ->
  (forall b', Inject src b = Done (false, b') ->
              b' = b /\ is_fixed_ b = true /\ writable_size b < length src) /\
  (forall b', Inject src b = Done (true, b') -> Inject_post src b b').
Proof.
  intros Hwf. rewrite Inject_cases. cbv zeta. unfold Inject_post.
  destruct (Nat.ltb_spec (writable_size b) (length src)) as [Hgrow|Hfit].
  - destruct (is_fixed_ b) eqn:Hfixed.
    + split; [by intros b' [= <-] | by intros b' [=]].
    + assert (length src <> 0) as Hn by lia.
      destruct (Grow_spec (length src) b Hwf Hn) as (Hwf' & Hrd & Hr0 & Hw & Hcap & Hfx).
      assert (length src <= writable_size (Grow (length src) b)) as Hroom
        by (unfold writable_size; lia).
      destruct (Nat.eqb_spec (write_ptr_ (append src (Grow (length src) b)))
                  (capacity_ (append src (Grow (length src) b)))) as [Hfull|_];
        [|by split].
      split; [by intros b' [=]|]. intros b' [= <-].
      split_and!.
      * by apply wf_append.
      * by rewrite readable_append, Hrd.
      * done.
      * unfold append; simpl; congruence.
      * unfold append; simpl; lia.
      * exact Hr0.
  - destruct (Nat.eqb_spec (write_ptr_ (append src b)) (capacity_ (append src b)))
      as [Hfull|_]; [|by split].
    split; [by intros b' [=]|]. intros b' [= <-].
    split_and!; [by apply wf_append | by apply readable_append | done | done | done | done].
Qed.

(** C6 (as amended).  On a well-formed buffer, Inject of [n] bytes returns
    false exactly when the buffer is fixed and [n] exceeds the writable
    size, leaving the buffer as it was; it stops at its closing assertion
    exactly when [n] is smaller than the writable size; in every other
    case it returns true, the readable span is the old one followed by the
    [n] source bytes and [write_ptr == capacity].  When growth is needed
    the new capacity is [readable_size + n]: the readable span is moved to
    offset 0 and exactly [n] writable bytes are allocated (no doubling).
    Without growth the capacity is unchanged. *)
Theorem Inject_appends_exactly (src : list byte) (b : t) :
  wf b ->
  (forall b', Inject src b = Done (false, b') <->
              b' = b /\ is_fixed_ b = true /\ writable_size b < length src) /\
  (Inject src b = Aborted <-> length src < writable_size b) /\
  (forall b', Inject src b = Done (true, b') -> Inject_post src b b') /\
  ((is_fixed_ b = false \/ length src <= writable_size b) ->
   ~ length src < writable_size b ->
   exists b', Inject src b = Done (true, b')).
Proof.
  intros Hwf. rewrite Inject_cases. cbv zeta.
  destruct (Nat.ltb_spec (writable_size b) (length src)) as [Hgrow|Hfit].
  - destruct (is_fixed_ b) eqn:Hfixed.
    + split_and!.
      * intros b'. split; [intros [= <-]; done | intros (-> & _); done].
      * split; [done | lia].
      * intros b' [=].
      * intros [[=]|]; lia.
    + assert (length src <> 0) as Hn by lia.
      destruct (Grow_spec (length src) b Hwf Hn) as (Hwf' & Hrd & Hr0 & Hw & Hcap & Hfx).
      set (g := Grow (length src) b) in *.
      assert (length src <= writable_size g) as Hroom
        by (unfold writable_size; lia).
      assert (write_ptr_ (append src g) = capacity_ (append src g)) as Hfull
        by (unfold append; simpl; lia).
      rewrite Hfull, Nat.eqb_refl.
      split_and!.
      * intros b'. split; [done | intros (_ & [=] & _)].
      * split; [done | lia].
      * intros b' [= <-]. unfold Inject_post.
        destruct (Nat.ltb_spec (writable_size b) (length src)); [|lia].
        split_and!; auto using wf_append.
        -- by rewrite readable_append, Hrd.
        -- unfold append; simpl; lia.
      * eauto.
  - destruct (Nat.eqb_spec (write_ptr_ (append src b)) (capacity_ (append src b)))
      as [Hfull|Hshort]; unfold append in Hfull || unfold append in Hshort; simpl in *.
    + destruct Hwf as (Hrw & Hwc & Hlen). unfold writable_size in *.
      split_and!.
      * intros b'. split; [done | intros (_ & _ & ?); lia].
      * split; [done | lia].
      * intros b' [= <-]. unfold Inject_post, writable_size.
        destruct (Nat.ltb_spec (capacity_ b - write_ptr_ b) (length src)); [lia|].
        split_and!; try done.
        -- apply wf_append; [done | unfold writable_size; lia].
        -- apply readable_append; [done | unfold writable_size; lia].
      * eauto.
    + destruct Hwf as (Hrw & Hwc & Hlen). unfold writable_size in *.
      split_and!.
      * intros b'. split; [done | intros (_ & _ & ?); lia].
      * split; [lia | done].
      * intros b' [=].
      * intros _ Hn. lia.
Qed.

Lemma Inject_appends_exactly_witness :
  wf full_buffer /\
  exists b', Inject [x0a; x0b] full_buffer = Done (true, b') /\
             Inject_post [x0a; x0b] full_buffer b'.
Proof.
  assert (wf full_buffer) as Hwf by (unfold wf, full_buffer; simpl; lia).
  split; [exact Hwf|].
  destruct (Inject_appends_exactly [x0a; x0b] full_buffer Hwf) as (_ & _ & Hpost & Hex).
  destruct Hex as [b' Hb']; [left; reflexivity | vm_compute; lia |].
  exists b'. split; [exact Hb' | exact (Hpost b' Hb')].
Defined.

(** C6 (as stated) fails: a full buffer of capacity 4 whose first two bytes
    were already consumed needs growth to take 2 more bytes, and Inject
    succeeds, yet the capacity stays 4 instead of growing by 2. *)
Lemma Inject_grows_by_less_than_n :
  wf full_buffer /\ writable_size full_buffer < 2 /\
  exists b', Inject [x0a; x0b] full_buffer = Done (true, b') /\
             capacity_ b' = 4 /\ capacity_ b' <> capacity_ full_buffer + 2.
Proof.
  split; [unfold wf, full_buffer; simpl; lia|].
  split; [unfold writable_size, full_buffer; simpl; lia|].
  eexists. split; [reflexivity|]. vm_compute. split; [reflexivity | lia].
Qed.

(** *** Read *)

Lemma Read_returns (size : nat) (b : t) :
  wf b ->
  let '(mem, size', b') := Read size b in
  mem = read_ptr_ b /\ size' = size /\ wf b' /\
  readable_size b' = readable_size b - Nat.min size (readable_size b) /\
  readable b' = drop (Nat.min size (readable_size b)) (readable b).
Proof.
  intros Hwf. pose proof (length_readable b Hwf) as Hlr.
  destruct Hwf as (Hrw & Hwc & Hlen).
  unfold Read, RewindBuffer; simpl. split; [done|]. split; [done|].
  unfold readable_size in *.
  destruct (Nat.eqb_spec (read_ptr_ b + size `min` (write_ptr_ b - read_ptr_ b)) (write_ptr_ b))
    as [Hall|Hsome].
  - unfold wf, readable, readable_size; simpl. split_and!; try lia.
    rewrite take_0. symmetry. apply nil_length_inv.
    rewrite length_drop, length_take, length_drop. lia.
  - unfold wf, readable, readable_size; simpl. split_and!; try lia.
    rewrite skipn_firstn_comm, drop_drop. f_equal; lia.
Qed.

(** C4.  The cell [*size] is never written: asked for 10 bytes of a buffer
    holding 3, Read consumes the 3 bytes (and rewinds), returns the start
    of the consumed region, and leaves 10 in [*size], not 3. *)
Theorem Read_never_stores_the_amount :
  let b := mk [x01; x02; x03; x04] 1 4 4 false in
  readable_size b = 3 /\
  Read 10 b = (1, 10, mk [x01; x02; x03; x04] 0 0 4 false) /\
  forall size b, snd (fst (Read size b)) = size.
Proof. split; [reflexivity|]. split; [reflexivity|]. reflexivity. Qed.

End BufferProps.
(** ** Endpoint *)

Module EndpointProps.
Import Endpoint EndpointVocabulary.
Open Scope Z_scope.

Lemma digit_val_range c d : digit_val c = Some d -> 0 <= d <= 9.
Proof.
  unfold digit_val. case_match eqn:Hc; [|done]. intros [= <-]. lia.
Qed.

Lemma digit_char_val c d : digit_val c = Some d -> digit_char d = c.
Proof.
  unfold digit_val, digit_char. case_match eqn:Hc; [|done]. intros [= <-].
  replace (Z.to_nat (48 + (Z.of_nat (nat_of_ascii c) - 48))) with (nat_of_ascii c) by lia.
  apply ascii_nat_embedding.
Qed.

Lemma is_digit_val c : is_digit c = true -> exists d, digit_val c = Some d /\ 0 <= d <= 9.
Proof.
  unfold is_digit. destruct (digit_val c) as [d|] eqn:Hd; [|done].
  intros _. exists d. eauto using digit_val_range.
Qed.

Lemma is_digit_not_space c : is_digit c = true -> isspace c = false.
Proof.
  unfold is_digit, digit_val, isspace. cbv zeta.
  set (n := Z.of_nat (nat_of_ascii c)).
  destruct ((48 <=? n) && (n <=? 57)) eqn:Hc; [|done]. intros _.
  apply andb_prop in Hc as [H1%Z.leb_le H2%Z.leb_le].
  apply orb_false_iff. split; [apply Z.eqb_neq; lia|].
  apply andb_false_iff. right. apply Z.leb_gt. lia.
Qed.

Lemma is_digit_not_sign c :
  is_digit c = true -> Ascii.eqb c "-" = false /\ Ascii.eqb c "+" = false.
Proof.
  intros Hd. split; apply Ascii.eqb_neq; intros ->; vm_compute in Hd; done.
Qed.

Lemma decimal_step_mono s : forall a b, a <= b ->
  fold_left decimal_step s a <= fold_left decimal_step s b.
Proof.
  induction s as [|c s IH]; intros a b Hab; simpl; [done|].
  apply IH. unfold decimal_step. lia.
Qed.

Lemma decimal_value_nonneg s a : 0 <= a -> 0 <= fold_left decimal_step s a.
Proof.
  revert a. induction s as [|c s IH]; intros a Ha; simpl; [done|].
  apply IH. unfold decimal_step.
  destruct (digit_val c) as [d|] eqn:Hd; simpl; [apply digit_val_range in Hd|]; lia.
Qed.

(** The digits of a numeral are consumed up to the first non-digit. *)
Lemma scan_digits_numeral s rest : forall acc n,
  forallb is_digit s = true -> stops rest = true ->
  scan_digits (s ++ rest) acc n = (fold_left decimal_step s acc, (n + length s)%nat).
Proof.
  induction s as [|c s IH]; intros acc n Hs Hrest; simpl.
  - rewrite Nat.add_0_r. destruct rest as [|c rest]; [done|]. simpl in *.
    unfold is_digit in Hrest. by destruct (digit_val c).
  - simpl in Hs. apply andb_prop in Hs as [Hc Hs].
    destruct (is_digit_val c Hc) as (d & Hd & _).
    rewrite Hd, (IH _ _ Hs Hrest).
    replace (decimal_step acc c) with (acc * 10 + d)
      by (unfold decimal_step; by rewrite Hd).
    f_equal. lia.
Qed.

Lemma numeral_inv s : numeral s = true ->
  exists c t, s = c :: t /\ is_digit c = true /\ forallb is_digit t = true.
Proof.
  unfold numeral. destruct s as [|c t]; [done|]. simpl.
  intros [Hc Ht]%andb_prop. eauto.
Qed.

Lemma strtol_numeral s rest :
  numeral s = true -> stops rest = true ->
  strtol (s ++ rest) =
    if decimal_value s >? LONG_MAX then (LONG_MAX, length s, ERANGE)
    else (decimal_value s, length s, 0).
Proof.
  intros Hs Hrest. pose proof Hs as Hnum.
  apply numeral_inv in Hs as (c & t & -> & Hc & Ht).
  destruct (is_digit_not_sign c Hc) as [Hm Hp].
  unfold strtol. simpl skip_space. rewrite (is_digit_not_space c Hc).
  change ((c :: t) ++ rest) with (c :: (t ++ rest)).
  cbv iota beta. rewrite Hm, Hp.
  change (c :: (t ++ rest)) with ((c :: t) ++ rest).
  rewrite scan_digits_numeral by (simpl; rewrite ?Hc; done).
  fold (decimal_value (c :: t)). simpl length. simpl Nat.eqb. cbv iota.
  destruct (decimal_value (c :: t) >? LONG_MAX) eqn:Hbig; [done|].
  assert (0 <= decimal_value (c :: t)) by (apply decimal_value_nonneg; lia).
  destruct (Z.ltb_spec (decimal_value (c :: t)) LONG_MIN) as [Hlow|_]; [|done].
  unfold LONG_MIN in Hlow. lia.
Qed.

(** *** Printing a canonical numeral gives it back *)

Lemma decimal_value_snoc s c :
  decimal_value (s ++ [c]) = decimal_value s * 10 + default 0 (digit_val c).
Proof. unfold decimal_value. by rewrite fold_left_app. Qed.

Lemma decimal_step_lower t : forall a, 0 <= a ->
  a * 10 ^ Z.of_nat (length t) <= fold_left decimal_step t a.
Proof.
  induction t as [|c t IH]; intros a Ha; simpl fold_left; simpl length.
  - simpl. lia.
  - assert (0 <= default 0 (digit_val c)) as Hd.
    { destruct (digit_val c) as [d|] eqn:Hd; simpl; [apply digit_val_range in Hd|]; lia. }
    assert (0 <= decimal_step a c) as Hstep by (unfold decimal_step; lia).
    specialize (IH _ Hstep).
    rewrite Nat2Z.inj_succ, Z.pow_succ_r by lia.
    assert (0 <= 10 ^ Z.of_nat (length t)) by (apply Z.pow_nonneg; lia).
    unfold decimal_step in *. nia.
Qed.

(** The head of a canonical numeral of two or more digits is not zero. *)
Lemma canonical_inv s :
  canonical s = true ->
  numeral s = true /\
  (length s = 1%nat \/ exists c t, s = c :: t /\ c <> "0"%char).
Proof.
  unfold canonical. intros [Hn Hhd]%andb_prop. split; [done|].
  destruct s as [|c [|c' t]]; [done | by left | right].
  exists c, (c' :: t). split; [done|]. by apply Ascii.eqb_neq, negb_true_iff.
Qed.

Lemma nonzero_digit c d : digit_val c = Some d -> c <> "0"%char -> 1 <= d.
Proof.
  intros Hd Hc. pose proof (digit_val_range _ _ Hd).
  destruct (Z.eq_dec d 0) as [->|]; [|lia].
  apply digit_char_val in Hd. vm_compute in Hd. congruence.
Qed.

Lemma canonical_lower s :
  canonical s = true -> (2 <= length s)%nat ->
  10 ^ Z.of_nat (length s - 1) <= decimal_value s.
Proof.
  intros [Hn [Hone|(c & t & -> & Hc)]]%canonical_inv Hlen; [lia|].
  apply numeral_inv in Hn as (c' & t' & [= <- <-] & Hdc & Ht).
  destruct (is_digit_val c Hdc) as (d & Hd & Hr).
  replace (length (c :: t) - 1)%nat with (length t) by (simpl; lia).
  unfold decimal_value. simpl fold_left.
  pose proof (nonzero_digit c d Hd Hc).
  assert (0 <= decimal_step 0 c) as H0 by (unfold decimal_step; rewrite Hd; simpl; lia).
  pose proof (decimal_step_lower t _ H0) as Hlow.
  assert (0 <= 10 ^ Z.of_nat (length t)) by (apply Z.pow_nonneg; lia).
  unfold decimal_step in Hlow at 1. rewrite Hd in Hlow. simpl in Hlow. nia.
Qed.

Lemma utoa_canonical s :
  canonical s = true ->
  forall fuel acc, (length s <= S fuel)%nat ->
  utoa fuel (decimal_value s) acc = s ++ acc.
Proof.
  induction s as [|c s IH] using rev_ind; [done|].
  intros Hcan fuel acc Hfuel.
  pose proof Hcan as [Hn Hhd]%canonical_inv.
  assert (is_digit c = true /\ forallb is_digit s = true) as [Hc Hs].
  { unfold numeral in Hn. apply andb_prop in Hn as [_ Hall].
    rewrite forallb_app in Hall. simpl in Hall.
    apply andb_prop in Hall as [? [? _]%andb_prop]. done. }
  destruct (is_digit_val c Hc) as (d & Hd & Hr).
  rewrite decimal_value_snoc, Hd. simpl default.
  destruct s as [|c0 s] using rev_ind.
  - (* a single digit *)
    unfold decimal_value; simpl fold_left. rewrite Z.mul_0_l, Z.add_0_l.
    destruct fuel; simpl utoa.
    + rewrite Z.mod_small by lia. by rewrite (digit_char_val c d).
    + rewrite Z.mod_small by lia. rewrite (digit_char_val c d Hd).
      destruct (Z.ltb_spec d 10); [done | lia].
  - (* at least two digits *)
    clear IHs. set (s' := s ++ [c0]) in *.
    assert (canonical s' = true) as Hcan'.
    { unfold canonical, numeral. rewrite Hs.
      assert (length s' <> 0%nat) as Hne by (unfold s'; rewrite length_app; simpl; lia).
      destruct (Nat.eqb_spec (length s') 0); [done|]. simpl.
      destruct Hhd as [Hone|(h & t & Heq & Hh)].
      - rewrite length_app in Hone. simpl in Hone. lia.
      - destruct s' as [|h' [|h'' t']] eqn:Hs'; try done.
        simpl in Heq. injection Heq as -> _. by apply negb_true_iff, Ascii.eqb_neq. }
    assert (1 <= decimal_value s') as Hpos.
    { destruct (Nat.le_gt_cases 2 (length s')) as [H2|H1].
      - pose proof (canonical_lower s' Hcan' H2).
        assert (1 <= 10 ^ Z.of_nat (length s' - 1)); [|lia].
        apply (Z.pow_le_mono_r 10 0); lia.
      - destruct Hhd as [Hone|(h & t & Heq & Hh)].
        { rewrite length_app in Hone. unfold s' in Hone.
          rewrite length_app in Hone. simpl in Hone. lia. }
        destruct s' as [|h' [|h'' t']] eqn:Hs'; simpl in H1; try lia.
        + unfold s' in Hs'. by destruct s.
        + simpl in Heq. injection Heq as -> _.
          simpl in Hs. apply andb_prop in Hs as [Hh' _].
          destruct (is_digit_val h Hh') as (dh & Hdh & _).
          pose proof (nonzero_digit h dh Hdh Hh).
          unfold decimal_value, decimal_step. simpl. rewrite Hdh. simpl. lia. }
    rewrite length_app in Hfuel. simpl in Hfuel.
    destruct fuel as [|fuel].
    { unfold s' in Hfuel. rewrite length_app in Hfuel. simpl in Hfuel. lia. }
    simpl utoa.
    replace ((decimal_value s' * 10 + d) mod 10) with d
      by (rewrite Z.add_comm, Z.mod_add by lia; symmetry; apply Z.mod_small; lia).
    replace ((decimal_value s' * 10 + d) / 10) with (decimal_value s')
      by (rewrite Z.add_comm, Z.div_add by lia; rewrite Z.div_small by lia; lia).
    destruct (Z.ltb_spec (decimal_value s' * 10 + d) 10); [lia|].
    rewrite (IH Hcan') by lia.
    rewrite (digit_char_val c d Hd). by rewrite <- app_assoc.
Qed.

Lemma sprintf_d_canonical s :
  canonical s = true -> sprintf_d (decimal_value s) = s.
Proof.
  intros Hcan. pose proof Hcan as [Hn _]%canonical_inv.
  assert (0 <= decimal_value s) as Hnn by (apply decimal_value_nonneg; lia).
  unfold sprintf_d. destruct (Z.ltb_spec (decimal_value s) 0); [lia|].
  rewrite (utoa_canonical s Hcan); [apply app_nil_r|].
  destruct (Nat.le_gt_cases 2 (length s)) as [H2|H1]; [|lia].
  pose proof (canonical_lower s Hcan H2) as Hlow.
  assert (2 ^ Z.of_nat (length s - 1) <= decimal_value s) as H2low.
  { etransitivity; [|exact Hlow]. apply Z.pow_le_mono_l. lia. }
  apply Z.log2_le_mono in H2low. rewrite Z.log2_pow2 in H2low by lia. lia.
Qed.

(** *** Packing the octets into the address word and back *)

Lemma land_low_high a b k : 0 <= k -> 0 <= a < 2 ^ k -> Z.land a (Z.shiftl b k) = 0.
Proof.
  intros Hk Ha. apply Z.bits_inj'. intros i Hi.
  rewrite Z.land_spec, Z.bits_0.
  destruct (Z.lt_ge_cases i k).
  - rewrite Z.shiftl_spec_low by lia. apply andb_false_r.
  - rewrite <- (Z.mod_small a (2 ^ k)) by lia.
    by rewrite Z.mod_pow2_bits_high by lia.
Qed.

Lemma lor_low_high a b k :
  0 <= k -> 0 <= a < 2 ^ k -> Z.lor a (Z.shiftl b k) = a + b * 2 ^ k.
Proof.
  intros Hk Ha. pose proof (Z.add_lor_land a (Z.shiftl b k)) as Hadd.
  rewrite (land_low_high a b k Hk Ha), Z.shiftl_mul_pow2 in Hadd by lia.
  rewrite Z.shiftl_mul_pow2 by lia. lia.
Qed.

Lemma pack_octets c1 c2 c3 c4 :
  0 <= c1 <= 255 -> 0 <= c2 <= 255 -> 0 <= c3 <= 255 -> 0 <= c4 <= 255 ->
  Z.lor (Z.lor (Z.lor c4 (to_uint32 (Z.shiftl c3 8))) (to_uint32 (Z.shiftl c2 16)))
        (to_uint32 (Z.shiftl c1 24))
  = c1 * 2 ^ 24 + c2 * 2 ^ 16 + c3 * 2 ^ 8 + c4.
Proof.
  intros H1 H2 H3 H4. unfold to_uint32.
  assert (Z.shiftl c3 8 mod 2 ^ 32 = Z.shiftl c3 8) as ->
    by (rewrite Z.shiftl_mul_pow2 by lia; apply Z.mod_small; lia).
  assert (Z.shiftl c2 16 mod 2 ^ 32 = Z.shiftl c2 16) as ->
    by (rewrite Z.shiftl_mul_pow2 by lia; apply Z.mod_small; lia).
  assert (Z.shiftl c1 24 mod 2 ^ 32 = Z.shiftl c1 24) as ->
    by (rewrite Z.shiftl_mul_pow2 by lia; apply Z.mod_small; lia).
  rewrite (lor_low_high c4 c3 8) by lia.
  rewrite (lor_low_high _ c2 16) by lia.
  rewrite (lor_low_high _ c1 24) by lia. lia.
Qed.

Lemma unpack_octets c1 c2 c3 c4 :
  0 <= c1 <= 255 -> 0 <= c2 <= 255 -> 0 <= c3 <= 255 -> 0 <= c4 <= 255 ->
  let w := c1 * 2 ^ 24 + c2 * 2 ^ 16 + c3 * 2 ^ 8 + c4 in
  Z.land (Z.shiftr w 24) 255 = c1 /\ Z.land (Z.shiftr w 16) 255 = c2 /\
  Z.land (Z.shiftr w 8) 255 = c3 /\ Z.land w 255 = c4.
Proof.
  intros H1 H2 H3 H4 w. change 255 with (Z.ones 8).
  rewrite !Z.land_ones, !Z.shiftr_div_pow2 by lia. unfold w.
  change (2 ^ 24) with 16777216. change (2 ^ 16) with 65536. change (2 ^ 8) with 256.
  split_and!; Z.div_mod_to_equations; lia.
Qed.

Section WithSentinel.
Variable kEndpointError : Z.

Lemma to_uint32_nonneg z : 0 <= to_uint32 z.
Proof. unfold to_uint32. apply Z.mod_pos_bound. lia. Qed.

Lemma PARSE_numeral buf len s rest :
  drop len buf = s ++ rest -> numeral s = true -> stops rest = true ->
  PARSE buf len = (fun c => (c, (len + length s)%nat)) <$> octet s.
Proof.
  intros Hbuf Hs Hrest. unfold PARSE, octet.
  rewrite Hbuf, (strtol_numeral s rest Hs Hrest).
  destruct (decimal_value s >? LONG_MAX); [done|]. simpl.
  pose proof (to_uint32_nonneg (decimal_value s)).
  destruct (to_uint32 (decimal_value s) >? 255); [done|]. simpl.
  destruct (Z.ltb_spec (to_uint32 (decimal_value s)) 0); [lia | done].
Qed.

Lemma component_step buf len s tail :
  drop len buf = s ++ "."%char :: tail -> numeral s = true ->
  PARSE buf len = (fun c => (c, (len + length s)%nat)) <$> octet s /\
  CHECK buf (len + length s) = Some (len + length s + 1)%nat /\
  drop (len + length s + 1) buf = tail.
Proof.
  intros Hbuf Hs. split_and!.
  - by apply (PARSE_numeral buf len s ("."%char :: tail)).
  - unfold CHECK, char_at. rewrite <- lookup_drop, Hbuf.
    by rewrite list_lookup_middle.
  - rewrite <- Nat.add_assoc, <- drop_drop, Hbuf.
    rewrite (cons_middle _ s tail), app_assoc.
    rewrite drop_app_length'; [done|]. rewrite length_app. simpl. lia.
Qed.

(** Parsing four numerals joined by dots. *)
Lemma parse_components_dotted s1 s2 s3 s4 rest :
  numeral s1 = true -> numeral s2 = true -> numeral s3 = true -> numeral s4 = true ->
  stops rest = true ->
  parse_components (dotted s1 s2 s3 s4 ++ rest) =
    c1 ← octet s1; c2 ← octet s2; c3 ← octet s3; c4 ← octet s4;
    Some (c1, c2, c3, c4, length (dotted s1 s2 s3 s4)).
Proof.
  intros H1 H2 H3 H4 Hrest. unfold parse_components.
  set (buf := dotted s1 s2 s3 s4 ++ rest).
  assert (drop 0 buf = s1 ++ "."%char :: s2 ++ "."%char :: s3 ++ "."%char :: s4 ++ rest)
    as Hb0.
  { unfold buf, dotted. rewrite drop_0. by repeat (rewrite <- ?app_assoc; simpl). }
  destruct (component_step buf 0 s1 _ Hb0 H1) as (-> & Hc1 & Hb1).
  rewrite !Nat.add_0_l in *.
  destruct (octet s1) as [c1|]; [simpl|done]. rewrite Hc1. simpl.
  destruct (component_step buf _ s2 _ Hb1 H2) as (-> & Hc2 & Hb2).
  destruct (octet s2) as [c2|]; [simpl|done]. rewrite Hc2. simpl.
  destruct (component_step buf _ s3 _ Hb2 H3) as (-> & Hc3 & Hb3).
  destruct (octet s3) as [c3|]; [simpl|done]. rewrite Hc3. simpl.
  rewrite (PARSE_numeral buf _ s4 rest Hb3 H4 Hrest).
  destruct (octet s4) as [c4|]; [simpl|done].
  do 2 f_equal. unfold dotted. repeat (rewrite ?length_app; simpl). lia.
Qed.

Lemma octet_small s : 0 <= decimal_value s <= 255 -> octet s = Some (decimal_value s).
Proof.
  intros Hv. unfold octet, LONG_MAX, to_uint32.
  destruct (Z.gtb_spec (decimal_value s) (2 ^ 63 - 1)); [lia|].
  rewrite Z.mod_small by lia.
  destruct (Z.gtb_spec (decimal_value s) 255); [lia | done].
Qed.

Lemma octet_big s : 255 < decimal_value s < 2 ^ 32 -> octet s = None.
Proof.
  intros Hv. unfold octet, LONG_MAX, to_uint32.
  destruct (Z.gtb_spec (decimal_value s) (2 ^ 63 - 1)); [done|].
  rewrite Z.mod_small by lia.
  destruct (Z.gtb_spec (decimal_value s) 255); [done | lia].
Qed.

Lemma numeral_value_nonneg s : 0 <= decimal_value s.
Proof. apply decimal_value_nonneg. lia. Qed.

(** C10.  Whenever StringToIpv4 fails (returns -1), the address field is
    the one stored before the call, and the only trace of the failure in
    the object is the port field, overwritten with kEndpointError. *)
Theorem StringToIpv4_failure_keeps_address (buf : list ascii) (e : t) :
  fst (StringToIpv4 kEndpointError buf e) = -1 ->
  StringToIpv4 kEndpointError buf e = (-1, mk (ipv4_ e) kEndpointError) /\
  ipv4_ (snd (StringToIpv4 kEndpointError buf e)) = ipv4_ e /\
  port_ (snd (StringToIpv4 kEndpointError buf e)) = kEndpointError.
Proof.
  unfold StringToIpv4.
  destruct (parse_components buf) as [[[[[c1 c2] c3] c4] pend]|]; simpl; [lia | done].
Qed.

(** Numerals in range are consumed and their values stored. *)
Lemma StringToIpv4_numerals (e : t) (s1 s2 s3 s4 rest : list ascii) :
  numeral s1 = true -> numeral s2 = true -> numeral s3 = true ->
  numeral s4 = true -> stops rest = true ->
  decimal_value s1 <= 255 -> decimal_value s2 <= 255 ->
  decimal_value s3 <= 255 -> decimal_value s4 <= 255 ->
  StringToIpv4 kEndpointError (dotted s1 s2 s3 s4 ++ rest) e
  = (Z.of_nat (length (dotted s1 s2 s3 s4)),
     mk (decimal_value s1 * 2 ^ 24 + decimal_value s2 * 2 ^ 16 +
         decimal_value s3 * 2 ^ 8 + decimal_value s4) (port_ e)).
Proof.
  intros H1 H2 H3 H4 Hrest Hv1 Hv2 Hv3 Hv4.
  pose proof (numeral_value_nonneg s1). pose proof (numeral_value_nonneg s2).
  pose proof (numeral_value_nonneg s3). pose proof (numeral_value_nonneg s4).
  unfold StringToIpv4.
  rewrite (parse_components_dotted s1 s2 s3 s4 rest) by done.
  rewrite !octet_small by lia. simpl.
  by rewrite pack_octets by lia.
Qed.

Lemma StringToPort_numeral (e : t) (sp rest : list ascii) :
  numeral sp = true -> stops rest = true -> decimal_value sp <= 65535 ->
  StringToPort kEndpointError (sp ++ rest) e
  = (Z.of_nat (length sp), mk (ipv4_ e) (decimal_value sp)).
Proof.
  intros Hp Hrest Hsmall. pose proof (numeral_value_nonneg sp).
  unfold StringToPort. rewrite strtol_numeral by done.
  destruct (Z.gtb_spec (decimal_value sp) LONG_MAX) as [Hgt|Hle];
    [unfold LONG_MAX in Hgt; lia|]. simpl.
  destruct (Z.gtb_spec (decimal_value sp) 65535); [lia|].
  destruct (Z.ltb_spec (decimal_value sp) 0); [lia|]. simpl.
  unfold to_uint32. by rewrite Z.mod_small by lia.
Qed.

(** C8 (as amended).  On inputs made of decimal numerals, parsing fails,
    storing kEndpointError in the port field and returning -1, whenever
    an address octet has a value above 255 (and below 2^32) or the port
    has a value above 65535; it succeeds, consuming the numerals and
    storing their values, when every octet is at most 255, respectively
    the port at most 65535. *)
Theorem numerals_out_of_range_are_rejected
    (e : t) (s1 s2 s3 s4 sp rest : list ascii) :
  numeral s1 = true -> numeral s2 = true -> numeral s3 = true ->
  numeral s4 = true -> numeral sp = true -> stops rest = true ->
  let v := decimal_value in
  ((255 < v s1 < 2 ^ 32 \/ 255 < v s2 < 2 ^ 32 \/
    255 < v s3 < 2 ^ 32 \/ 255 < v s4 < 2 ^ 32) ->
   StringToIpv4 kEndpointError (dotted s1 s2 s3 s4 ++ rest) e
   = (-1, mk (ipv4_ e) kEndpointError)) /\
  ((v s1 <= 255 /\ v s2 <= 255 /\ v s3 <= 255 /\ v s4 <= 255) ->
   StringToIpv4 kEndpointError (dotted s1 s2 s3 s4 ++ rest) e
   = (Z.of_nat (length (dotted s1 s2 s3 s4)),
      mk (v s1 * 2 ^ 24 + v s2 * 2 ^ 16 + v s3 * 2 ^ 8 + v s4) (port_ e))) /\
  (65535 < v sp ->
   StringToPort kEndpointError (sp ++ rest) e = (-1, mk (ipv4_ e) kEndpointError)) /\
  (v sp <= 65535 ->
   StringToPort kEndpointError (sp ++ rest) e
   = (Z.of_nat (length sp), mk (ipv4_ e) (v sp))).
Proof.
  intros H1 H2 H3 H4 Hp Hrest v. unfold v.
  pose proof (numeral_value_nonneg s1). pose proof (numeral_value_nonneg s2).
  pose proof (numeral_value_nonneg s3). pose proof (numeral_value_nonneg s4).
  pose proof (numeral_value_nonneg sp).
  split_and!.
  - intros Hbad. unfold StringToIpv4.
    rewrite (parse_components_dotted s1 s2 s3 s4 rest) by done.
    destruct Hbad as [Hb|[Hb|[Hb|Hb]]]; pose proof (octet_big _ Hb) as Hnone;
      destruct (octet s1), (octet s2), (octet s3), (octet s4); simpl; done.
  - intros (Hv1 & Hv2 & Hv3 & Hv4). unfold StringToIpv4.
    rewrite (parse_components_dotted s1 s2 s3 s4 rest) by done.
    rewrite !octet_small by lia. simpl.
    by rewrite pack_octets by lia.
  - intros Hbig. unfold StringToPort. rewrite strtol_numeral by done.
    destruct (Z.gtb_spec (decimal_value sp) LONG_MAX) as [|Hle]; [done|]. simpl.
    destruct (Z.gtb_spec (decimal_value sp) 65535); [done | lia].
  - intros Hsmall. unfold StringToPort. rewrite strtol_numeral by done.
    destruct (Z.gtb_spec (decimal_value sp) LONG_MAX) as [Hgt|Hle];
      [unfold LONG_MAX in Hgt; lia|]. simpl.
    destruct (Z.gtb_spec (decimal_value sp) 65535); [lia|].
    destruct (Z.ltb_spec (decimal_value sp) 0); [lia|]. simpl.
    unfold to_uint32. by rewrite Z.mod_small by lia.
Qed.

(** C9 (as amended).  For canonical numerals (no superfluous leading
    zero, no sign, no white space) with octets in [0,255] and port in
    [0,65535], parsing the dotted quad and formatting the result gives
    the original string back, and likewise for the port. *)
Theorem canonical_round_trip (e : t) (s1 s2 s3 s4 sp : list ascii) :
  canonical s1 = true -> canonical s2 = true -> canonical s3 = true ->
  canonical s4 = true -> canonical sp = true ->
  decimal_value s1 <= 255 -> decimal_value s2 <= 255 ->
  decimal_value s3 <= 255 -> decimal_value s4 <= 255 ->
  decimal_value sp <= 65535 ->
  let quad := dotted s1 s2 s3 s4 in
  fst (StringToIpv4 kEndpointError quad e) = Z.of_nat (length quad) /\
  snd (Ipv4ToString (snd (StringToIpv4 kEndpointError quad e))) = quad /\
  fst (StringToPort kEndpointError sp e) = Z.of_nat (length sp) /\
  snd (PortToString (snd (StringToPort kEndpointError sp e))) = sp.
Proof.
  intros C1 C2 C3 C4 Cp V1 V2 V3 V4 Vp quad.
  pose proof C1 as [N1 _]%canonical_inv. pose proof C2 as [N2 _]%canonical_inv.
  pose proof C3 as [N3 _]%canonical_inv. pose proof C4 as [N4 _]%canonical_inv.
  pose proof Cp as [Np _]%canonical_inv.
  pose proof (numeral_value_nonneg s1). pose proof (numeral_value_nonneg s2).
  pose proof (numeral_value_nonneg s3). pose proof (numeral_value_nonneg s4).
  pose proof (numeral_value_nonneg sp).
  pose proof (StringToIpv4_numerals e s1 s2 s3 s4 [] N1 N2 N3 N4 eq_refl V1 V2 V3 V4)
    as Hquad.
  pose proof (StringToPort_numeral e sp [] Np eq_refl Vp) as Hport.
  rewrite !app_nil_r in Hquad, Hport. fold quad in Hquad.
  rewrite Hquad, Hport by done.      split; [done|]. split; [|split; [done|]].
  - unfold Ipv4ToString. cbn [ipv4_ snd fst].
    destruct (unpack_octets (decimal_value s1) (decimal_value s2)
                (decimal_value s3) (decimal_value s4)) as (E1 & E2 & E3 & E4);
      [lia..|].
    cbv zeta in E1, E2, E3, E4. rewrite E1, E2, E3, E4.
    rewrite (sprintf_d_canonical s1 C1), (sprintf_d_canonical s2 C2),
      (sprintf_d_canonical s3 C3), (sprintf_d_canonical s4 C4).
    reflexivity.
  - unfold PortToString. cbn [port_ snd fst].
    assert (to_int32 (decimal_value sp) = decimal_value sp) as ->.
    { unfold to_int32. rewrite Z.mod_small by lia. lia. }
    by apply sprintf_d_canonical.
Qed.

End WithSentinel.

Lemma StringToIpv4_failure_keeps_address_witness :
  fst (StringToIpv4 65536 (cstr "256.1.2.3") (mk 7 9)) = -1 /\
  StringToIpv4 65536 (cstr "256.1.2.3") (mk 7 9) = (-1, mk 7 65536).
Proof.
  split; [reflexivity|].
  apply (StringToIpv4_failure_keeps_address 65536 (cstr "256.1.2.3") (mk 7 9)).
  reflexivity.
Defined.

Lemma numerals_out_of_range_are_rejected_witness :
  StringToIpv4 65536 (cstr "10.0.300.1:80") (mk 7 9) = (-1, mk 7 65536) /\
  StringToPort 65536 (cstr "8080/") (mk 7 9) = (4, mk 7 8080).
Proof.
  destruct (numerals_out_of_range_are_rejected 65536 (mk 7 9)
              (cstr "10") (cstr "0") (cstr "300") (cstr "1") (cstr "8080") (cstr ":80"))
    as (Hbad & _ & _ & _); try reflexivity.
  destruct (numerals_out_of_range_are_rejected 65536 (mk 7 9)
              (cstr "10") (cstr "0") (cstr "300") (cstr "1") (cstr "8080") (cstr "/"))
    as (_ & _ & _ & Hport); try reflexivity.
  split.
  - apply Hbad. right. right. left. vm_compute. split; reflexivity.
  - apply Hport. vm_compute. discriminate.
Defined.

Lemma canonical_round_trip_witness :
  snd (Ipv4ToString (snd (StringToIpv4 65536 (cstr "192.168.0.255") (mk 7 9))))
    = cstr "192.168.0.255" /\
  snd (PortToString (snd (StringToPort 65536 (cstr "65535") (mk 7 9)))) = cstr "65535".
Proof.
  destruct (canonical_round_trip 65536 (mk 7 9)
              (cstr "192") (cstr "168") (cstr "0") (cstr "255") (cstr "65535"))
    as (_ & Hquad & _ & Hport);
    try reflexivity; try (vm_compute; discriminate).
  split; [exact Hquad | exact Hport].
Defined.

(** C8 (as stated) fails: a component without any digit is not rejected
    but read as 0.  The address "1.2.3.x" parses as 1.2.3.0, and the port
    "abc" as port 0 with nothing consumed; neither call returns -1 nor
    stores the sentinel. *)
Lemma digitless_components_are_accepted :
  StringToIpv4 65536 (cstr "1.2.3.x") (mk 7 9) = (6, mk 16909056 9) /\
  StringToPort 65536 (cstr "abc") (mk 7 9) = (0, mk 7 0).
Proof. split; reflexivity. Qed.

(** C9 (as stated) fails: "01.2.3.4" is a dotted quad with octets in
    [0,255] and "080" a decimal port in [0,65535]; both parse, and both
    are formatted back without the leading zero. *)
Lemma leading_zero_is_not_restored :
  fst (StringToIpv4 65536 (cstr "01.2.3.4") (mk 7 9)) = 8 /\
  snd (Ipv4ToString (snd (StringToIpv4 65536 (cstr "01.2.3.4") (mk 7 9))))
    = cstr "1.2.3.4" /\
  cstr "1.2.3.4" <> cstr "01.2.3.4" /\
  fst (StringToPort 65536 (cstr "080") (mk 7 9)) = 3 /\
  snd (PortToString (snd (StringToPort 65536 (cstr "080") (mk 7 9)))) = cstr "80" /\
  cstr "80" <> cstr "080".
Proof. split_and!; try reflexivity; discriminate. Qed.

End EndpointProps.
(** ** The monad of the reactor *)

Module MonadProps.
Import ScriptVocabulary.
Section Laws.
Context {O : Type}.

Lemma bind_Done {A B} (m : M O A) (k : A -> M O B) w a w1 :
  m w = Done (a, w1) -> (m ≫= k) w = k a w1.
Proof. intros Hm. unfold mbind, M_bind, bind. by rewrite Hm. Qed.

Lemma bind_inv {A B} (m : M O A) (k : A -> M O B) w b w2 :
  (m ≫= k) w = Done (b, w2) ->
  exists a w1, m w = Done (a, w1) /\ k a w1 = Done (b, w2).
Proof.
  unfold mbind, M_bind, bind. destruct (m w) as [[a w1]| | |]; try done. eauto.
Qed.


Lemma this_Done p mth (w : World O) o :
  objs w !! p = Some o -> this p mth w = Done (o, w).
Proof. intros H. unfold this. by rewrite H. Qed.

Lemma update_Done p mth f (w : World O) o :
  objs w !! p = Some o ->
  update p mth f w =
    Done (tt, mkWorld (<[p := f o]> (objs w)) (cells w) (errno w) (script w) (log w)
                      (swap_buffer_size_ w)).
Proof. intros H. unfold update. by rewrite H. Qed.
End Laws.

Lemma sys_int_Done {O} (c : Syscall) (w : World O) r rest v :
  script w = r :: rest -> int_result r = Some v ->
  sys_int c w = Done (v, mkWorld (objs w) (cells w) (errno_after (errno w) r) rest
                                 (log w ++ [EvSys c r]) (swap_buffer_size_ w)).
Proof.
  intros Hs Hr. unfold sys_int, syscall, mbind, M_bind, bind. rewrite Hs.
  destruct r; simpl in *; by simplify_eq.
Qed.

Lemma get_errno_Done {O} (w : World O) : get_errno w = Done (errno w, w).
Proof. done. Qed.

Lemma ret_Done {O A} (a : A) (w : World O) : ret a w = Done (a, w).
Proof. done. Qed.


Lemma mret_Done {O A} (a : A) (w : World O) : (mret a : M O A) w = Done (a, w).
Proof. done. Qed.


End MonadProps.

(** ** Socket *)

Module SocketProps.
Import Socket SocketVocabulary MonadProps.

(** What one round of DoRead does, given the next scripted answer. *)
Lemma DoRead_step_spec mth p read_sz (w w' : World t) s res :
  objs w !! p = Some s -> Buffer.wf (read_buffer_ s) ->
  DoRead_step mth p read_sz w = Done (res, w') ->
  exists s' ans rest,
    script w = ans :: rest /\ script w' = rest /\
    objs w' !! p = Some s' /\
    log w' = log w ++ [EvSys (SysReadv (fd_ s) (Buffer.writable_size (read_buffer_ s))
                                       (swap_buffer_size_ w)) ans] /\
    swap_buffer_size_ w' = swap_buffer_size_ w /\
    fd_ s' = fd_ s /\
    Buffer.is_fixed_ (read_buffer_ s') = Buffer.is_fixed_ (read_buffer_ s) /\
    Buffer.wf (read_buffer_ s') /\
    (eof_ s = true -> eof_ s' = true) /\
    match res with
    | inl _ => can_read_ s' = can_read_ s /\ eof_ s' = eof_ s
    | inr _ =>
        can_read_ s' =
          (if clears_can_read (Buffer.is_fixed_ (read_buffer_ s))
                (Buffer.writable_size (read_buffer_ s)) (swap_buffer_size_ w) ans
           then false else can_read_ s) /\
        eof_ s' =
          eof_ s || returned_zero (Buffer.writable_size (read_buffer_ s))
                      (swap_buffer_size_ w) ans
    end.
Proof.
  intros Hp Hwf. unfold DoRead_step.
  rewrite (bind_Done _ _ _ _ _ (this_Done p mth w s Hp)).
  unfold get_swap_buffer_size at 1.
  unfold mbind at 1, M_bind at 1, bind at 1.
  unfold mbind at 1, M_bind at 1, bind at 1. unfold syscall at 1.
  destruct (script w) as [|ans rest] eqn:Hscript; [done|].
  set (w1 := mkWorld _ _ _ _ _ _).
  assert (objs w1 !! p = Some s) as Hp1 by done.
  destruct ans as [e|v|data]; [| done |].
  - (* readv failed *)
    unfold get_errno, mbind at 1, M_bind at 1, bind at 1.
    change (errno w1) with e. unfold clears_can_read.
    destruct (is_EAGAIN e) eqn:Hagain.
    + rewrite (bind_Done _ _ _ _ _ (update_Done p mth _ w1 s Hp1)).
      intros [= <- <-]. exists (set_can_read false s), (Fails e), rest.
      simpl. rewrite lookup_insert_eq, Hagain, orb_false_r. by split_and!.
    + destruct (e =? EINTR)%Z; intros [= <- <-];
        exists s, (Fails e), rest; simpl; rewrite ?Hagain, ?orb_false_r; by split_and!.
  - (* readv delivered [data] *)
    remember (take (Buffer.writable_size (read_buffer_ s) + swap_buffer_size_ w) data)
      as d eqn:Hd.
    remember (Buffer.writable_size (read_buffer_ s)) as tail eqn:Htail.
    remember (swap_buffer_size_ w) as swap eqn:Hswap.
    destruct (Nat.eqb_spec (length d) 0) as [Hz|Hnz].
    + rewrite (bind_Done _ _ _ _ _ (update_Done p mth _ w1 s Hp1)).
      intros [= <- <-]. exists (set_eof true s), (Delivers data), rest.
      simpl. rewrite lookup_insert_eq, <- Hd, Hz. simpl. rewrite orb_true_r.
      by split_and!.
    + assert (Buffer.wf (Buffer.commit_write (take tail d) (read_buffer_ s)) /\
              Buffer.is_fixed_ (Buffer.commit_write (take tail d) (read_buffer_ s))
              = Buffer.is_fixed_ (read_buffer_ s)) as [Hwf1 Hfx1].
      { split; [|done]. apply BufferProps.wf_append; [done|].
        rewrite length_take. lia. }
      set (s1 := set_read_buffer (Buffer.commit_write (take tail d) (read_buffer_ s)) s).
      set (w2 := mkWorld (<[p := s1]> (objs w1)) (cells w1) (errno w1) (script w1) (log w1)
                         (swap_buffer_size_ w1)).
      assert (update p mth (fun s0 => set_read_buffer
                (Buffer.commit_write (take tail d) (read_buffer_ s0)) s0) w1
              = Done (tt, w2)) as Hcommit
        by (by rewrite (update_Done p mth _ w1 s Hp1)).
      assert (objs w2 !! p = Some s1) as Hp2 by (simpl; apply lookup_insert_eq).
      destruct (Nat.leb_spec (length d) tail) as [Hfit|Hover].
      * (* everything fits the tail *)
        match goal with |- (?m ≫= _) _ = _ -> _ =>
          assert (m w1 = Done (true, w2)) as Hinner
            by (by rewrite (bind_Done _ _ _ _ _ Hcommit)) end.
        rewrite (bind_Done _ _ _ _ _ Hinner). unfold negb.
        destruct (Nat.ltb_spec (length d) (swap + tail)) as [Hshort|Hfull].
        -- rewrite (bind_Done _ _ _ _ _ (update_Done p mth _ w2 s1 Hp2)).
           intros [= <- <-]. exists (set_can_read false s1), (Delivers data), rest.
           simpl. rewrite lookup_insert_eq, <- Hd.
           destruct (Nat.ltb_spec 0 (length d)); [|lia].
           destruct (Nat.ltb_spec (length d) (swap + tail)); [|lia].
           destruct (Nat.ltb_spec tail (length d)); [lia|].
           destruct (Nat.eqb_spec (length d) 0); [lia|].
           rewrite andb_false_r, orb_false_r. by split_and!.
        -- intros [= <- <-]. exists s1, (Delivers data), rest.
           simpl. rewrite lookup_insert_eq. by split_and!.
      * (* the overflow went to the swap buffer *)
        set (b1 := Buffer.commit_write (take tail d) (read_buffer_ s)) in *.
        destruct (BufferProps.Inject_results (drop tail d) b1 Hwf1) as (Hfalse & Htrue).
        assert (Buffer.writable_size b1 < length (drop tail d)) as Hroom.
        { unfold b1, Buffer.writable_size, Buffer.commit_write, Buffer.append.
          simpl. rewrite length_take, length_drop.
          destruct Hwf as (? & ? & ?).
          unfold Buffer.writable_size in Htail. lia. }
        destruct (Buffer.Inject (drop tail d) b1) as [[ok b2]| | |] eqn:Hinj.
        2-4: (intros Habs; exfalso; revert Habs;
              unfold mbind at 1, M_bind at 1, bind at 1;
              rewrite (bind_Done _ _ _ _ _ Hcommit);
              rewrite (bind_Done _ _ _ _ _ (this_Done p mth w2 s1 Hp2));
              change (read_buffer_ s1) with b1; rewrite Hinj; done).
        set (w3 := mkWorld (<[p := set_read_buffer b2 s1]> (objs w2)) (cells w2) (errno w2)
                           (script w2) (log w2) (swap_buffer_size_ w2)).
        assert (objs w3 !! p = Some (set_read_buffer b2 s1)) as Hp3
          by (simpl; apply lookup_insert_eq).
        match goal with |- (?m ≫= _) _ = _ -> _ =>
          assert (m w1 = Done (ok, w3)) as Hinner end.
        { rewrite (bind_Done _ _ _ _ _ Hcommit).
          rewrite (bind_Done _ _ _ _ _ (this_Done p mth w2 s1 Hp2)).
          change (read_buffer_ s1) with b1. rewrite Hinj.
          by rewrite (bind_Done _ _ _ _ _ (update_Done p mth _ w2 s1 Hp2)). }
        rewrite (bind_Done _ _ _ _ _ Hinner).
        destruct ok; unfold negb.
        -- destruct (Htrue b2 eq_refl) as (Hwf2 & _ & _ & Hfx2 & _).
           assert (Buffer.is_fixed_ (read_buffer_ s) = false) as Hfixed.
           { destruct (Buffer.is_fixed_ (read_buffer_ s)) eqn:Hfixed; [|done].
             exfalso. unfold Buffer.Inject in Hinj.
             apply Nat.ltb_lt in Hroom. rewrite Hroom in Hinj.
             rewrite Hfx1 in Hinj. done. }
           destruct (Nat.ltb_spec (length d) (swap + tail)) as [Hshort|Hfull].
           ++ rewrite (bind_Done _ _ _ _ _ (update_Done p mth _ w3 _ Hp3)).
              intros [= <- <-].
              exists (set_can_read false (set_read_buffer b2 s1)), (Delivers data), rest.
              simpl. rewrite lookup_insert_eq, <- Hd, Hfixed.
              destruct (Nat.ltb_spec 0 (length d)); [|lia].
              destruct (Nat.ltb_spec (length d) (swap + tail)); [|lia].
              destruct (Nat.eqb_spec (length d) 0); [lia|].
              simpl. rewrite orb_false_r. split_and!; try done; congruence.
           ++ intros [= <- <-]. exists (set_read_buffer b2 s1), (Delivers data), rest.
              simpl. rewrite lookup_insert_eq. split_and!; try done; congruence.
        -- intros [= <- <-]. exists (set_read_buffer b2 s1), (Delivers data), rest.
           destruct (Hfalse b2 eq_refl) as (-> & Hfixed & _).
           simpl. rewrite lookup_insert_eq, <- Hd.
           rewrite Hfx1 in Hfixed. rewrite Hfixed.
           destruct (Nat.ltb_spec tail (length d)); [|lia].
           destruct (Nat.eqb_spec (length d) 0); [lia|].
           simpl. rewrite andb_false_r, orb_false_r. by split_and!.
Qed.

Lemma DoRead_loop_spec mth p (w' : World t) res : forall fuel read_sz (w : World t) s,
  objs w !! p = Some s -> Buffer.wf (read_buffer_ s) ->
  DoRead_loop fuel mth p read_sz w = Done (res, w') ->
  exists s' earlier tail ans,
    objs w' !! p = Some s' /\
    log w' = log w ++ earlier ++
             [EvSys (SysReadv (fd_ s) tail (swap_buffer_size_ w)) ans] /\
    (eof_ s = true -> eof_ s' = true) /\
    can_read_ s' =
      (if clears_can_read (Buffer.is_fixed_ (read_buffer_ s)) tail (swap_buffer_size_ w) ans
       then false else can_read_ s) /\
    eof_ s' = eof_ s || returned_zero tail (swap_buffer_size_ w) ans.
Proof.
  induction fuel as [|fuel IH]; intros read_sz w s Hp Hwf; [done|].
  simpl DoRead_loop. intros Hrun.
  apply bind_inv in Hrun as (r & w1 & Hstep & Hrest).
  destruct (DoRead_step_spec _ _ _ _ _ _ _ Hp Hwf Hstep)
    as (s1 & ans & rest & _ & _ & Hp1 & Hlog & Hswap & Hfd & Hfx & Hwf1 & Heof & Hres).
  destruct r as [read_sz'|res'].
  - destruct Hres as [Hcr Heq].
    destruct (IH _ _ _ Hp1 Hwf1 Hrest)
      as (s' & earlier & tail & ans' & Hp' & Hlog' & Heof' & Hcr' & Hz').
    exists s', (EvSys (SysReadv (fd_ s) (Buffer.writable_size (read_buffer_ s))
                                (swap_buffer_size_ w)) ans :: earlier), tail, ans'.
    split_and!; [done | | auto | |].
    + rewrite Hlog', Hlog, Hswap, Hfd, <- !app_assoc. done.
    + by rewrite Hcr', Hfx, Hswap, Hcr.
    + by rewrite Hz', Hswap, Heq.
  - injection Hrest as <- <-. destruct Hres as [Hcr Hz].
    exists s1, [], (Buffer.writable_size (read_buffer_ s)), ans. by split_and!.
Qed.

Lemma returned_zero_keeps_can_read fixed tail swap ans :
  returned_zero tail swap ans = true -> clears_can_read fixed tail swap ans = false.
Proof.
  destruct ans as [e|v|data]; simpl; try done.
  intros ->%Nat.eqb_eq. done.
Qed.

(** C1 (as amended).  When DoRead returns having called readv (the socket
    had not seen EOF before), [can_read] is false exactly when it was
    already false on entry, or the last readv failed with
    EAGAIN/EWOULDBLOCK, or it returned a positive count smaller than tail +
    swap whose overflow, if any, was injected.  In every other case (a
    return of 0, another error, a full read, a failed injection)
    [can_read] is what it was on entry.  [eof] is set exactly when the last
    readv returned 0, and a return of 0 leaves [can_read] as it was. *)
Theorem DoRead_clears_can_read mth p (w w' : World t) s read_sz st :
  objs w !! p = Some s -> eof_ s = false -> Buffer.wf (read_buffer_ s) ->
  DoRead mth p w = Done ((read_sz, st), w') ->
  exists s' earlier tail ans,
    objs w' !! p = Some s' /\
    log w' = log w ++ earlier ++
             [EvSys (SysReadv (fd_ s) tail (swap_buffer_size_ w)) ans] /\
    (can_read_ s' = false <->
     can_read_ s = false \/
     clears_can_read (Buffer.is_fixed_ (read_buffer_ s)) tail (swap_buffer_size_ w) ans
     = true) /\
    (clears_can_read (Buffer.is_fixed_ (read_buffer_ s)) tail (swap_buffer_size_ w) ans
     = false -> can_read_ s' = can_read_ s) /\
    (eof_ s' = true <-> returned_zero tail (swap_buffer_size_ w) ans = true) /\
    (returned_zero tail (swap_buffer_size_ w) ans = true ->
     eof_ s' = true /\ can_read_ s' = can_read_ s).
Proof.
  intros Hp Heof Hwf. unfold DoRead.
  rewrite (bind_Done _ _ _ _ _ (this_Done p mth w s Hp)), Heof.
  unfold get_fuel, mbind at 1, M_bind at 1, bind at 1. intros Hrun.
  destruct (DoRead_loop_spec _ _ _ _ _ _ _ _ Hp Hwf Hrun)
    as (s' & earlier & tail & ans & Hp' & Hlog & _ & Hcr & Hz).
  rewrite Heof in Hz. simpl in Hz.
  exists s', earlier, tail, ans. split_and!; [done | done | | | | ].
  - rewrite Hcr. destruct (clears_can_read _ _ _ _); [by intuition | ].
    split; [by left | by intros [?|?]].
  - intros Hc. by rewrite Hcr, Hc.
  - by rewrite Hz.
  - intros Hr. split; [by rewrite Hz|].
    by rewrite Hcr, (returned_zero_keeps_can_read _ _ _ _ Hr).
Qed.

Lemma DoRead_clears_can_read_witness :
  exists w' s' earlier tail ans,
    DoRead MOnReadNotify 1 (world_of ready_socket [Fails EINTR; Delivers []])
      = Done ((0, NetOK), w') /\
    objs w' !! 1 = Some s' /\
    log w' = earlier ++ [EvSys (SysReadv 5 tail 4) ans] /\
    (can_read_ s' = false <->
     can_read_ ready_socket = false \/ clears_can_read false tail 4 ans = true) /\
    (clears_can_read false tail 4 ans = false -> can_read_ s' = can_read_ ready_socket) /\
    (eof_ s' = true <-> returned_zero tail 4 ans = true) /\
    (returned_zero tail 4 ans = true ->
     eof_ s' = true /\ can_read_ s' = can_read_ ready_socket).
Proof.
  assert (exists w', DoRead MOnReadNotify 1
                       (world_of ready_socket [Fails EINTR; Delivers []])
                     = Done ((0, NetOK), w')) as [w' Hrun]
    by (eexists; vm_compute; reflexivity).
  assert (Buffer.wf (read_buffer_ ready_socket)) as Hwf
    by (unfold Buffer.wf; simpl; lia).
  destruct (DoRead_clears_can_read MOnReadNotify 1
              (world_of ready_socket [Fails EINTR; Delivers []]) w' ready_socket 0 NetOK
              eq_refl eq_refl Hwf Hrun)
    as (s' & earlier & tail & ans & H1 & H2 & H3 & H4 & H5 & H6).
  exists w', s', earlier, tail, ans. by split_and!.
Defined.

(** C1 (as stated) fails in both directions.  With [can_read] set on
    entry: a readv that returns 0 is the last call of DoRead and leaves
    [can_read] set; a readv that returns 1 byte (fewer than the 2 + 4
    offered) is the last call, is neither EAGAIN nor 0, and clears
    [can_read]. *)
Lemma DoRead_can_read_is_not_eagain_or_zero :
  let at_eof := DoRead MOnReadNotify 1 (world_of ready_socket [Delivers []]) in
  let short := DoRead MOnReadNotify 1 (world_of ready_socket [Delivers [x01]]) in
  last_event at_eof = Some (EvSys (SysReadv 5 2 4) (Delivers [])) /\
  eagain_or_zero (Delivers []) = true /\
  can_read_after at_eof 1 = Some true /\
  last_event short = Some (EvSys (SysReadv 5 2 4) (Delivers [x01])) /\
  eagain_or_zero (Delivers [x01]) = false /\
  can_read_after short 1 = Some false.
Proof. vm_compute. by split_and!. Qed.


(** *** The write path *)

Lemma invocations_app l1 l2 : invocations (l1 ++ l2) = invocations l1 ++ invocations l2.
Proof. apply omap_app. Qed.





Section WithHandlers.
Variable handler : cb_id -> CbArgs -> t -> option t.

(** DO_INVOKE on an armed slot: the slot is emptied, the handler runs
    once on the socket with the emptied slot, and the socket is what the
    handler leaves, or gone (its flag raised) if the handler destroyed
    it. *)
Lemma DO_INVOKE_armed mth p k args (w : World t) s cb :
  objs w !! p = Some s -> slot k s = Some cb ->
  exists w',
    DO_INVOKE handler mth p k args w = Done (tt, w') /\
    objs w' !! p = handler cb args (Release k s) /\
    log w' = log w ++ EvInvoke p cb args ::
               (match handler cb args (Release k s) with
                | Some _ => []
                | None => [EvDestroy p]
                end) /\
    cells w' = (match handler cb args (Release k s), notify_flag_ s with
                | None, Some c => <[c := true]> (cells w)
                | _, _ => cells w
                end) /\
    script w' = script w /\ errno w' = errno w /\
    (forall q, q <> p -> objs w' !! q = objs w !! q).
Proof.
  intros Hp Hslot. unfold DO_INVOKE.
  rewrite (bind_Done _ _ _ _ _ (this_Done p mth w s Hp)), Hslot.
  rewrite (bind_Done _ _ _ _ _ (update_Done p mth _ w s Hp)).
  set (w1 := mkWorld _ _ _ _ _ _).
  assert (objs w1 !! p = Some (Release k s)) as Hp1 by (simpl; apply lookup_insert_eq).
  unfold Invoke. rewrite (bind_Done _ _ _ _ _ (this_Done p mth w1 _ Hp1)).
  unfold emit, mbind at 1, M_bind at 1, bind at 1.
  set (w2 := mkWorld _ _ _ _ _ _).
  assert (objs w2 !! p = Some (Release k s)) as Hp2 by done.
  destruct (handler cb args (Release k s)) as [s'|] eqn:Hh.
  - rewrite (update_Done p mth _ w2 _ Hp2). eexists. split; [done|]. simpl.
    rewrite lookup_insert_eq. split_and!; try done.
    intros q Hq. by rewrite !lookup_insert_ne.
  - unfold destroy. rewrite Hp2. eexists. split; [done|]. simpl.
    rewrite lookup_delete_eq. split_and!; try done.
    + by rewrite <- app_assoc.
    + by destruct k.
    + intros q Hq. by rewrite lookup_delete_ne, lookup_insert_ne.
Qed.

End WithHandlers.




End SocketProps.
(** ** ServerSocket *)

Module ServerSocketProps.
Import ServerSocket ScriptVocabulary ServerSocketVocabulary MonadProps.
Open Scope Z_scope.








End ServerSocketProps.
(** ** IOManager *)

Module IOManagerProps.
Import Socket IOManager SocketVocabulary IOManagerVocabulary.
Local Open Scope nat_scope.

(** C2.  The event EPOLLIN|EPOLLOUT on a socket in asynchronous close that
    has seen EOF: OnReadNotify installs a flag of its own over the one of
    the dispatcher, the close handler destroys the socket, the
    dispatcher's flag stays false and OnWriteNotify is entered on the
    destroyed socket.  On a connected socket, where OnReadNotify installs
    no flag, the same event with a destroying read handler runs no second
    method. *)
Theorem DispatchLoop_enters_a_destroyed_socket :
  DispatchSockets (destroys 9) [mk_event 1 (Z.lor EPOLLIN EPOLLOUT)]
    (world_of closing_socket [])
  = UseAfterFree 1 MOnWriteNotify /\
  log_after (DispatchSockets (destroys 9) [mk_event 1 EPOLLIN] (world_of closing_socket []))
  = Some [EvEnter 1 MOnReadNotify; EvInvoke 1 9 (CloseDone NetOK); EvDestroy 1] /\
  log_after (DispatchSockets (destroys 1) [mk_event 1 (Z.lor EPOLLIN EPOLLOUT)]
               (world_of ready_socket [Delivers [x01]]))
  = Some [EvEnter 1 MOnReadNotify; EvSys (SysReadv 5 2 4) (Delivers [x01]);
          EvInvoke 1 1 (ReadArgs 1 NetOK); EvDestroy 1].
Proof. vm_compute. by split_and!. Qed.

(** C5.  With a non-empty batch the clock value is narrowed to [int]
    before it is returned: at 1700000000010 ms, 10 ms after the previous
    baseline, the entry goes from 100 to 90, but the value returned is
    18446744072902502410, not the clock value. *)
Theorem UpdateTimer_returns_a_narrowed_clock :
  UpdateTimer 1700000000010%Z 1 1700000000000%Z [mk_timer 100%Z 7]
  = (Some 18446744072902502410%Z, [mk_timer 90%Z 7], []) /\
  UpdateTimer 1700000000010%Z 0 1700000000000%Z [mk_timer 100%Z 7]
  = (Some 1700000000010%Z, [], [(7, 100%Z)]).
Proof. vm_compute. by split_and!. Qed.
End IOManagerProps.
(** ** Buffer: Grow, Read, Write and Fill *)

Module BufferOperations.
Import Buffer BufferVocabulary BufferProps.

(** A successful Write extends the readable span by the source. *)
Lemma Write_true (src : list byte) (b : t) :
  wf b -> fst (Write src b) = true ->
  wf (snd (Write src b)) /\ readable (snd (Write src b)) = readable b ++ src.
Proof.
  intros Hwf. unfold Write.
  destruct (Nat.ltb_spec (writable_size b) (length src)) as [Hgrow|Hfit].
  - destruct (is_fixed_ b); [done|]. intros _. cbn [snd].
    set (ncap := (if capacity_ b <? length src then length src else capacity_ b) * 2).
    assert (ncap <> 0) as Hnz
      by (unfold ncap; destruct (Nat.ltb_spec (capacity_ b) (length src)); lia).
    assert (length src <= ncap) as Hle
      by (unfold ncap; destruct (Nat.ltb_spec (capacity_ b) (length src)); lia).
    destruct (Grow_spec ncap b Hwf Hnz) as (Hwf' & Hrd & Hr0 & Hw & Hcap & Hfx).
    assert (length src <= writable_size (Grow ncap b)) as Hroom
      by (unfold writable_size; lia).
    split; [by apply wf_append | by rewrite readable_append, Hrd].
  - intros _. split; [by apply wf_append | by apply readable_append].
Qed.

(** The region Read hands out holds the bytes it consumed. *)
Lemma Read_region (size : nat) (b : t) :
  wf b ->
  let n := Nat.min size (readable_size b) in
  take n (drop (fst (fst (Read size b))) (mem_ (snd (Read size b)))) = take n (readable b).
Proof.
  intros Hwf n. unfold Read. cbn [fst snd].
  assert (mem_ (RewindBuffer (mk (mem_ b)
            (read_ptr_ b + size `min` readable_size b) (write_ptr_ b)
            (capacity_ b) (is_fixed_ b))) = mem_ b) as ->
    by (unfold RewindBuffer; by case_match).
  unfold readable. rewrite take_take. f_equal. unfold n. lia.
Qed.

(** X1.  Write is all or nothing.  On a well-formed buffer it returns false
    exactly when the buffer is fixed and the source does not fit, and then
    leaves the buffer alone; otherwise the readable span is the old one
    followed by the source.  Without growth the capacity is unchanged; with
    growth it is twice the larger of the length and the old capacity, plus
    the readable size. *)
Theorem Write_all_or_nothing (src : list byte) (b : t) :
  wf b ->
  let '(ok, b') := Write src b in
  (ok = false <-> is_fixed_ b = true /\ writable_size b < length src) /\
  (ok = false -> b' = b) /\
  (ok = true ->
   wf b' /\ readable b' = readable b ++ src /\ is_fixed_ b' = is_fixed_ b /\
   capacity_ b' = if writable_size b <? length src
                  then 2 * Nat.max (length src) (capacity_ b) + readable_size b
                  else capacity_ b).
Proof.
  intros Hwf. unfold Write.
  destruct (Nat.ltb_spec (writable_size b) (length src)) as [Hgrow|Hfit].
  - destruct (is_fixed_ b) eqn:Hfixed.
    + split_and!; [split; [done | done] | done | done].
    + set (ncap := (if capacity_ b <? length src then length src else capacity_ b) * 2).
      assert (ncap = 2 * Nat.max (length src) (capacity_ b)) as Hncap.
      { unfold ncap. destruct (Nat.ltb_spec (capacity_ b) (length src)); lia. }
      assert (ncap <> 0) as Hnz by lia.
      destruct (Grow_spec ncap b Hwf Hnz) as (Hwf' & Hrd & Hr0 & Hw & Hcap & Hfx).
      assert (length src <= writable_size (Grow ncap b)) as Hroom
        by (unfold writable_size; lia).
      split_and!; [split; [done | intros [[=] _]] | done |].
      intros _. split_and!.
      * by apply wf_append.
      * by rewrite readable_append, Hrd.
      * unfold append; simpl. congruence.
      * unfold append; simpl. lia.
  - split_and!; [split; [done | intros [_ ?]; lia] | done |].
    intros _. split_and!; [by apply wf_append | by apply readable_append | done | done].
Qed.

Lemma Write_all_or_nothing_witness :
  wf full_buffer /\
  let '(ok, b') := Write [x0a; x0b; x0c] full_buffer in
  ok = true /\ readable b' = [x03; x04; x0a; x0b; x0c] /\ capacity_ b' = 10.
Proof.
  assert (wf full_buffer) as Hwf by (unfold wf, full_buffer; simpl; lia).
  split; [exact Hwf|].
  pose proof (Write_all_or_nothing [x0a; x0b; x0c] full_buffer Hwf) as H.
  destruct (Write [x0a; x0b; x0c] full_buffer) as [ok b'] eqn:Hrun.
  destruct H as (_ & _ & Htrue).
  assert (ok = true) as -> by (vm_compute in Hrun; congruence).
  destruct (Htrue eq_refl) as (_ & Hrd & _ & Hcap).
  split; [reflexivity|]. split; [exact Hrd | exact Hcap].
Defined.

(** X2.  Fill never grows the buffer: it copies the longest prefix of the source
    that fits the writable span, returns its length, and keeps the
    capacity. *)
Theorem Fill_copies_what_fits (src : list byte) (b : t) :
  wf b ->
  let '(n, b') := Fill src b in
  n = Nat.min (writable_size b) (length src) /\
  wf b' /\ readable b' = readable b ++ take n src /\
  capacity_ b' = capacity_ b /\ read_ptr_ b' = read_ptr_ b.
Proof.
  intros Hwf. unfold Fill.
  set (sz := Nat.min (writable_size b) (length src)).
  destruct (Nat.eqb_spec sz 0) as [Hz|Hnz].
  - rewrite Hz, take_0, app_nil_r. by split_and!.
  - assert (length (take sz src) <= writable_size b) as Hroom
      by (rewrite length_take; lia).
    split_and!; [done | by apply wf_append | by apply readable_append | done | done].
Qed.

Lemma Fill_copies_what_fits_witness :
  let '(n, b') := Fill [x0a; x0b; x0c] (mk [x01; x02; x03; x04] 0 2 4 true) in
  n = 2 /\ readable b' = [x01; x02; x0a; x0b] /\ capacity_ b' = 4.
Proof.
  assert (wf (mk [x01; x02; x03; x04] 0 2 4 true)) as Hwf
    by (unfold wf; simpl; lia).
  pose proof (Fill_copies_what_fits [x0a; x0b; x0c] _ Hwf) as H.
  destruct (Fill [x0a; x0b; x0c] (mk [x01; x02; x03; x04] 0 2 4 true)) as [n b'].
  destruct H as (Hn & _ & Hrd & Hcap & _).
  rewrite Hn in Hrd. split; [exact Hn|]. split; [exact Hrd | exact Hcap].
Defined.

(** X3.  Read consumes from the front of the readable span: it returns the old
    read offset, the bytes consumed are the first min(size, readable_size)
    readable bytes, the rest stays readable, and once everything is consumed
    both offsets are back at 0. *)
Theorem Read_consumes_a_prefix (size : nat) (b : t) :
  wf b ->
  let '(mem, _, b') := Read size b in
  let n := Nat.min size (readable_size b) in
  mem = read_ptr_ b /\ wf b' /\
  mem_ b' = mem_ b /\ capacity_ b' = capacity_ b /\
  take n (drop mem (mem_ b')) = take n (readable b) /\
  readable b' = drop n (readable b) /\
  (readable_size b <= size -> read_ptr_ b' = 0 /\ write_ptr_ b' = 0).
Proof.
  intros Hwf. pose proof (Read_returns size b Hwf) as H.
  destruct (Read size b) as [[mem size'] b'] eqn:Hrun. cbv zeta.
  destruct H as (Hmem & _ & Hwf' & _ & Hrd).
  unfold Read in Hrun. injection Hrun as <- <- <-.
  destruct Hwf as (Hrw & Hwc & Hlen).
  split_and!; try done.
  - unfold RewindBuffer. by case_match.
  - unfold RewindBuffer. by case_match.
  - exact (Read_region size b (conj Hrw (conj Hwc Hlen))).
  - intros Hall. unfold RewindBuffer. simpl.
    unfold readable_size in *.
    destruct (Nat.eqb_spec (read_ptr_ b + size `min` (write_ptr_ b - read_ptr_ b))
                (write_ptr_ b)); [done | lia].
Qed.

Lemma Read_consumes_a_prefix_witness :
  let '(mem, _, b') := Read 2 (mk [x01; x02; x03; x04] 1 4 4 false) in
  mem = 1 /\ readable b' = [x04].
Proof.
  assert (wf (mk [x01; x02; x03; x04] 1 4 4 false)) as Hwf
    by (unfold wf; simpl; lia).
  pose proof (Read_consumes_a_prefix 2 _ Hwf) as H.
  destruct (Read 2 (mk [x01; x02; x03; x04] 1 4 4 false)) as [[mem size'] b'].
  destruct H as (Hmem & _ & _ & _ & _ & Hrd & _).
  split; [exact Hmem | exact Hrd].
Defined.

(** X4.  Grow keeps the readable bytes and makes room: the readable span moves to
    offset 0 and exactly [cap] writable bytes follow it.  Grow(0) changes
    nothing. *)
Theorem Grow_keeps_the_readable_bytes (cap : nat) (b : t) :
  wf b ->
  Grow 0 b = b /\
  (cap <> 0 ->
   wf (Grow cap b) /\ readable (Grow cap b) = readable b /\
   read_ptr_ (Grow cap b) = 0 /\ writable_size (Grow cap b) = cap /\
   capacity_ (Grow cap b) = cap + readable_size b).
Proof.
  intros Hwf. split; [done|]. intros Hcap.
  destruct (Grow_spec cap b Hwf Hcap) as (Hwf' & Hrd & Hr0 & Hw & Hc & _).
  split_and!; try done. unfold writable_size. lia.
Qed.

Lemma Grow_keeps_the_readable_bytes_witness :
  readable (Grow 3 full_buffer) = [x03; x04] /\ capacity_ (Grow 3 full_buffer) = 5.
Proof.
  assert (wf full_buffer) as Hwf by (unfold wf, full_buffer; simpl; lia).
  destruct (Grow_keeps_the_readable_bytes 3 full_buffer Hwf) as [_ H].
  destruct H as (_ & Hrd & _ & _ & Hcap); [lia|].
  split; [exact Hrd | exact Hcap].
Defined.

(** X5.  Write then Read: what was written is read back.  After a successful
    Write, a Read of everything readable returns a region that holds the
    bytes readable before followed by the bytes written, and leaves the
    buffer empty. *)
Theorem Write_then_Read (src : list byte) (b : t) :
  wf b ->
  fst (Write src b) = true ->
  let b1 := snd (Write src b) in
  let '(mem, _, b2) := Read (readable_size b1) b1 in
  take (readable_size b1) (drop mem (mem_ b2)) = readable b ++ src /\
  readable b2 = [] /\ readable_size b2 = 0.
Proof.
  intros Hwf Hok. destruct (Write_true src b Hwf Hok) as [Hwf1 Hrd1].
  generalize dependent (snd (Write src b)). intros b1 Hwf1 Hrd1. cbv zeta.
  pose proof (Read_returns (readable_size b1) b1 Hwf1) as HR.
  pose proof (Read_region (readable_size b1) b1 Hwf1) as Hregion.
  destruct (Read (readable_size b1) b1) as [[mem size'] b2].
  cbv zeta in Hregion. cbn [fst snd] in Hregion.
  destruct HR as (_ & _ & Hwf2 & Hsize & Hrest).
  rewrite Nat.min_id in *. pose proof (length_readable b1 Hwf1) as Hlen.
  split_and!.
  - rewrite Hregion, <- Hrd1. apply take_ge. lia.
  - rewrite Hrest. apply drop_ge. lia.
  - lia.
Qed.

Lemma Write_then_Read_witness :
  let b1 := snd (Write [x0a; x0b] full_buffer) in
  let '(mem, _, b2) := Read (readable_size b1) b1 in
  take (readable_size b1) (drop mem (mem_ b2)) = [x03; x04; x0a; x0b].
Proof.
  assert (wf full_buffer) as Hwf by (unfold wf, full_buffer; simpl; lia).
  pose proof (Write_then_Read [x0a; x0b] full_buffer Hwf eq_refl) as H.
  cbv zeta in *.
  destruct (Read (readable_size (snd (Write [x0a; x0b] full_buffer)))
              (snd (Write [x0a; x0b] full_buffer))) as [[mem size'] b2].
  destruct H as (H & _). exact H.
Defined.

End BufferOperations.

(** ** Endpoint: formatting against parsing *)

Module EndpointCodec.
Import Endpoint EndpointVocabulary EndpointProps.
Open Scope Z_scope.

Lemma digit_val_char d : 0 <= d <= 9 -> digit_val (digit_char d) = Some d.
Proof.
  intros Hd.
  assert (d = 0 \/ d = 1 \/ d = 2 \/ d = 3 \/ d = 4 \/ d = 5 \/ d = 6 \/ d = 7 \/
          d = 8 \/ d = 9) as Hcases by lia.
  repeat (destruct Hcases as [-> | Hcases]; [reflexivity|]). by subst.
Qed.

Lemma is_digit_char d : 0 <= d <= 9 -> is_digit (digit_char d) = true.
Proof. intros Hd. unfold is_digit. by rewrite digit_val_char. Qed.

Lemma canonical_single d : 0 <= d <= 9 -> canonical [digit_char d] = true.
Proof.
  intros Hd. unfold canonical, numeral. simpl. by rewrite is_digit_char.
Qed.

Lemma decimal_value_single d : 0 <= d <= 9 -> decimal_value [digit_char d] = d.
Proof.
  intros Hd. unfold decimal_value, decimal_step. simpl. by rewrite digit_val_char.
Qed.

(** Appending a digit to a canonical numeral of positive value. *)
Lemma canonical_snoc s d :
  canonical s = true -> 1 <= decimal_value s -> 0 <= d <= 9 ->
  canonical (s ++ [digit_char d]) = true.
Proof.
  intros Hcan Hpos Hd. pose proof Hcan as [Hn Hhd]%canonical_inv.
  apply numeral_inv in Hn as (c & t & -> & Hc & Ht).
  unfold canonical, numeral. simpl.
  rewrite Hc, forallb_app, Ht. simpl. rewrite (is_digit_char d Hd). simpl.
  destruct t as [|c' t]; simpl.
  - (* a single digit of positive value is not '0' *)
    apply negb_true_iff, Ascii.eqb_neq. intros ->.
    change (decimal_value ["0"%char]) with 0 in Hpos. lia.
  - destruct Hhd as [Hone|(c0 & t0 & [= <- <-] & Hne)]; [simpl in Hone; lia|].
    by apply negb_true_iff, Ascii.eqb_neq.
Qed.

(** The digits utoa writes in front of [acc] form the canonical numeral of
    [n]. *)
Lemma utoa_digits : forall fuel n acc,
  0 <= n < 10 ^ Z.of_nat (S fuel) ->
  exists ds, utoa fuel n acc = ds ++ acc /\ canonical ds = true /\ decimal_value ds = n.
Proof.
  induction fuel as [|fuel IH]; intros n acc Hn.
  - change (10 ^ Z.of_nat 1) with 10 in Hn. exists [digit_char n]. simpl.
    rewrite Z.mod_small by lia.
    split_and!; [done | apply canonical_single; lia | apply decimal_value_single; lia].
  - cbn [utoa]. destruct (Z.ltb_spec n 10) as [Hsmall|Hbig].
    + exists [digit_char n]. rewrite Z.mod_small by lia.
      split_and!; [done | apply canonical_single; lia | apply decimal_value_single; lia].
    + assert (0 <= n mod 10 <= 9) as Hd by (pose proof (Z.mod_pos_bound n 10); lia).
      assert (1 <= n / 10 < 10 ^ Z.of_nat (S fuel)) as Hq.
      { rewrite (Nat2Z.inj_succ (S fuel)), Z.pow_succ_r in Hn by lia.
        split; [apply Z.div_le_lower_bound; lia | apply Z.div_lt_upper_bound; lia]. }
      destruct (IH (n / 10) (digit_char (n mod 10) :: acc)) as (ds & Hds & Hcan & Hval);
        [lia|].
      exists (ds ++ [digit_char (n mod 10)]). split_and!.
      * rewrite Hds, <- app_assoc. done.
      * apply canonical_snoc; [done | lia | done].
      * rewrite decimal_value_snoc, Hval, digit_val_char by done. simpl.
        pose proof (Z.div_mod n 10). lia.
Qed.

(** Printing a non-negative number gives its canonical numeral. *)
Lemma sprintf_d_numeral n :
  0 <= n -> canonical (sprintf_d n) = true /\ decimal_value (sprintf_d n) = n.
Proof.
  intros Hn. unfold sprintf_d. destruct (Z.ltb_spec n 0); [lia|].
  destruct (utoa_digits (Z.to_nat (Z.log2 n)) n []) as (ds & Hds & Hcan & Hval).
  - split; [done|]. destruct (Z.eq_dec n 0) as [->|Hnz]; [done|].
    rewrite Nat2Z.inj_succ, Z2Nat.id by apply Z.log2_nonneg.
    pose proof (Z.log2_spec n ltac:(lia)) as [_ Hlt].
    eapply Z.lt_le_trans; [exact Hlt|].
    apply Z.pow_le_mono_l. lia.
  - rewrite Hds, app_nil_r. done.
Qed.

Lemma octet_of_word w k : 0 <= Z.land (Z.shiftr w k) 255 <= 255.
Proof.
  change 255 with (Z.ones 8) at 1 2. rewrite Z.land_ones by lia.
  pose proof (Z.mod_pos_bound (Z.shiftr w k) (2 ^ 8)). lia.
Qed.

Lemma word_of_octets w :
  0 <= w < 2 ^ 32 ->
  Z.land (Z.shiftr w 24) 255 * 2 ^ 24 + Z.land (Z.shiftr w 16) 255 * 2 ^ 16 +
  Z.land (Z.shiftr w 8) 255 * 2 ^ 8 + Z.land w 255 = w.
Proof.
  intros Hw. change 255 with (Z.ones 8).
  rewrite !Z.land_ones, !Z.shiftr_div_pow2 by lia.
  change (2 ^ 32) with 4294967296 in Hw.
  change (2 ^ 24) with 16777216. change (2 ^ 16) with 65536. change (2 ^ 8) with 256.
  Z.div_mod_to_equations. lia.
Qed.

Section WithSentinel.
Variable kEndpointError : Z.

(** X6.  Formatting an endpoint and parsing the text gives the endpoint back: for
    every 32-bit address, StringToIpv4 of the output of Ipv4ToString consumes
    the whole text and stores the same address; for every port up to 65535,
    StringToPort of the output of PortToString stores the same port. *)
Theorem format_then_parse (e target : t) :
  0 <= ipv4_ e < 2 ^ 32 -> 0 <= port_ e <= 65535 ->
  StringToIpv4 kEndpointError (snd (Ipv4ToString e)) target
  = (fst (Ipv4ToString e), mk (ipv4_ e) (port_ target)) /\
  StringToPort kEndpointError (snd (PortToString e)) target
  = (fst (PortToString e), mk (ipv4_ target) (port_ e)).
Proof.
  intros Hip Hport. unfold Ipv4ToString, PortToString. cbv zeta. cbn [fst snd].
  set (c1 := Z.land (Z.shiftr (ipv4_ e) 24) 255).
  set (c2 := Z.land (Z.shiftr (ipv4_ e) 16) 255).
  set (c3 := Z.land (Z.shiftr (ipv4_ e) 8) 255).
  set (c4 := Z.land (ipv4_ e) 255).
  assert (0 <= c1 <= 255) as H1 by apply octet_of_word.
  assert (0 <= c2 <= 255) as H2 by apply octet_of_word.
  assert (0 <= c3 <= 255) as H3 by apply octet_of_word.
  assert (0 <= c4 <= 255) as H4 by (apply (octet_of_word (ipv4_ e) 0)).
  assert (to_int32 (port_ e) = port_ e) as ->
    by (unfold to_int32; rewrite Z.mod_small by lia; lia).
  destruct (sprintf_d_numeral c1) as [C1 V1]; [lia|].
  destruct (sprintf_d_numeral c2) as [C2 V2]; [lia|].
  destruct (sprintf_d_numeral c3) as [C3 V3]; [lia|].
  destruct (sprintf_d_numeral c4) as [C4 V4]; [lia|].
  destruct (sprintf_d_numeral (port_ e)) as [Cp Vp]; [lia|].
  pose proof C1 as [N1 _]%canonical_inv. pose proof C2 as [N2 _]%canonical_inv.
  pose proof C3 as [N3 _]%canonical_inv. pose proof C4 as [N4 _]%canonical_inv.
  pose proof Cp as [Np _]%canonical_inv.
  pose proof (StringToIpv4_numerals kEndpointError target
                (sprintf_d c1) (sprintf_d c2) (sprintf_d c3) (sprintf_d c4) []
                N1 N2 N3 N4 eq_refl ltac:(lia) ltac:(lia) ltac:(lia) ltac:(lia)) as Hquad.
  pose proof (StringToPort_numeral kEndpointError target (sprintf_d (port_ e)) []
                Np eq_refl ltac:(lia)) as Hp.
  rewrite app_nil_r in Hquad, Hp.
  unfold dotted in Hquad. rewrite Hquad, Hp.
  rewrite V1, V2, V3, V4, Vp. split; [|done].
  f_equal. f_equal. apply word_of_octets. done.
Qed.

End WithSentinel.

Lemma format_then_parse_witness :
  StringToIpv4 65536 (snd (Ipv4ToString (mk 3232235777 8080))) (mk 0 0)
  = (11, mk 3232235777 0) /\
  StringToPort 65536 (snd (PortToString (mk 3232235777 8080))) (mk 0 0)
  = (4, mk 0 8080).
Proof.
  destruct (format_then_parse 65536 (mk 3232235777 8080) (mk 0 0)) as [Ha Hp];
    [simpl; lia | simpl; lia |].
  split; [exact Ha | exact Hp].
Defined.


(** X7.  Ipv4ToString never writes more than 15 characters (nor fewer than 7),
    whatever the address word, and returns the number of characters
    written. *)
Theorem Ipv4ToString_writes_7_to_15_characters (e : t) :
  fst (Ipv4ToString e) = Z.of_nat (length (snd (Ipv4ToString e))) /\
  7 <= fst (Ipv4ToString e) <= 15.
Proof.
  unfold Ipv4ToString. cbv zeta. cbn [fst snd]. split; [done|].
  assert (forall o, 0 <= o <= 255 -> (1 <= length (sprintf_d o) <= 3)%nat) as Hlen.
  { intros o Ho. destruct (sprintf_d_numeral o) as [Hcan Hval]; [lia|].
    pose proof Hcan as [Hn _]%canonical_inv.
    apply numeral_inv in Hn as (c & t & Heq & _). split; [rewrite Heq; simpl; lia|].
    destruct (Nat.le_gt_cases 2 (length (sprintf_d o))) as [H2|]; [|lia].
    pose proof (canonical_lower _ Hcan H2) as Hlow. rewrite Hval in Hlow.
    destruct (Nat.le_gt_cases (length (sprintf_d o)) 3) as [|Hbig]; [done|].
    assert (10 ^ 3 <= 10 ^ Z.of_nat (length (sprintf_d o) - 1))
      by (apply Z.pow_le_mono_r; lia).
    change (10 ^ 3) with 1000 in *. lia. }
  pose proof (Hlen _ (octet_of_word (ipv4_ e) 24)).
  pose proof (Hlen _ (octet_of_word (ipv4_ e) 16)).
  pose proof (Hlen _ (octet_of_word (ipv4_ e) 8)).
  pose proof (Hlen _ (octet_of_word (ipv4_ e) 0)) as Hlast.
  rewrite Z.shiftr_0_r in Hlast.
  generalize dependent (sprintf_d (Z.land (Z.shiftr (ipv4_ e) 24) 255)).
  generalize dependent (sprintf_d (Z.land (Z.shiftr (ipv4_ e) 16) 255)).
  generalize dependent (sprintf_d (Z.land (Z.shiftr (ipv4_ e) 8) 255)).
  generalize dependent (sprintf_d (Z.land (ipv4_ e) 255)).
  intros s1 H1 s2 H2 s3 H3 s4 H4.
  repeat (rewrite ?length_app; cbn [length]). lia.
Qed.


Lemma PARSE_range buf len c pend : PARSE buf len = Some (c, pend) -> 0 <= c <= 255.
Proof.
  unfold PARSE. destruct (strtol (drop len buf)) as [[v n] errno].
  destruct (negb (errno =? 0)); [done|].
  destruct (Z.gtb_spec (to_uint32 v) 255); [done|]. simpl.
  destruct (Z.ltb_spec (to_uint32 v) 0); [done|]. intros [= <- _]. lia.
Qed.

(** X8.  Whatever the input, a parse that does not fail stores a value in range:
    StringToPort stores a port in [0,65535] and never touches the address;
    StringToIpv4 stores an address in [0,2^32) and leaves the port alone.
    Neither returns a negative value other than -1. *)
Theorem parsed_values_are_in_range (kEndpointError : Z) (buf : list ascii) (e : t) :
  ipv4_ (snd (StringToPort kEndpointError buf e)) = ipv4_ e /\
  (fst (StringToPort kEndpointError buf e) = -1 \/
   0 <= fst (StringToPort kEndpointError buf e) /\
   0 <= port_ (snd (StringToPort kEndpointError buf e)) <= 65535) /\
  (fst (StringToIpv4 kEndpointError buf e) = -1 \/
   0 <= fst (StringToIpv4 kEndpointError buf e) /\
   0 <= ipv4_ (snd (StringToIpv4 kEndpointError buf e)) < 2 ^ 32 /\
   port_ (snd (StringToIpv4 kEndpointError buf e)) = port_ e).
Proof.
  split_and!.
  - unfold StringToPort. destruct (strtol buf) as [[p n] errno].
    destruct (negb (errno =? 0)); [done|]. by destruct ((p >? 65535) || (p <? 0)).
  - unfold StringToPort. destruct (strtol buf) as [[p n] errno].
    destruct (negb (errno =? 0)); [by left|].
    destruct (Z.gtb_spec p 65535); [by left|].
    destruct (Z.ltb_spec p 0); [by left|]. right. simpl.
    unfold to_uint32. rewrite Z.mod_small by lia. lia.
  - unfold StringToIpv4, parse_components.
    destruct (PARSE buf 0) as [[c1 pend1]|] eqn:P1; [simpl|by left].
    destruct (CHECK buf pend1) as [len1|]; [simpl|by left].
    destruct (PARSE buf len1) as [[c2 pend2]|] eqn:P2; [simpl|by left].
    destruct (CHECK buf pend2) as [len2|]; [simpl|by left].
    destruct (PARSE buf len2) as [[c3 pend3]|] eqn:P3; [simpl|by left].
    destruct (CHECK buf pend3) as [len3|]; [simpl|by left].
    destruct (PARSE buf len3) as [[c4 pend4]|] eqn:P4; [simpl|by left].
    right. apply PARSE_range in P1, P2, P3, P4.
    rewrite pack_octets by done. split_and!; [lia | lia | | done].
    change (2 ^ 32) with 4294967296. change (2 ^ 24) with 16777216.
    change (2 ^ 16) with 65536. change (2 ^ 8) with 256. lia.
Qed.

(** X9.  The range test of an address octet comes after the narrowing to
    uint32_t: a numeral that strtol can represent is accepted whenever its
    value modulo 2^32 is at most 255, and it is that residue that is
    stored. *)
Theorem octets_are_narrowed_before_the_range_test
    (kEndpointError : Z) (e : t) (s1 s2 s3 s4 rest : list ascii) :
  numeral s1 = true -> numeral s2 = true -> numeral s3 = true -> numeral s4 = true ->
  stops rest = true ->
  let v s := decimal_value s in
  let r s := to_uint32 (decimal_value s) in
  v s1 <= LONG_MAX -> v s2 <= LONG_MAX -> v s3 <= LONG_MAX -> v s4 <= LONG_MAX ->
  r s1 <= 255 -> r s2 <= 255 -> r s3 <= 255 -> r s4 <= 255 ->
  StringToIpv4 kEndpointError (dotted s1 s2 s3 s4 ++ rest) e
  = (Z.of_nat (length (dotted s1 s2 s3 s4)),
     mk (r s1 * 2 ^ 24 + r s2 * 2 ^ 16 + r s3 * 2 ^ 8 + r s4) (port_ e)).
Proof.
  intros N1 N2 N3 N4 Hrest v r L1 L2 L3 L4 R1 R2 R3 R4. unfold v, r in *.
  assert (forall s, decimal_value s <= LONG_MAX -> to_uint32 (decimal_value s) <= 255 ->
                    octet s = Some (to_uint32 (decimal_value s))) as Hoctet.
  { intros s HL HR. unfold octet.
    destruct (Z.gtb_spec (decimal_value s) LONG_MAX); [lia|].
    destruct (Z.gtb_spec (to_uint32 (decimal_value s)) 255); [lia | done]. }
  unfold StringToIpv4. rewrite (parse_components_dotted s1 s2 s3 s4 rest) by done.
  rewrite !Hoctet by done. simpl.
  rewrite pack_octets; [done | split; [apply to_uint32_nonneg | done]..].
Qed.

Lemma octets_are_narrowed_before_the_range_test_witness :
  StringToIpv4 65536 (cstr "4294967297.2.3.4") (mk 7 9) = (16, mk 16909060 9).
Proof.
  apply (octets_are_narrowed_before_the_range_test 65536 (mk 7 9)
           (cstr "4294967297") (cstr "2") (cstr "3") (cstr "4") []);
    try reflexivity; vm_compute; discriminate.
Defined.

End EndpointCodec.

(** ** Runs that returned *)

Module RunInversion.
Import MonadProps.
Section Inv.
Context {O : Type}.

Lemma this_inv p mth (w w' : World O) o :
  this p mth w = Done (o, w') -> w' = w /\ objs w !! p = Some o.
Proof. unfold this. destruct (objs w !! p); [|done]. by intros [= -> ->]. Qed.

Lemma update_inv p mth f (w w' : World O) u :
  update p mth f w = Done (u, w') ->
  exists o, objs w !! p = Some o /\
    w' = mkWorld (<[p := f o]> (objs w)) (cells w) (errno w) (script w) (log w)
                 (swap_buffer_size_ w).
Proof. unfold update. destruct (objs w !! p); [|done]. intros [= _ <-]. eauto. Qed.

Lemma syscall_inv c (w w' : World O) r :
  syscall c w = Done (r, w') ->
  exists rest, script w = r :: rest /\
    w' = mkWorld (objs w) (cells w) (ScriptVocabulary.errno_after (errno w) r) rest
                 (log w ++ [EvSys c r]) (swap_buffer_size_ w).
Proof.
  unfold syscall. destruct (script w) as [|a rest]; [done|]. intros [= <- <-]. eauto.
Qed.

Lemma mret_inv {A} (a b : A) (w w' : World O) :
  (mret a : M O A) w = Done (b, w') -> b = a /\ w' = w.
Proof. by intros [= -> ->]. Qed.

Lemma ret_inv {A} (a b : A) (w w' : World O) :
  ret a w = Done (b, w') -> b = a /\ w' = w.
Proof. by intros [= -> ->]. Qed.

Lemma get_errno_inv (w w' : World O) e :
  get_errno w = Done (e, w') -> e = errno w /\ w' = w.
Proof. by intros [= -> ->]. Qed.

Lemma get_swap_inv (w w' : World O) n :
  get_swap_buffer_size w = Done (n, w') -> n = swap_buffer_size_ w /\ w' = w.
Proof. by intros [= -> ->]. Qed.
End Inv.
Lemma sys_int_inv {O} c (w w' : World O) v :
  sys_int c w = Done (v, w') ->
  exists r rest, script w = r :: rest /\ ScriptVocabulary.int_result r = Some v /\
    w' = mkWorld (objs w) (cells w) (ScriptVocabulary.errno_after (errno w) r) rest
                 (log w ++ [EvSys c r]) (swap_buffer_size_ w).
Proof.
  unfold sys_int. intros (r & w1 & (rest & Hs & ->)%syscall_inv & H)%bind_inv.
  exists r, rest. destruct r; [| |done]; apply ret_inv in H as [-> ->]; done.
Qed.

Lemma VERIFY_inv {O} c (w w' : World O) u :
  VERIFY c w = Done (u, w') -> c = true /\ w' = w.
Proof. unfold VERIFY. destruct c; [|done]. by intros [= _ ->]. Qed.

End RunInversion.

(** ** Socket: the bytes moved by DoRead and DoWrite *)

Module SocketIO.
Import Socket SocketVocabulary SocketIOVocabulary MonadProps BufferProps SocketProps.

Lemma received_app l1 l2 : received (l1 ++ l2) = received l1 ++ received l2.
Proof. unfold received. by rewrite omap_app, concat_app. Qed.

(** One round of DoRead on a growable read buffer: whatever the kernel
    delivered is appended to the readable span and counted. *)
Lemma DoRead_step_data mth p read_sz (w w' : World t) s res :
  objs w !! p = Some s -> Buffer.wf (read_buffer_ s) ->
  Buffer.is_fixed_ (read_buffer_ s) = false ->
  DoRead_step mth p read_sz w = Done (res, w') ->
  exists s' ans,
    objs w' !! p = Some s' /\
    log w' = log w ++ [EvSys (SysReadv (fd_ s) (Buffer.writable_size (read_buffer_ s))
                                       (swap_buffer_size_ w)) ans] /\
    swap_buffer_size_ w' = swap_buffer_size_ w /\
    Buffer.is_fixed_ (read_buffer_ s') = false /\
    Buffer.wf (read_buffer_ s') /\
    write_buffer_ s' = write_buffer_ s /\
    Buffer.readable (read_buffer_ s')
    = Buffer.readable (read_buffer_ s) ++
      delivered (Buffer.writable_size (read_buffer_ s)) (swap_buffer_size_ w) ans /\
    (match res with inl n => n | inr (n, _) => n end)
    = read_sz + length (delivered (Buffer.writable_size (read_buffer_ s))
                                  (swap_buffer_size_ w) ans) /\
    match res with
    | inl _ => True
    | inr (_, st) => st <> NetError state_category.kSystem ENOBUFS \/ ans = Fails ENOBUFS
    end.
Proof.
  intros Hp Hwf Hfixed. unfold DoRead_step.
  rewrite (bind_Done _ _ _ _ _ (this_Done p mth w s Hp)).
  unfold get_swap_buffer_size at 1.
  unfold mbind at 1, M_bind at 1, bind at 1.
  unfold mbind at 1, M_bind at 1, bind at 1. unfold syscall at 1.
  destruct (script w) as [|ans rest] eqn:Hscript; [done|].
  set (w1 := mkWorld _ _ _ _ _ _).
  assert (objs w1 !! p = Some s) as Hp1 by done.
  destruct ans as [e|v|data]; [| done |].
  - (* readv failed: nothing is delivered *)
    rewrite (bind_Done _ _ _ _ _ (get_errno_Done w1)). change (errno w1) with e.
    destruct (is_EAGAIN e) eqn:Hagain.
    + rewrite (bind_Done _ _ _ _ _ (update_Done p mth _ w1 s Hp1)).
      intros [= <- <-]. exists (set_can_read false s), (Fails e).
      simpl. rewrite lookup_insert_eq, app_nil_r, Nat.add_0_r. split_and!; try done.
      by left.
    + destruct (e =? EINTR)%Z eqn:Hintr; intros [= <- <-];
        exists s, (Fails e); simpl; rewrite app_nil_r, Nat.add_0_r; split_and!; try done.
      unfold CheckPoint. destruct (Z.eq_dec e ENOBUFS) as [->|Hne]; [by right|].
      left. congruence.
  - (* readv delivered [data] *)
    remember (take (Buffer.writable_size (read_buffer_ s) + swap_buffer_size_ w) data)
      as d eqn:Hd.
    remember (Buffer.writable_size (read_buffer_ s)) as tail eqn:Htail.
    remember (swap_buffer_size_ w) as swap eqn:Hswap.
    destruct (Nat.eqb_spec (length d) 0) as [Hz|Hnz].
    + rewrite (bind_Done _ _ _ _ _ (update_Done p mth _ w1 s Hp1)).
      intros [= <- <-]. exists (set_eof true s), (Delivers data).
      simpl. rewrite lookup_insert_eq, <- Hd.
      apply nil_length_inv in Hz. rewrite Hz, app_nil_r. simpl. rewrite Nat.add_0_r.
      split_and!; try done. by left.
    + assert (length (take tail d) <= Buffer.writable_size (read_buffer_ s)) as Hroom
        by (rewrite length_take; lia).
      pose proof (wf_append _ _ Hwf Hroom) as Hwf1.
      pose proof (readable_append _ _ Hwf Hroom) as Hrd1.
      set (b1 := Buffer.commit_write (take tail d) (read_buffer_ s)) in *.
      fold (Buffer.commit_write (take tail d) (read_buffer_ s)) in Hwf1, Hrd1.
      fold b1 in Hwf1, Hrd1.
      set (s1 := set_read_buffer b1 s).
      set (w2 := mkWorld (<[p := s1]> (objs w1)) (cells w1) (errno w1) (script w1) (log w1)
                         (swap_buffer_size_ w1)).
      assert (update p mth (fun s0 => set_read_buffer
                (Buffer.commit_write (take tail d) (read_buffer_ s0)) s0) w1
              = Done (tt, w2)) as Hcommit
        by (by rewrite (update_Done p mth _ w1 s Hp1)).
      assert (objs w2 !! p = Some s1) as Hp2 by (simpl; apply lookup_insert_eq).
      destruct (Nat.leb_spec (length d) tail) as [Hfit|Hover].
      * (* everything fits the tail *)
        assert (take tail d = d) as Htake by (apply take_ge; lia).
        match goal with |- (?m ≫= _) _ = _ -> _ =>
          assert (m w1 = Done (true, w2)) as Hinner
            by (by rewrite (bind_Done _ _ _ _ _ Hcommit)) end.
        rewrite (bind_Done _ _ _ _ _ Hinner). unfold negb.
        destruct (Nat.ltb_spec (length d) (swap + tail)) as [Hshort|Hfull].
        -- rewrite (bind_Done _ _ _ _ _ (update_Done p mth _ w2 s1 Hp2)).
           intros [= <- <-]. exists (set_can_read false s1), (Delivers data).
           simpl. rewrite lookup_insert_eq, <- Hd, Hrd1, Htake.
           split_and!; try done. by left.
        -- intros [= <- <-]. exists s1, (Delivers data).
           simpl. rewrite lookup_insert_eq, <- Hd, Hrd1, Htake. by split_and!.
      * (* the overflow is injected from the swap buffer *)
        destruct (Inject_results (drop tail d) b1 Hwf1) as (Hfalse & Htrue).
        destruct (Buffer.Inject (drop tail d) b1) as [[ok b2]| | |] eqn:Hinj.
        2-4: (intros Habs; exfalso; revert Habs;
              unfold mbind at 1, M_bind at 1, bind at 1;
              rewrite (bind_Done _ _ _ _ _ Hcommit);
              rewrite (bind_Done _ _ _ _ _ (this_Done p mth w2 s1 Hp2));
              change (read_buffer_ s1) with b1; rewrite Hinj; done).
        destruct ok.
        2:{ destruct (Hfalse b2 eq_refl) as (_ & Hfx & _).
            unfold b1 in Hfx. simpl in Hfx. congruence. }
        destruct (Htrue b2 eq_refl) as (Hwf2 & Hrd2 & _ & Hfx2 & _).
        set (w3 := mkWorld (<[p := set_read_buffer b2 s1]> (objs w2)) (cells w2) (errno w2)
                           (script w2) (log w2) (swap_buffer_size_ w2)).
        assert (objs w3 !! p = Some (set_read_buffer b2 s1)) as Hp3
          by (simpl; apply lookup_insert_eq).
        match goal with |- (?m ≫= _) _ = _ -> _ =>
          assert (m w1 = Done (true, w3)) as Hinner end.
        { rewrite (bind_Done _ _ _ _ _ Hcommit).
          rewrite (bind_Done _ _ _ _ _ (this_Done p mth w2 s1 Hp2)).
          change (read_buffer_ s1) with b1. rewrite Hinj.
          by rewrite (bind_Done _ _ _ _ _ (update_Done p mth _ w2 s1 Hp2)). }
        rewrite (bind_Done _ _ _ _ _ Hinner). unfold negb.
        assert (Buffer.readable b2 = Buffer.readable (read_buffer_ s) ++ d) as Hall
          by (by rewrite Hrd2, Hrd1, <- app_assoc, take_drop).
        assert (Buffer.is_fixed_ b2 = false) as Hfx by (rewrite Hfx2; done).
        destruct (Nat.ltb_spec (length d) (swap + tail)) as [Hshort|Hfull].
        -- rewrite (bind_Done _ _ _ _ _ (update_Done p mth _ w3 _ Hp3)).
           intros [= <- <-].
           exists (set_can_read false (set_read_buffer b2 s1)), (Delivers data).
           simpl. rewrite lookup_insert_eq, <- Hd. split_and!; try done. by left.
        -- intros [= <- <-]. exists (set_read_buffer b2 s1), (Delivers data).
           simpl. rewrite lookup_insert_eq, <- Hd. by split_and!.
Qed.

Lemma DoRead_loop_data mth p (w' : World t) n st : forall fuel read_sz (w : World t) s,
  objs w !! p = Some s -> Buffer.wf (read_buffer_ s) ->
  Buffer.is_fixed_ (read_buffer_ s) = false ->
  DoRead_loop fuel mth p read_sz w = Done ((n, st), w') ->
  exists s' new,
    objs w' !! p = Some s' /\ log w' = log w ++ new /\
    Buffer.wf (read_buffer_ s') /\
    write_buffer_ s' = write_buffer_ s /\
    Buffer.readable (read_buffer_ s') = Buffer.readable (read_buffer_ s) ++ received new /\
    n = read_sz + length (received new) /\
    syscalls new <> [].
Proof.
  induction fuel as [|fuel IH]; intros read_sz w s Hp Hwf Hfixed; [done|].
  cbn [DoRead_loop]. intros Hrun.
  apply bind_inv in Hrun as (r & w1 & Hstep & Hrest).
  destruct (DoRead_step_data _ _ _ _ _ _ _ Hp Hwf Hfixed Hstep)
    as (s1 & ans & Hp1 & Hlog & Hswap & Hfx & Hwf1 & Hwb & Hrd & Hcount & _).
  assert (received [EvSys (SysReadv (fd_ s) (Buffer.writable_size (read_buffer_ s))
                                    (swap_buffer_size_ w)) ans]
          = delivered (Buffer.writable_size (read_buffer_ s)) (swap_buffer_size_ w) ans)
    as Hone by (unfold received; simpl; apply app_nil_r).
  destruct r as [read_sz'|[n' st']].
  - destruct (IH _ _ _ Hp1 Hwf1 Hfx Hrest)
      as (s' & new & Hp' & Hlog' & Hwf' & Hwb' & Hrd' & Hn & _).
    exists s', (EvSys (SysReadv (fd_ s) (Buffer.writable_size (read_buffer_ s))
                                (swap_buffer_size_ w)) ans :: new).
    split_and!; [done | | done | congruence | | | ].
    + rewrite Hlog', Hlog, <- app_assoc. done.
    + rewrite Hrd', Hrd, <- app_assoc. reflexivity.
    + change (?e :: new) with ([e] ++ new). rewrite received_app, Hone, length_app.
      simpl in Hcount. lia.
    + done.
  - injection Hrest as <- <- <-.
    exists s1, [EvSys (SysReadv (fd_ s) (Buffer.writable_size (read_buffer_ s))
                                (swap_buffer_size_ w)) ans].
    split_and!; [done | done | done | done | | | done].
    + by rewrite Hone.
    + rewrite Hone. done.
Qed.

(** X10.  DoRead appends what it counts.  On a growable read buffer, when DoRead
    returns, the read buffer holds what it held before followed by every byte
    the readv calls of this DoRead delivered, in order, and the size returned
    is the number of those bytes; the write buffer is untouched.  On a socket
    that has seen EOF no call is made and nothing is appended. *)
Theorem DoRead_appends_what_it_counts mth p (w w' : World t) s n st :
  objs w !! p = Some s -> Buffer.wf (read_buffer_ s) ->
  Buffer.is_fixed_ (read_buffer_ s) = false ->
  DoRead mth p w = Done ((n, st), w') ->
  exists s' new,
    objs w' !! p = Some s' /\ log w' = log w ++ new /\
    Buffer.wf (read_buffer_ s') /\
    write_buffer_ s' = write_buffer_ s /\
    Buffer.readable (read_buffer_ s') = Buffer.readable (read_buffer_ s) ++ received new /\
    n = length (received new) /\
    (eof_ s = true <-> syscalls new = []).
Proof.
  intros Hp Hwf Hfixed. unfold DoRead.
  rewrite (bind_Done _ _ _ _ _ (this_Done p mth w s Hp)).
  destruct (eof_ s) eqn:Heof.
  - intros [= <- <- <-]. exists s, []. rewrite !app_nil_r. by split_and!.
  - unfold get_fuel, mbind at 1, M_bind at 1, bind at 1. intros Hrun.
    destruct (DoRead_loop_data _ _ _ _ _ _ _ _ _ Hp Hwf Hfixed Hrun)
      as (s' & new & Hp' & Hlog & Hwf' & Hwb & Hrd & Hn & Hsys).
    exists s', new. split_and!; try done.
Qed.

Lemma DoRead_appends_what_it_counts_witness :
  exists w' s' new,
    DoRead MOnReadNotify 1
      (world_of ready_socket [Delivers [x01; x02; x03; x04; x05; x06]; Fails EINTR;
                              Delivers [x07]])
    = Done ((7, NetOK), w') /\
    objs w' !! 1 = Some s' /\ log w' = new /\
    Buffer.readable (read_buffer_ s') = received new /\
    received new = [x01; x02; x03; x04; x05; x06; x07].
Proof.
  assert (exists w', DoRead MOnReadNotify 1
            (world_of ready_socket [Delivers [x01; x02; x03; x04; x05; x06]; Fails EINTR;
                                    Delivers [x07]])
          = Done ((7, NetOK), w') /\
          received (log w') = [x01; x02; x03; x04; x05; x06; x07])
    as (w' & Hrun & Hrecv) by (eexists; vm_compute; split; reflexivity).
  assert (Buffer.wf (read_buffer_ ready_socket)) as Hwf
    by (unfold Buffer.wf; simpl; lia).
  destruct (DoRead_appends_what_it_counts MOnReadNotify 1
              (world_of ready_socket [Delivers [x01; x02; x03; x04; x05; x06]; Fails EINTR;
                                      Delivers [x07]])
              w' ready_socket 7 NetOK eq_refl Hwf eq_refl Hrun)
    as (s' & new & Hp & Hlog & _ & _ & Hrd & _).
  simpl in Hlog. subst new.
  exists w', s', (log w'). split_and!; [exact Hrun | exact Hp | reflexivity | | exact Hrecv].
  rewrite Hrd. reflexivity.
Defined.

(** X11.  The overflow of a fixed read buffer is lost and the tail is not counted.
    On a socket whose read buffer is fixed, when the first readv delivers
    more than the writable span holds, DoRead returns at once with the system
    error ENOBUFS and size 0: the bytes that fitted are in the read buffer
    all the same, the others are dropped, and [can_read] is not cleared. *)
Theorem DoRead_overflow_of_a_fixed_buffer mth p (w : World t) s data rest :
  objs w !! p = Some s -> eof_ s = false -> Buffer.wf (read_buffer_ s) ->
  Buffer.is_fixed_ (read_buffer_ s) = true ->
  script w = Delivers data :: rest ->
  let tail := Buffer.writable_size (read_buffer_ s) in
  let d := take (tail + swap_buffer_size_ w) data in
  tail < length d ->
  exists w' s',
    DoRead mth p w = Done ((0, NetError state_category.kSystem ENOBUFS), w') /\
    objs w' !! p = Some s' /\
    Buffer.readable (read_buffer_ s') = Buffer.readable (read_buffer_ s) ++ take tail d /\
    can_read_ s' = can_read_ s /\ eof_ s' = false /\ script w' = rest.
Proof.
  intros Hp Heof Hwf Hfixed Hscript tail d Hover.
  set (w1 := mkWorld (objs w) (cells w) (errno w) rest
                     (log w ++ [EvSys (SysReadv (fd_ s) tail (swap_buffer_size_ w))
                                      (Delivers data)])
                     (swap_buffer_size_ w)).
  assert (syscall (SysReadv (fd_ s) tail (swap_buffer_size_ w)) w
          = Done (Delivers data, w1)) as Hsys
    by (unfold syscall; by rewrite Hscript).
  assert (objs w1 !! p = Some s) as Hp1 by done.
  assert (length (take tail d) <= Buffer.writable_size (read_buffer_ s)) as Hroom
    by (rewrite length_take; fold tail; lia).
  pose proof (wf_append _ _ Hwf Hroom) as Hwf1.
  pose proof (readable_append _ _ Hwf Hroom) as Hrd1.
  set (b1 := Buffer.commit_write (take tail d) (read_buffer_ s)).
  fold (Buffer.commit_write (take tail d) (read_buffer_ s)) in Hwf1, Hrd1.
  fold b1 in Hwf1, Hrd1.
  set (s1 := set_read_buffer b1 s).
  set (w2 := mkWorld (<[p := s1]> (objs w1)) (cells w1) (errno w1) (script w1) (log w1)
                     (swap_buffer_size_ w1)).
  assert (update p mth (fun s0 => set_read_buffer
            (Buffer.commit_write (take tail d) (read_buffer_ s0)) s0) w1
          = Done (tt, w2)) as Hcommit
    by (by rewrite (update_Done p mth _ w1 s Hp1)).
  assert (objs w2 !! p = Some s1) as Hp2 by (simpl; apply lookup_insert_eq).
  assert (Buffer.Inject (drop tail d) b1 = Done (false, b1)) as Hinj.
  { rewrite Inject_cases.
    assert (Buffer.writable_size b1 < length (drop tail d)) as Hfull.
    { unfold b1, Buffer.commit_write, Buffer.append, Buffer.writable_size. simpl.
      rewrite length_take, length_drop. unfold tail, Buffer.writable_size in *.
      destruct Hwf as (? & ? & ?). lia. }
    destruct (Nat.ltb_spec (Buffer.writable_size b1) (length (drop tail d))); [|lia].
    unfold b1, Buffer.commit_write, Buffer.append. simpl. by rewrite Hfixed. }
  set (w3 := mkWorld (<[p := set_read_buffer b1 s1]> (objs w2)) (cells w2) (errno w2)
                     (script w2) (log w2) (swap_buffer_size_ w2)).
  assert (DoRead_step mth p 0 w
          = Done (inr (0, NetError state_category.kSystem ENOBUFS), w3)) as Hstep.
  { unfold DoRead_step.
    rewrite (bind_Done _ _ _ _ _ (this_Done p mth w s Hp)).
    unfold get_swap_buffer_size at 1.
    unfold mbind at 1, M_bind at 1, bind at 1.
    fold tail. rewrite (bind_Done _ _ _ _ _ Hsys).
    cbv zeta. fold d.
    destruct (Nat.eqb_spec (length d) 0) as [|_]; [lia|].
    destruct (Nat.leb_spec (length d) tail) as [|_]; [lia|].
    match goal with |- (?m ≫= _) _ = _ =>
      assert (m w1 = Done (false, w3)) as Hinner end.
    { rewrite (bind_Done _ _ _ _ _ Hcommit).
      rewrite (bind_Done _ _ _ _ _ (this_Done p mth w2 s1 Hp2)).
      change (read_buffer_ s1) with b1. rewrite Hinj.
      by rewrite (bind_Done _ _ _ _ _ (update_Done p mth _ w2 s1 Hp2)). }
    by rewrite (bind_Done _ _ _ _ _ Hinner). }
  exists w3, (set_read_buffer b1 s1). split.
  - unfold DoRead. rewrite (bind_Done _ _ _ _ _ (this_Done p mth w s Hp)), Heof.
    unfold get_fuel, mbind at 1, M_bind at 1, bind at 1.
    cbn [DoRead_loop]. by rewrite (bind_Done _ _ _ _ _ Hstep).
  - simpl. rewrite lookup_insert_eq. by split_and!.
Qed.

Lemma DoRead_overflow_of_a_fixed_buffer_witness :
  exists w' s',
    DoRead MOnReadNotify 1
      (world_of (set_read_buffer (Buffer.mk [x00; x00] 0 0 2 true) ready_socket)
                [Delivers [x61; x62; x63]])
    = Done ((0, NetError state_category.kSystem ENOBUFS), w') /\
    objs w' !! 1 = Some s' /\
    Buffer.readable (read_buffer_ s') = [x61; x62].
Proof.
  assert (Buffer.wf (Buffer.mk [x00; x00] 0 0 2 true)) as Hwf
    by (unfold Buffer.wf; simpl; lia).
  destruct (DoRead_overflow_of_a_fixed_buffer MOnReadNotify 1
              (world_of (set_read_buffer (Buffer.mk [x00; x00] 0 0 2 true) ready_socket)
                        [Delivers [x61; x62; x63]])
              (set_read_buffer (Buffer.mk [x00; x00] 0 0 2 true) ready_socket)
              [x61; x62; x63] [] eq_refl eq_refl Hwf eq_refl eq_refl)
    as (w' & s' & Hrun & Hp & Hrd & _).
  - vm_compute. lia.
  - exists w', s'. split; [exact Hrun|]. split; [exact Hp | exact Hrd].
Defined.

(** *** DoWrite *)

Lemma commit_read_spec (n : nat) (b : Buffer.t) :
  Buffer.wf b -> n <= Buffer.readable_size b ->
  Buffer.wf (Buffer.commit_read n b) /\
  Buffer.readable (Buffer.commit_read n b) = drop n (Buffer.readable b).
Proof.
  intros Hwf Hn. pose proof (Read_returns n b Hwf) as H.
  unfold Buffer.Read in H. rewrite Nat.min_l in H by done.
  destruct H as (_ & _ & Hwf' & _ & Hrd). done.
Qed.

Lemma same_socket (s : t) :
  set_write_buffer (write_buffer_ s) (set_can_write (can_write_ s) s) = s.
Proof. by destruct s. Qed.

Lemma DoWrite_step_data mth p (w w' : World t) s res :
  objs w !! p = Some s -> Buffer.wf (write_buffer_ s) ->
  0 < Buffer.readable_size (write_buffer_ s) ->
  DoWrite_step mth p w = Done (res, w') ->
  exists cw wb,
    objs w' !! p = Some (set_write_buffer wb (set_can_write cw s)) /\
    match res with
    | None => wb = write_buffer_ s /\ cw = can_write_ s
    | Some (n, st) => DoWrite_post s cw wb n st
    end.
Proof.
  intros Hp Hwf Hpos. unfold DoWrite_step.
  rewrite (bind_Done _ _ _ _ _ (this_Done p mth w s Hp)).
  unfold sys_int, syscall.
  unfold mbind at 1, M_bind at 1, bind at 1.
  unfold mbind at 1, M_bind at 1, bind at 1.
  destruct (script w) as [|ans rest] eqn:Hscript; [done|].
  set (w1 := mkWorld _ _ _ _ _ _).
  assert (objs w1 !! p = Some s) as Hp1 by done.
  assert (forall e (w2 : World t), objs w2 !! p = Some s ->
            (if is_EAGAIN e
             then update p mth (set_can_write false);; mret (Some (0, NetOK))
             else if (e =? EINTR)%Z then mret None
                  else mret (Some (prev_write_size_ s, CheckPoint state_category.kSystem e)))
              w2 = Done (res, w') ->
            exists cw wb,
              objs w' !! p = Some (set_write_buffer wb (set_can_write cw s)) /\
              match res with
              | None => wb = write_buffer_ s /\ cw = can_write_ s
              | Some (n, st) => DoWrite_post s cw wb n st
              end) as Hfail.
  { intros e w2 Hp2. destruct (is_EAGAIN e) eqn:Hagain.
    - rewrite (bind_Done _ _ _ _ _ (update_Done p mth _ w2 s Hp2)).
      intros [= <- <-]. exists false, (write_buffer_ s).
      simpl. rewrite lookup_insert_eq. split; [by destruct s|].
      split_and!; [lia | done | by rewrite drop_0 | done | lia].
    - destruct (Z.eqb_spec e EINTR) as [->|Hne]; intros [= <- <-];
        exists (can_write_ s), (write_buffer_ s); rewrite same_socket;
        (split; [done|]); [done|].
      unfold DoWrite_post, CheckPoint. by split_and!. }
  destruct ans as [e|v|data]; [| |done]; unfold ret at 1.
  - change (-1 <=? 0)%Z with true. cbv iota.
    unfold get_errno, mbind at 1, M_bind at 1, bind at 1.
    by apply Hfail.
  - destruct (Z.leb_spec v 0) as [Hle|Hv].
    + unfold get_errno, mbind at 1, M_bind at 1, bind at 1. by apply Hfail.
    + set (size := Buffer.readable_size (write_buffer_ s)) in *.
      set (sz := Nat.min (Z.to_nat v) size).
      assert (sz <= size) as Hsz by (unfold sz; lia).
      assert (0 < sz) as Hszpos by (unfold sz; lia).
      destruct (commit_read_spec sz (write_buffer_ s) Hwf Hsz) as [Hwf' Hrd'].
      destruct (Nat.ltb_spec sz size) as [Hshort|Hall].
      * rewrite (bind_Done _ _ _ _ _ (update_Done p mth _ w1 s Hp1)).
        set (w2 := mkWorld _ _ _ _ _ _).
        assert (objs w2 !! p = Some (set_can_write false s)) as Hp2
          by (simpl; apply lookup_insert_eq).
        rewrite (bind_Done _ _ _ _ _ (update_Done p mth _ w2 _ Hp2)).
        intros [= <- <-]. eexists false, _. simpl. rewrite lookup_insert_eq.
        split; [by f_equal|]. split_and!; [done | done | done | done | lia].
      * unfold mbind at 1, M_bind at 1, bind at 1.
        unfold mret at 1, M_ret at 1, ret at 1.
        rewrite (bind_Done _ _ _ _ _ (update_Done p mth _ w1 s Hp1)).
        intros [= <- <-]. eexists (can_write_ s), _. simpl. rewrite lookup_insert_eq.
        split; [by f_equal|]. split_and!; [done | done | done | lia | done].
Qed.

Lemma DoWrite_loop_data mth p (w' : World t) n st : forall fuel (w : World t) s,
  objs w !! p = Some s -> Buffer.wf (write_buffer_ s) ->
  0 < Buffer.readable_size (write_buffer_ s) ->
  DoWrite_loop fuel mth p w = Done ((n, st), w') ->
  exists cw wb,
    objs w' !! p = Some (set_write_buffer wb (set_can_write cw s)) /\
    DoWrite_post s cw wb n st.
Proof.
  induction fuel as [|fuel IH]; intros w s Hp Hwf Hpos; [done|].
  simpl DoWrite_loop. intros Hrun.
  apply bind_inv in Hrun as (r & w1 & Hstep & Hrest).
  destruct (DoWrite_step_data _ _ _ _ _ _ Hp Hwf Hpos Hstep) as (cw & wb & Hp1 & Hres).
  destruct r as [[n' st']|].
  - injection Hrest as <- <- <-. eauto.
  - destruct Hres as [-> ->]. rewrite same_socket in Hp1. eauto.
Qed.

(** X12.  DoWrite drains what it reports.  When DoWrite returns with an OK state,
    the size returned is at most what was queued, exactly that many bytes
    have left the front of the write buffer, and [can_write] is cleared
    whenever bytes remain queued.  When it returns with an error state, the
    error is a system error other than EAGAIN and EINTR, nothing was
    consumed, and the size returned is [prev_write_size_].  Nothing but
    [can_write] and the write buffer changes. *)
Theorem DoWrite_drains_what_it_reports mth p (w w' : World t) s n st :
  objs w !! p = Some s -> Buffer.wf (write_buffer_ s) ->
  DoWrite mth p w = Done ((n, st), w') ->
  exists cw wb,
    objs w' !! p = Some (set_write_buffer wb (set_can_write cw s)) /\
    let size := Buffer.readable_size (write_buffer_ s) in
    match st with
    | NetOK =>
        n <= size /\ Buffer.wf wb /\
        Buffer.readable wb = drop n (Buffer.readable (write_buffer_ s)) /\
        (n < size -> cw = false) /\ (n = size -> cw = can_write_ s)
    | NetError c e =>
        c = state_category.kSystem /\ n = prev_write_size_ s /\
        wb = write_buffer_ s /\ cw = can_write_ s /\
        is_EAGAIN e = false /\ e <> EINTR
    end.
Proof.
  intros Hp Hwf. unfold DoWrite.
  rewrite (bind_Done _ _ _ _ _ (this_Done p mth w s Hp)).
  unfold assert. destruct (Nat.ltb_spec 0 (Buffer.readable_size (write_buffer_ s)));
    [|done].
  unfold mbind at 1, M_bind at 1, bind at 1. unfold ret at 1.
  unfold get_fuel, mbind at 1, M_bind at 1, bind at 1.
  intros Hrun. by eapply DoWrite_loop_data.
Qed.

Lemma DoWrite_drains_what_it_reports_witness :
  exists w' wb,
    DoWrite MOnWriteNotify 1 (world_of queued_socket [Fails EINTR; Returns 1])
    = Done ((1, NetOK), w') /\
    objs w' !! 1 = Some (set_write_buffer wb (set_can_write false queued_socket)) /\
    Buffer.readable wb = [x69].
Proof.
  assert (exists w', DoWrite MOnWriteNotify 1
                       (world_of queued_socket [Fails EINTR; Returns 1])
                     = Done ((1, NetOK), w')) as [w' Hrun]
    by (eexists; vm_compute; reflexivity).
  assert (Buffer.wf (write_buffer_ queued_socket)) as Hwf
    by (unfold Buffer.wf; simpl; lia).
  destruct (DoWrite_drains_what_it_reports MOnWriteNotify 1
              (world_of queued_socket [Fails EINTR; Returns 1]) w' queued_socket 1 NetOK
              eq_refl Hwf Hrun) as (cw & wb & Hp & Hpost).
  cbv zeta in Hpost. destruct Hpost as (_ & _ & Hrd & Hcw & _).
  rewrite (Hcw ltac:(unfold queued_socket, Buffer.readable_size; simpl; lia)) in Hp.
  exists w', wb. split; [exact Hrun|]. split; [exact Hp | exact Hrd].
Defined.
End SocketIO.

(** ** Socket: the notification entry points *)

Module SocketNotify.
Import Socket SocketVocabulary SocketNotifyVocabulary MonadProps RunInversion.

Lemma DoRead_keeps_refl s : DoRead_keeps s s.
Proof. by repeat split. Qed.

Lemma DoRead_step_frame mth p read_sz (w w' : World t) s res :
  objs w !! p = Some s ->
  DoRead_step mth p read_sz w = Done (res, w') ->
  exists s', objs w' !! p = Some s' /\ DoRead_keeps s s' /\
    invocations (log w') = invocations (log w) /\ cells w' = cells w /\
    (forall q, q <> p -> objs w' !! q = objs w !! q).
Proof.
  intros Hp. unfold DoRead_step. intros H.
  apply bind_inv in H as (s0 & w0 & [-> Hs0]%this_inv & H).
  assert (s0 = s) as -> by congruence.
  apply bind_inv in H as (swap & w0 & [-> ->]%get_swap_inv & H).
  apply bind_inv in H as (r & w1 & (rest & Hscript & ->)%syscall_inv & H).
  set (w1 := mkWorld _ _ _ _ _ _) in H.
  assert (objs w1 !! p = Some s) as Hp1 by done.
  assert (invocations (log w1) = invocations (log w)) as Hlog1
    by (unfold w1; simpl; rewrite SocketProps.invocations_app; simpl; apply app_nil_r).
  assert (cells w1 = cells w) as Hcells1 by done.
  assert (objs w1 = objs w) as Hobjs1 by done.
  assert (forall f (w2 w3 : World t) s2 u,
            objs w2 !! p = Some s2 -> update p mth f w2 = Done (u, w3) ->
            objs w3 !! p = Some (f s2) /\ log w3 = log w2 /\ cells w3 = cells w2 /\
            (forall q, q <> p -> objs w3 !! q = objs w2 !! q)) as Hupd.
  { intros f w2 w3 s2 u Hp2 (o & Ho & ->)%update_inv. simpl.
    assert (o = s2) as -> by congruence.
    rewrite lookup_insert_eq. split_and!; try done.
    intros q Hq. by rewrite lookup_insert_ne. }
  destruct r as [e|v|data]; [| done |].
  - apply bind_inv in H as (e' & w2 & [-> ->]%get_errno_inv & H).
    destruct (is_EAGAIN _).
    + apply bind_inv in H as (u & w2 & Hu & [_ ->]%mret_inv).
      destruct (Hupd _ _ _ _ _ Hp1 Hu) as (Hp2 & Hl & Hc & Hq).
      exists (set_can_read false s). split_and!; [done | done | congruence | done | done].
    + destruct (_ =? EINTR)%Z; apply mret_inv in H as [_ ->];
        exists s; split_and!; try done.
  - cbv zeta in H.
    destruct (_ =? 0).
    + apply bind_inv in H as (u & w2 & Hu & [_ ->]%mret_inv).
      destruct (Hupd _ _ _ _ _ Hp1 Hu) as (Hp2 & Hl & Hc & Hq).
      exists (set_eof true s). split_and!; [done | done | congruence | done | done].
    + apply bind_inv in H as (injected & w2 & Hinj & H).
      assert (exists s2, objs w2 !! p = Some s2 /\ DoRead_keeps s s2 /\
                log w2 = log w1 /\ cells w2 = cells w1 /\
                (forall q, q <> p -> objs w2 !! q = objs w1 !! q))
        as (s2 & Hp2 & Hk2 & Hl2 & Hc2 & Hq2).
      { destruct (_ <=? _).
        - apply bind_inv in Hinj as (u & w3 & Hu & [_ ->]%mret_inv).
          destruct (Hupd _ _ _ _ _ Hp1 Hu) as (Hp3 & Hl & Hc & Hq).
          eexists. split_and!; [done | done | done | done | done].
        - apply bind_inv in Hinj as (u & w3 & Hu & Hinj).
          destruct (Hupd _ _ _ _ _ Hp1 Hu) as (Hp3 & Hl & Hc & Hq).
          apply bind_inv in Hinj as (s3 & w4 & [-> Hs3]%this_inv & Hinj).
          destruct (Buffer.Inject _ _) as [[ok b]| | |]; try done.
          apply bind_inv in Hinj as (u' & w5 & Hu' & [_ ->]%mret_inv).
          destruct (Hupd _ _ _ _ _ Hs3 Hu') as (Hp5 & Hl5 & Hc5 & Hq5).
          eexists. split; [done|]. split_and!.
          + assert (s3 = set_read_buffer
                      (Buffer.commit_write
                         (take (Buffer.writable_size (read_buffer_ s))
                            (take (Buffer.writable_size (read_buffer_ s) + swap_buffer_size_ w) data))
                         (read_buffer_ s)) s) as -> by congruence.
            done.
          + congruence.
          + congruence.
          + intros q Hq'. rewrite Hq5, Hq by done. done. }
      destruct (negb injected).
      * apply mret_inv in H as [_ ->]. exists s2.
        split_and!; [done | done | congruence | done | done].
      * cbv zeta in H. destruct (_ <? _).
        -- apply bind_inv in H as (u & w3 & Hu & [_ ->]%mret_inv).
           destruct (Hupd _ _ _ _ _ Hp2 Hu) as (Hp3 & Hl & Hc & Hq).
           exists (set_can_read false s2).
           split_and!; [done | done | congruence | congruence |].
           intros q Hq'. rewrite Hq, Hq2 by done. done.
        -- apply mret_inv in H as [_ ->]. exists s2.
           split_and!; [done | done | congruence | done | done].
Qed.

Lemma DoRead_keeps_trans s1 s2 s3 : DoRead_keeps s1 s2 -> DoRead_keeps s2 s3 -> DoRead_keeps s1 s3.
Proof. unfold DoRead_keeps. intuition congruence. Qed.

Lemma DoRead_loop_frame mth p (w' : World t) res : forall fuel read_sz (w : World t) s,
  objs w !! p = Some s ->
  DoRead_loop fuel mth p read_sz w = Done (res, w') ->
  exists s', objs w' !! p = Some s' /\ DoRead_keeps s s' /\
    invocations (log w') = invocations (log w) /\ cells w' = cells w /\
    (forall q, q <> p -> objs w' !! q = objs w !! q).
Proof.
  induction fuel as [|fuel IH]; intros read_sz w s Hp; [done|].
  simpl DoRead_loop. intros Hrun.
  apply bind_inv in Hrun as (r & w1 & Hstep & Hrest).
  destruct (DoRead_step_frame _ _ _ _ _ _ _ Hp Hstep) as (s1 & Hp1 & Hk1 & Hl1 & Hc1 & Hq1).
  destruct r as [read_sz'|res'].
  - destruct (IH _ _ _ Hp1 Hrest) as (s' & Hp' & Hk' & Hl' & Hc' & Hq').
    exists s'. split_and!; [done | by eapply DoRead_keeps_trans | congruence | congruence |].
    intros q Hq. rewrite Hq', Hq1 by done. done.
  - apply mret_inv in Hrest as [_ ->]. eauto 10.
Qed.

(** DoRead writes [can_read], [eof] and the read buffer only; it runs no
    handler and destroys nothing. *)
Lemma DoRead_frame mth p (w w' : World t) s res :
  objs w !! p = Some s ->
  DoRead mth p w = Done (res, w') ->
  exists s', objs w' !! p = Some s' /\ DoRead_keeps s s' /\
    invocations (log w') = invocations (log w) /\ cells w' = cells w /\
    (forall q, q <> p -> objs w' !! q = objs w !! q).
Proof.
  intros Hp. unfold DoRead.
  rewrite (bind_Done _ _ _ _ _ (this_Done p mth w s Hp)).
  destruct (eof_ s).
  - intros [_ ->]%mret_inv. exists s. by split_and!.
  - unfold get_fuel, mbind at 1, M_bind at 1, bind at 1.
    by apply DoRead_loop_frame.
Qed.

Section WithHandlers.
Variable handler : cb_id -> CbArgs -> t -> option t.

Lemma enter_for_read {B} p (w : World t) s (k : unit -> M t B) :
  objs w !! p = Some s ->
  (enter p MOnReadNotify ≫= fun _ => update p MOnReadNotify (set_can_read true) ≫= k) w
  = k tt (entered_for_read p s w).
Proof.
  intros Hp. unfold enter, mbind at 1, M_bind at 1, bind at 1. rewrite Hp.
  set (w0 := mkWorld _ _ _ _ _ _).
  assert (objs w0 !! p = Some s) as Hp0 by done.
  by rewrite (bind_Done _ _ _ _ _ (update_Done p _ _ w0 s Hp0)).
Qed.

(** OnReadNotify on a socket that is not closing and has a read handler. *)
Lemma OnReadNotify_run p (w w1 : World t) s cb read_sz st :
  objs w !! p = Some s -> user_read_callback_ s = Some cb -> state_ s <> CLOSING ->
  DoRead MOnReadNotify p (entered_for_read p s w) = Done ((read_sz, st), w1) ->
  exists s1 w',
    objs w1 !! p = Some s1 /\ DoRead_keeps s s1 /\
    OnReadNotify handler p w = Done (tt, w') /\
    objs w' !! p = handler cb (ReadArgs read_sz st) (Release ReadSlot s1) /\
    log w' = log w1 ++ EvInvoke p cb (ReadArgs read_sz st) ::
               (match handler cb (ReadArgs read_sz st) (Release ReadSlot s1) with
                | Some _ => []
                | None => [EvDestroy p]
                end) /\
    invocations (log w1) = invocations (log w) /\
    cells w' = (match handler cb (ReadArgs read_sz st) (Release ReadSlot s1), notify_flag_ s with
                | None, Some c => <[c := true]> (cells w)
                | _, _ => cells w
                end) /\
    script w' = script w1 /\
    (forall q, q <> p -> objs w' !! q = objs w !! q).
Proof.
  intros Hp Hcb Hstate Hrun. unfold OnReadNotify. cbv zeta.
  rewrite (enter_for_read p w s _ Hp).
  set (w0 := entered_for_read p s w) in *.
  assert (objs w0 !! p = Some (set_can_read true s)) as Hp0
    by (simpl; apply lookup_insert_eq).
  rewrite (bind_Done _ _ _ _ _ (this_Done p _ w0 _ Hp0)).
  change (user_read_callback_ (set_can_read true s)) with (user_read_callback_ s).
  rewrite Hcb. rewrite bool_decide_eq_true_2 by done. unfold negb at 1.
  rewrite (bind_Done _ _ _ _ _ Hrun).
  destruct (DoRead_frame _ _ _ _ _ _ Hp0 Hrun) as (s1 & Hp1 & Hk & Hl & Hc & Hq).
  assert (DoRead_keeps s s1) as Hk' by exact Hk.
  destruct Hk as (_ & _ & Hnf & _ & _ & Hst & Hrd & _).
  change (state_ (set_can_read true s)) with (state_ s) in Hst.
  change (user_read_callback_ (set_can_read true s)) with (user_read_callback_ s) in Hrd.
  change (notify_flag_ (set_can_read true s)) with (notify_flag_ s) in Hnf.
  rewrite (bind_Done _ _ _ _ _ (this_Done p _ w1 _ Hp1)).
  assert (State_eqb (state_ s1) CLOSING = false) as ->
    by (rewrite Hst; by destruct (state_ s)).
  unfold negb.
  destruct (SocketProps.DO_INVOKE_armed handler MOnReadNotify p ReadSlot
              (ReadArgs read_sz st) w1 s1 cb Hp1) as (w' & Hinv & Hobj & Hlog & Hcells & Hscr & _ & Hoth).
  { simpl. congruence. }
  exists s1, w'. split_and!; try done.
  - rewrite Hl. unfold w0, entered_for_read. simpl.
    rewrite SocketProps.invocations_app. simpl. apply app_nil_r.
  - rewrite Hcells, Hnf, Hc. done.
  - intros q Hq'. rewrite Hoth, Hq by done. unfold w0; simpl. by rewrite lookup_insert_ne.
Qed.

(** X13.  OnReadNotify reports what DoRead returned.  On a socket that is not
    closing and has a read handler, the handler fires exactly once, with the
    size and the state DoRead returned, on the socket as DoRead left it with
    the read slot emptied; the socket afterwards is what the handler leaves
    (nothing, if the handler destroyed it). *)
Theorem OnReadNotify_reports p (w w1 : World t) s cb read_sz st :
  objs w !! p = Some s -> user_read_callback_ s = Some cb -> state_ s <> CLOSING ->
  DoRead MOnReadNotify p (entered_for_read p s w) = Done ((read_sz, st), w1) ->
  exists s1 w',
    objs w1 !! p = Some s1 /\
    OnReadNotify handler p w = Done (tt, w') /\
    invocations (log w') = invocations (log w) ++ [(p, cb, ReadArgs read_sz st)] /\
    objs w' !! p = handler cb (ReadArgs read_sz st) (Release ReadSlot s1).
Proof.
  intros Hp Hcb Hstate Hrun.
  destruct (OnReadNotify_run p w w1 s cb read_sz st Hp Hcb Hstate Hrun)
    as (s1 & w' & Hp1 & _ & Hret & Hobj & Hlog & Hinv & _).
  exists s1, w'. split_and!; try done.
  rewrite Hlog, SocketProps.invocations_app, Hinv. f_equal.
  simpl. by destruct (handler _ _ _).
Qed.

(** X14.  Without a read handler OnReadNotify leaves the data in the kernel: it
    marks the socket readable and does nothing else, no system call and no
    handler. *)
Theorem OnReadNotify_without_handler_reads_nothing p (w : World t) s :
  objs w !! p = Some s -> user_read_callback_ s = None ->
  exists w',
    OnReadNotify handler p w = Done (tt, w') /\
    objs w' !! p = Some (set_can_read true s) /\
    script w' = script w /\ log w' = log w ++ [EvEnter p MOnReadNotify] /\
    errno w' = errno w /\ cells w' = cells w.
Proof.
  intros Hp Hcb. unfold OnReadNotify. cbv zeta.
  rewrite (enter_for_read p w s _ Hp).
  set (w0 := entered_for_read p s w) in *.
  assert (objs w0 !! p = Some (set_can_read true s)) as Hp0
    by (simpl; apply lookup_insert_eq).
  rewrite (bind_Done _ _ _ _ _ (this_Done p _ w0 _ Hp0)).
  change (user_read_callback_ (set_can_read true s)) with (user_read_callback_ s).
  rewrite Hcb. rewrite bool_decide_eq_false_2 by (by intros [? ?]).
  exists w0. by split_and!.
Qed.

(** X15.  With nothing queued OnWriteNotify writes nothing: it marks the socket
    writable and does nothing else, no system call and no handler, even when
    a write handler is armed. *)
Theorem OnWriteNotify_with_nothing_queued_writes_nothing p (w : World t) s :
  objs w !! p = Some s -> Buffer.readable_size (write_buffer_ s) = 0 ->
  exists w',
    OnWriteNotify handler p w = Done (tt, w') /\
    objs w' !! p = Some (set_can_write true s) /\
    script w' = script w /\ log w' = log w ++ [EvEnter p MOnWriteNotify] /\
    errno w' = errno w /\ cells w' = cells w.
Proof.
  intros Hp Hempty. unfold OnWriteNotify. cbv zeta.
  unfold enter, mbind at 1, M_bind at 1, bind at 1. rewrite Hp.
  set (w0 := mkWorld _ _ _ _ _ _).
  assert (objs w0 !! p = Some s) as Hp0 by done.
  rewrite (bind_Done _ _ _ _ _ (update_Done p _ _ w0 s Hp0)).
  set (w1 := mkWorld _ _ _ _ _ _).
  assert (objs w1 !! p = Some (set_can_write true s)) as Hp1
    by (simpl; apply lookup_insert_eq).
  rewrite (bind_Done _ _ _ _ _ (this_Done p _ w1 _ Hp1)).
  change (write_buffer_ (set_can_write true s)) with (write_buffer_ s).
  rewrite Hempty. exists w1. by split_and!.
Qed.

(** [cb->Invoke(...)] on a live socket. *)
Lemma Invoke_run mth p cb args (w : World t) s :
  objs w !! p = Some s ->
  exists w',
    Invoke handler mth p cb args w = Done (tt, w') /\
    objs w' !! p = handler cb args s /\
    log w' = log w ++ EvInvoke p cb args ::
               (match handler cb args s with
                | Some _ => []
                | None => [EvDestroy p]
                end) /\
    cells w' = (match handler cb args s, notify_flag_ s with
                | None, Some c => <[c := true]> (cells w)
                | _, _ => cells w
                end) /\
    script w' = script w.
Proof.
  intros Hp. unfold Invoke. rewrite (bind_Done _ _ _ _ _ (this_Done p mth w _ Hp)).
  unfold emit, mbind at 1, M_bind at 1, bind at 1.
  set (w2 := mkWorld _ _ _ _ _ _).
  assert (objs w2 !! p = Some s) as Hp2 by done.
  destruct (handler cb args s) as [s'|] eqn:Hh.
  - rewrite (update_Done p mth _ w2 _ Hp2). eexists. split; [done|]. simpl.
    rewrite lookup_insert_eq. by split_and!.
  - unfold destroy. rewrite Hp2. eexists. split; [done|]. simpl.
    rewrite lookup_delete_eq. split_and!; try done.
    by rewrite <- app_assoc.
Qed.

(** X16.  Data that arrives during an asynchronous close goes to the close
    handler.  On a closing socket whose DoRead returned OK: if bytes were
    read, the close handler is told their number (InvokeData), once, and no
    slot is emptied, so the read and the close handler both stay armed; if
    nothing was read and end of file has not been seen, nothing happens.  In
    neither case is the descriptor closed. *)
Theorem OnReadNotify_hands_late_data_to_the_close_handler
    p (w w1 : World t) s s1 rd cb read_sz :
  objs w !! p = Some s -> user_read_callback_ s = Some rd ->
  state_ s = CLOSING -> user_close_callback_ s = Some cb ->
  DoRead MOnReadNotify p (entered_for_read p s w) = Done ((read_sz, NetOK), w1) ->
  objs w1 !! p = Some s1 ->
  0 < read_sz \/ eof_ s1 = false ->
  exists w',
    OnReadNotify handler p w = Done (tt, w') /\
    script w' = script w1 /\
    if 0 <? read_sz then
      invocations (log w') = invocations (log w) ++ [(p, cb, CloseData read_sz)] /\
      objs w' !! p = handler cb (CloseData read_sz) s1 /\
      user_read_callback_ s1 = Some rd /\ user_close_callback_ s1 = Some cb
    else w' = w1.
Proof.
  intros Hp Hrd Hstate Hcb Hrun Hp1 Hcase.
  set (w0 := entered_for_read p s w) in *.
  assert (objs w0 !! p = Some (set_can_read true s)) as Hp0
    by (simpl; apply lookup_insert_eq).
  destruct (DoRead_frame _ _ _ _ _ _ Hp0 Hrun) as (s1' & Hp1' & Hk & Hl & Hc & _).
  assert (s1' = s1) as -> by congruence. clear Hp1'.
  destruct Hk as (_ & _ & _ & _ & _ & Hst1 & Hrd1 & _ & Hcb1).
  change (state_ (set_can_read true s)) with (state_ s) in Hst1.
  change (user_read_callback_ (set_can_read true s)) with (user_read_callback_ s) in Hrd1.
  change (user_close_callback_ (set_can_read true s)) with (user_close_callback_ s) in Hcb1.
  unfold OnReadNotify. cbv zeta. rewrite (enter_for_read p w s _ Hp). fold w0.
  rewrite (bind_Done _ _ _ _ _ (this_Done p _ w0 _ Hp0)).
  change (user_read_callback_ (set_can_read true s)) with (user_read_callback_ s).
  rewrite Hrd, bool_decide_eq_true_2 by done. unfold negb at 1.
  rewrite (bind_Done _ _ _ _ _ Hrun).
  rewrite (bind_Done _ _ _ _ _ (this_Done p _ w1 _ Hp1)).
  rewrite Hst1, Hstate. change (negb (State_eqb CLOSING CLOSING)) with false. cbv iota.
  change (NetState_bool NetOK) with true. cbv iota.
  rewrite Hcb1, Hcb.
  destruct (Nat.ltb_spec 0 read_sz) as [Hpos|Hzero].
  - destruct (Invoke_run MOnReadNotify p cb (CloseData read_sz) w1 _ Hp1)
      as (w' & Hinvoke & Hobj & Hlog & _ & Hscr).
    exists w'. split_and!; try done; try congruence.
    rewrite Hlog, SocketProps.invocations_app, Hl. unfold w0, entered_for_read. simpl.
    rewrite SocketProps.invocations_app. simpl. rewrite app_nil_r. f_equal.
    by destruct (handler _ _ _).
  - destruct Hcase as [?|Heof]; [lia|]. rewrite Heof. exists w1. by split_and!.
Qed.

(** X17.  The end of an asynchronous close.  On a closing socket whose DoRead
    returned an error, or nothing at end of file, OnReadNotify installs a
    flag of its own and tells the close handler, once: InvokeClose with the
    error, or with OK at end of file, in which case the close slot is emptied
    first.  If the handler destroyed the socket, nothing else happens; if
    not, the descriptor is closed and the socket is CLOSED with descriptor
    -1. *)
Theorem OnReadNotify_completes_an_asynchronous_close
    p (w w1 : World t) s s1 rd cb read_sz st ans rest :
  objs w !! p = Some s -> user_read_callback_ s = Some rd ->
  state_ s = CLOSING -> user_close_callback_ s = Some cb ->
  DoRead MOnReadNotify p (entered_for_read p s w) = Done ((read_sz, st), w1) ->
  objs w1 !! p = Some s1 ->
  NetState_bool st = false \/ read_sz = 0 /\ eof_ s1 = true ->
  script w1 = ans :: rest -> is_Some (ScriptVocabulary.int_result ans) ->
  let args := CloseDone st in
  let s2 := (if NetState_bool st then Release CloseSlot else id)
              (with_flag (Some (length (cells w))) s1) in
  exists w',
    OnReadNotify handler p w = Done (tt, w') /\
    invocations (log w') = invocations (log w) ++ [(p, cb, args)] /\
    match handler cb args s2 with
    | None => objs w' !! p = None /\ script w' = ans :: rest
    | Some s3 =>
        objs w' !! p = Some (set_state CLOSED (set_fd (-1) s3)) /\
        script w' = rest /\
        last (log w') = Some (EvSys (SysClose (fd_ s3)) ans)
    end.
Proof.
  intros Hp Hrd Hstate Hcb Hrun Hp1 Hfinish Hscript [v Hans] args s2.
  set (w0 := entered_for_read p s w) in *.
  assert (objs w0 !! p = Some (set_can_read true s)) as Hp0
    by (simpl; apply lookup_insert_eq).
  destruct (DoRead_frame _ _ _ _ _ _ Hp0 Hrun) as (s1' & Hp1' & Hk & Hl & Hc & _).
  assert (s1' = s1) as -> by congruence. clear Hp1'.
  destruct Hk as (_ & _ & _ & _ & _ & Hst1 & Hrd1 & _ & Hcb1).
  change (state_ (set_can_read true s)) with (state_ s) in Hst1.
  change (user_close_callback_ (set_can_read true s)) with (user_close_callback_ s) in Hcb1.
  unfold OnReadNotify. cbv zeta. rewrite (enter_for_read p w s _ Hp). fold w0.
  rewrite (bind_Done _ _ _ _ _ (this_Done p _ w0 _ Hp0)).
  change (user_read_callback_ (set_can_read true s)) with (user_read_callback_ s).
  rewrite Hrd, bool_decide_eq_true_2 by done. unfold negb at 1.
  rewrite (bind_Done _ _ _ _ _ Hrun).
  rewrite (bind_Done _ _ _ _ _ (this_Done p _ w1 _ Hp1)).
  rewrite Hst1, Hstate. change (negb (State_eqb CLOSING CLOSING)) with false. cbv iota.
  rewrite Hcb1, Hcb.
  assert (cells w1 = cells w) as Hcells by (rewrite Hc; done).
  assert (invocations (log w1) = invocations (log w)) as Hinv.
  { rewrite Hl. unfold w0, entered_for_read. simpl.
    rewrite SocketProps.invocations_app. simpl. apply app_nil_r. }
  set (c := length (cells w)) in *.
  set (wa := mkWorld (objs w1) (cells w1 ++ [false]) (errno w1) (script w1) (log w1)
                     (swap_buffer_size_ w1)).
  assert (alloc_cell w1 = Done (c, wa)) as Halloc
    by (unfold alloc_cell, c; by rewrite <- Hcells).
  assert (objs wa !! p = Some s1) as Hpa by done.
  set (wf := mkWorld (<[p := with_flag (Some c) s1]> (objs wa)) (cells wa) (errno wa)
                     (script wa) (log wa) (swap_buffer_size_ wa)).
  assert (objs wf !! p = Some (with_flag (Some c) s1)) as Hpf
    by (simpl; apply lookup_insert_eq).
  (* what follows the handler in both branches *)
  assert (forall (w2 : World t) (o : option t),
            objs w2 !! p = o -> script w2 = ans :: rest ->
            cells w2 = (match o with
                        | None => <[c := true]> (cells w ++ [false])
                        | Some _ => cells w ++ [false]
                        end) ->
            exists w',
              (d ← read_cell c;
               if negb d
               then Close MOnReadNotify p;; update p MOnReadNotify (set_state CLOSED)
               else mret tt) w2 = Done (tt, w') /\
              invocations (log w') = invocations (log w2) /\
              match o with
              | None => objs w' !! p = None /\ script w' = ans :: rest
              | Some s3 =>
                  objs w' !! p = Some (set_state CLOSED (set_fd (-1) s3)) /\
                  script w' = rest /\
                  last (log w') = Some (EvSys (SysClose (fd_ s3)) ans)
              end) as Hafter.
  { intros w2 o Ho Hs2 Hc2.
    unfold read_cell at 1, mbind at 1, M_bind at 1, bind at 1. rewrite Hc2.
    destruct o as [s3|].
    - unfold c. rewrite lookup_app_r, Nat.sub_diag by done.
      change (default false ([false] !! 0)) with false. unfold negb. cbv iota.
      set (w3 := mkWorld (objs w2) (cells w2) (ScriptVocabulary.errno_after (errno w2) ans)
                         rest (log w2 ++ [EvSys (SysClose (fd_ s3)) ans])
                         (swap_buffer_size_ w2)).
      set (w4 := mkWorld (<[p := set_fd (-1) s3]> (objs w3)) (cells w3) (errno w3)
                         (script w3) (log w3) (swap_buffer_size_ w3)).
      assert (Close MOnReadNotify p w2 = Done (tt, w4)) as Hclose.
      { unfold Close. rewrite (bind_Done _ _ _ _ _ (this_Done p _ w2 _ Ho)).
        rewrite (bind_Done _ _ _ _ _ (sys_int_Done _ w2 _ _ _ Hs2 Hans)).
        by apply update_Done. }
      rewrite (bind_Done _ _ _ _ _ Hclose).
      assert (objs w4 !! p = Some (set_fd (-1) s3)) as Hp4 by (simpl; apply lookup_insert_eq).
      rewrite (update_Done p _ _ w4 _ Hp4).
      eexists. split; [done|]. simpl. rewrite lookup_insert_eq, last_snoc.
      split_and!; try done.
      rewrite SocketProps.invocations_app. simpl. apply app_nil_r.
    - unfold c. rewrite list_lookup_insert_eq by (rewrite length_app; simpl; lia).
      change (default false (Some true)) with true. unfold negb. cbv iota.
      exists w2. by split_and!. }
  destruct (NetState_bool st) eqn:Hok.
  - (* end of file *)
    destruct Hfinish as [?|[-> Heof]]; [done|].
    change (0 <? 0) with false. cbv iota. rewrite Heof.
    rewrite (bind_Done _ _ _ _ _ Halloc).
    rewrite (bind_Done _ _ _ _ _ (update_Done p _ _ wa _ Hpa)). fold wf.
    rewrite (bind_Done _ _ _ _ _ (update_Done p _ _ wf _ Hpf)).
    set (wr := mkWorld _ _ _ _ _ _).
    assert (objs wr !! p = Some (Release CloseSlot (with_flag (Some c) s1))) as Hpr
      by (simpl; apply lookup_insert_eq).
    assert (st = NetOK) as -> by (by destruct st).
    destruct (Invoke_run MOnReadNotify p cb (CloseDone NetOK) wr _ Hpr)
      as (w2 & Hinvoke & Hobj & Hlog & Hcells2 & Hscr).
    rewrite (bind_Done _ _ _ _ _ Hinvoke).
    destruct (Hafter w2 _ Hobj) as (w' & Hret & Hinv' & Hres).
    { rewrite Hscr. exact Hscript. }
    { rewrite Hcells2. unfold s2, args. simpl. rewrite Hcells.
      by destruct (handler _ _ _). }
    exists w'. split_and!; [done | | done].
    rewrite Hinv', Hlog, SocketProps.invocations_app. unfold wr, wf, wa. simpl.
    rewrite Hinv. f_equal. by destruct (handler _ _ _).
  - rewrite (bind_Done _ _ _ _ _ Halloc).
    rewrite (bind_Done _ _ _ _ _ (update_Done p _ _ wa _ Hpa)). fold wf.
    destruct (Invoke_run MOnReadNotify p cb (CloseDone st) wf _ Hpf)
      as (w2 & Hinvoke & Hobj & Hlog & Hcells2 & Hscr).
    rewrite (bind_Done _ _ _ _ _ Hinvoke).
    destruct (Hafter w2 _ Hobj) as (w' & Hret & Hinv' & Hres).
    { rewrite Hscr. exact Hscript. }
    { rewrite Hcells2. unfold s2, args. simpl. rewrite Hcells.
      by destruct (handler _ _ _). }
    exists w'. split_and!; [done | | done].
    rewrite Hinv', Hlog, SocketProps.invocations_app. unfold wf, wa. simpl.
    rewrite Hinv. f_equal. by destruct (handler _ _ _).
Qed.

(** X18.  OnException reports the error to the read handler, then to the write
    handler, each at most once and with size 0, and stops after the read
    handler if that one destroyed the socket: the write handler asked is the
    one the socket holds after the read handler returned.  No system call is
    made, and the call returns whatever the handlers do. *)
Theorem OnException_reports_read_then_write p (w : World t) s st :
  objs w !! p = Some s -> NetState_bool st = false ->
  let s0 := with_flag (Some (length (cells w))) s in
  let to_write (s1 : t) :=
    match user_write_callback_ s1 with
    | Some wr => [(p, wr, WriteArgs 0 st)]
    | None => []
    end in
  exists w',
    OnException handler p st w = Done (tt, w') /\
    script w' = script w /\
    invocations (log w') = invocations (log w) ++
      match user_read_callback_ s with
      | Some rd =>
          (p, rd, ReadArgs 0 st) ::
          match handler rd (ReadArgs 0 st) (Release ReadSlot s0) with
          | Some s1 => to_write s1
          | None => []
          end
      | None => to_write s0
      end.
Proof.
  intros Hp Hst s0 to_write. unfold OnException. cbv zeta.
  set (c := length (cells w)) in *.
  set (we := mkWorld (objs w) (cells w) (errno w) (script w)
                     (log w ++ [EvEnter p MOnException]) (swap_buffer_size_ w)).
  assert (enter p MOnException w = Done (s, we)) as Henter
    by (unfold enter; by rewrite Hp).
  rewrite (bind_Done _ _ _ _ _ Henter). rewrite Hst.
  assert (assert (negb false) we = Done (tt, we)) as Hassert by done.
  rewrite (bind_Done _ _ _ _ _ Hassert).
  set (wa := mkWorld (objs w) (cells w ++ [false]) (errno w) (script w)
                     (log w ++ [EvEnter p MOnException]) (swap_buffer_size_ w)).
  assert (alloc_cell we = Done (c, wa)) as Halloc by done.
  rewrite (bind_Done _ _ _ _ _ Halloc).
  assert (objs wa !! p = Some s) as Hpa by done.
  rewrite (bind_Done _ _ _ _ _ (update_Done p _ _ wa s Hpa)).
  set (w0 := mkWorld _ _ _ _ _ _).
  assert (objs w0 !! p = Some s0) as Hp0 by (simpl; apply lookup_insert_eq).
  assert (invocations (log w0) = invocations (log w)) as Hl0
    by (unfold w0, wa; simpl; rewrite SocketProps.invocations_app; simpl; apply app_nil_r).
  assert (cells w0 = cells w ++ [false]) as Hc0 by done.
  assert (script w0 = script w) as Hs0 by done.
  rewrite (bind_Done _ _ _ _ _ (this_Done p _ w0 _ Hp0)).
  assert (forall (w2 : World t) s2,
            objs w2 !! p = Some s2 ->
            exists w',
              (s ← this p MOnException;
               if bool_decide (is_Some (user_write_callback_ s))
               then DO_INVOKE handler MOnException p WriteSlot (WriteArgs 0 st)
               else mret tt) w2 = Done (tt, w') /\
              script w' = script w2 /\
              invocations (log w') = invocations (log w2) ++ to_write s2) as Hwrite.
  { intros w2 s2 Hp2. rewrite (bind_Done _ _ _ _ _ (this_Done p _ w2 _ Hp2)).
    unfold to_write. destruct (user_write_callback_ s2) as [wr|] eqn:Hwr.
    - rewrite bool_decide_eq_true_2 by done.
      destruct (SocketProps.DO_INVOKE_armed handler MOnException p WriteSlot
                  (WriteArgs 0 st) w2 s2 wr Hp2 Hwr)
        as (w' & Hinv & _ & Hlog & _ & Hscr & _).
      exists w'. split_and!; [done | done |].
      rewrite Hlog, SocketProps.invocations_app. f_equal.
      simpl. by destruct (handler _ _ _).
    - rewrite bool_decide_eq_false_2 by (by intros [? ?]).
      exists w2. rewrite app_nil_r. by split_and!. }
  change (user_read_callback_ s0) with (user_read_callback_ s).
  destruct (user_read_callback_ s) as [rd|] eqn:Hrd.
  - rewrite bool_decide_eq_true_2 by done.
    destruct (SocketProps.DO_INVOKE_armed handler MOnException p ReadSlot
                (ReadArgs 0 st) w0 s0 rd Hp0 Hrd)
      as (w1 & Hinv & Hobj & Hlog & Hcells & Hscr & _).
    rewrite (bind_Done _ _ _ _ _ Hinv).
    unfold read_cell at 1, mbind at 1, M_bind at 1, bind at 1.
    change (notify_flag_ s0) with (Some c) in Hcells.
    destruct (handler rd (ReadArgs 0 st) (Release ReadSlot s0)) as [s1|] eqn:Hh.
    + rewrite Hcells, Hc0. unfold c. rewrite lookup_app_r, Nat.sub_diag by done.
      simpl default. unfold negb.
      destruct (Hwrite w1 s1 Hobj) as (w' & Hret & Hscr' & Hlog').
      exists w'. split_and!; [done | congruence |].
      rewrite Hlog', Hlog, SocketProps.invocations_app, Hl0, <- app_assoc. done.
    + rewrite Hcells, Hc0. unfold c.
      rewrite list_lookup_insert_eq by (rewrite length_app; simpl; lia).
      simpl default. unfold negb.
      exists w1. split_and!; [done | congruence |].
      rewrite Hlog, SocketProps.invocations_app, Hl0. done.
  - rewrite bool_decide_eq_false_2 by (by intros [? ?]).
    unfold mbind at 1, M_bind at 1, bind at 1.
    unfold mret at 1, M_ret at 1, ret at 1.
    unfold read_cell at 1, mbind at 1, M_bind at 1, bind at 1.
    rewrite Hc0. unfold c. rewrite lookup_app_r, Nat.sub_diag by done.
    simpl default. unfold negb.
    destruct (Hwrite w0 s0 Hp0) as (w' & Hret & Hscr' & Hlog').
    exists w'. split_and!; [done | congruence |]. rewrite Hlog', Hl0. done.
Qed.
End WithHandlers.

Lemma OnReadNotify_hands_late_data_to_the_close_handler_witness :
  exists w',
    OnReadNotify keep 1
      (world_of (set_eof false IOManagerVocabulary.closing_socket) [Delivers [x61]])
    = Done (tt, w') /\
    invocations (log w') = [(1, 9, CloseData 1)] /\ script w' = [].
Proof.
  pose (s := set_eof false IOManagerVocabulary.closing_socket).
  pose (w := world_of s [Delivers [x61]]).
  assert (exists w1 s1,
            DoRead MOnReadNotify 1 (entered_for_read 1 s w) = Done ((1, NetOK), w1) /\
            objs w1 !! 1 = Some s1 /\ script w1 = []) as (w1 & s1 & Hrun & Hp1 & Hscr1)
    by (eexists _, _; vm_compute; split_and!; reflexivity).
  destruct (OnReadNotify_hands_late_data_to_the_close_handler keep 1 w w1 s s1 1 9 1
              eq_refl eq_refl eq_refl eq_refl Hrun Hp1 (or_introl (Nat.lt_0_succ 0)))
    as (w' & Hret & Hscr & Hinv & _).
  exists w'. split; [exact Hret|]. split; [exact Hinv|]. rewrite Hscr. exact Hscr1.
Defined.

Lemma OnReadNotify_completes_an_asynchronous_close_witness :
  exists w' s',
    OnReadNotify keep 1 (world_of IOManagerVocabulary.closing_socket [Returns 0%Z])
    = Done (tt, w') /\
    invocations (log w') = [(1, 9, CloseDone NetOK)] /\
    objs w' !! 1 = Some s' /\ state_ s' = CLOSED /\ fd_ s' = (-1)%Z /\ script w' = [].
Proof.
  pose (s := IOManagerVocabulary.closing_socket).
  pose (w := world_of s [Returns 0%Z]).
  assert (DoRead MOnReadNotify 1 (entered_for_read 1 s w)
          = Done ((0, NetOK), entered_for_read 1 s w)) as Hrun by reflexivity.
  destruct (OnReadNotify_completes_an_asynchronous_close keep 1 w
              (entered_for_read 1 s w) s (set_can_read true s) 1 9 0 NetOK (Returns 0%Z) []
              eq_refl eq_refl eq_refl eq_refl Hrun eq_refl
              (or_intror (conj eq_refl eq_refl)) eq_refl (ex_intro _ 0%Z eq_refl))
    as (w' & Hret & Hinv & Hobj & Hscr & _).
  exists w'. eexists.
  split_and!; [exact Hret | exact Hinv | exact Hobj | reflexivity | reflexivity | exact Hscr].
Defined.

Lemma OnWriteNotify_with_nothing_queued_writes_nothing_witness :
  exists w',
    OnWriteNotify keep 1 (world_of ready_socket [Returns 1%Z]) = Done (tt, w') /\
    script w' = [Returns 1%Z] /\ invocations (log w') = [].
Proof.
  destruct (OnWriteNotify_with_nothing_queued_writes_nothing keep 1
              (world_of ready_socket [Returns 1%Z]) ready_socket eq_refl eq_refl)
    as (w' & Hret & _ & Hscript & Hlog & _).
  exists w'. split; [exact Hret|]. split; [exact Hscript|]. rewrite Hlog. reflexivity.
Defined.

Lemma OnException_reports_read_then_write_witness :
  exists w',
    OnException (fun cb _ s => if cb =? 1 then None else Some s) 1
      (NetError state_category.kSystem 104) (world_of ready_socket []) = Done (tt, w') /\
    invocations (log w') = [(1, 1, ReadArgs 0 (NetError state_category.kSystem 104))].
Proof.
  destruct (OnException_reports_read_then_write
              (fun cb _ s => if cb =? 1 then None else Some s) 1
              (world_of ready_socket []) ready_socket
              (NetError state_category.kSystem 104) eq_refl eq_refl)
    as (w' & Hret & _ & Hinv).
  exists w'. split; [exact Hret | exact Hinv].
Defined.

Lemma OnReadNotify_reports_witness :
  exists w',
    OnReadNotify keep 1 (world_of ready_socket [Delivers [x68; x69; x21]]) = Done (tt, w') /\
    invocations (log w') = [(1, 1, ReadArgs 3 NetOK)].
Proof.
  assert (exists w1, DoRead MOnReadNotify 1
            (entered_for_read 1 ready_socket (world_of ready_socket [Delivers [x68; x69; x21]]))
          = Done ((3, NetOK), w1)) as [w1 Hrun]
    by (eexists; vm_compute; reflexivity).
  destruct (OnReadNotify_reports keep 1
              (world_of ready_socket [Delivers [x68; x69; x21]]) w1 ready_socket 1 3 NetOK
              eq_refl eq_refl ltac:(discriminate) Hrun) as (s1 & w' & _ & Hret & Hinv & _).
  exists w'. split; [exact Hret | exact Hinv].
Defined.

Lemma OnReadNotify_without_handler_reads_nothing_witness :
  exists w',
    OnReadNotify keep 1
      (world_of (set_user_read_callback None ready_socket) [Delivers [x68]]) = Done (tt, w') /\
    script w' = [Delivers [x68]].
Proof.
  destruct (OnReadNotify_without_handler_reads_nothing keep 1
              (world_of (set_user_read_callback None ready_socket) [Delivers [x68]])
              (set_user_read_callback None ready_socket) eq_refl eq_refl)
    as (w' & Hret & _ & Hscript & _).
  exists w'. split; [exact Hret | exact Hscript].
Defined.
End SocketNotify.

(** ** IOManager: DispatchLoop over connected sockets *)

Module DispatchProps.
Import Socket IOManager SocketVocabulary IOManagerVocabulary MonadProps.
Import SocketNotifyVocabulary SocketNotify DispatchVocabulary.
Local Open Scope nat_scope.

Lemma bind_unit {O} (m : M O unit) (w : World O) : (m ≫= fun _ => mret tt) w = m w.
Proof.
  unfold mbind, M_bind, bind. by destruct (m w) as [[[] w']| | |].
Qed.

Lemma has_IN_OUT :
  has (Z.lor EPOLLIN EPOLLOUT) EPOLLERR = false /\
  has (Z.lor EPOLLIN EPOLLOUT) EPOLLHUP = false /\
  has (Z.lor EPOLLIN EPOLLOUT) EPOLLIN = true /\
  has (Z.lor EPOLLIN EPOLLOUT) EPOLLOUT = true /\
  without (without (Z.lor EPOLLIN EPOLLOUT) EPOLLIN) EPOLLOUT = 0%Z.
Proof. by vm_compute. Qed.

Section WithHandlers.
Variable handler : cb_id -> CbArgs -> t -> option t.

(** X19.  The deleted flag guards the write notification.  For the event
    EPOLLIN|EPOLLOUT on a socket that is not closing and has a read handler:
    if the read handler destroys the socket, OnWriteNotify is not called and
    the loop goes on with the next event; if it leaves the socket alive,
    OnWriteNotify is called next. *)
Theorem DispatchLoop_guards_the_write_notification
    p (w w1 : World t) s cb read_sz st (rest : list epoll_event) :
  objs w !! p = Some s -> user_read_callback_ s = Some cb -> state_ s <> CLOSING ->
  DoRead MOnReadNotify p
    (entered_for_read p (with_flag (Some (length (cells w))) s) (flagged_by_dispatch p s w))
  = Done ((read_sz, st), w1) ->
  exists s1 w2,
    objs w1 !! p = Some s1 /\
    log w2 = log w1 ++ EvInvoke p cb (ReadArgs read_sz st) ::
               (match handler cb (ReadArgs read_sz st) (Release ReadSlot s1) with
                | Some _ => []
                | None => [EvDestroy p]
                end) /\
    objs w2 !! p = handler cb (ReadArgs read_sz st) (Release ReadSlot s1) /\
    DispatchSockets handler (mk_event p (Z.lor EPOLLIN EPOLLOUT) :: rest) w
    = match handler cb (ReadArgs read_sz st) (Release ReadSlot s1) with
      | Some _ => (OnWriteNotify handler p;; DispatchSockets handler rest) w2
      | None => DispatchSockets handler rest w2
      end.
Proof.
  intros Hp Hcb Hstate Hrun.
  set (c := length (cells w)) in *.
  set (wd := flagged_by_dispatch p s w) in *.
  assert (objs wd !! p = Some (with_flag (Some c) s)) as Hpd
    by (simpl; apply lookup_insert_eq).
  destruct (OnReadNotify_run handler p wd w1 (with_flag (Some c) s) cb read_sz st
              Hpd Hcb Hstate Hrun)
    as (s1 & w2 & Hp1 & _ & Hret & Hobj & Hlog & _ & Hcells & _).
  exists s1, w2. split_and!; [done | done | done |].
  unfold DispatchSockets. cbn [DispatchLoop]. unfold dispatch. cbv zeta.
  cbn [events data_ptr].
  destruct has_IN_OUT as (-> & -> & -> & -> & Hzero).
  set (wa := mkWorld (objs w) (cells w ++ [false]) (errno w) (script w) (log w)
                     (swap_buffer_size_ w)).
  assert (alloc_cell w = Done (c, wa)) as Halloc by done.
  assert (set_notify_flag p c wa = Done (tt, wd)) as Hset
    by (unfold set_notify_flag, update; simpl; by rewrite Hp).
  change (notify_flag_ (with_flag (Some c) s)) with (Some c) in Hcells.
  change (cells wd) with (cells w ++ [false]) in Hcells.
  unfold mbind at 1, M_bind at 1, bind at 1.
  rewrite (bind_Done _ _ _ _ _ (mret_Done _ w)).
  rewrite (bind_Done _ _ _ _ _ Halloc).
  rewrite (bind_Done _ _ _ _ _ Hset).
  assert ((@detail.OnReadNotify t (notifiable handler) p
             ≫= fun _ => mret (without (Z.lor EPOLLIN EPOLLOUT) EPOLLIN)) wd
          = Done (without (Z.lor EPOLLIN EPOLLOUT) EPOLLIN, w2)) as Hread.
  { change (@detail.OnReadNotify t (notifiable handler) p) with (OnReadNotify handler p).
    by rewrite (bind_Done _ _ _ _ _ Hret). }
  rewrite (bind_Done _ _ _ _ _ Hread).
  destruct (handler cb (ReadArgs read_sz st) (Release ReadSlot s1)) as [s2|].
  - assert (read_cell c w2 = Done (false, w2)) as Hcell.
    { unfold read_cell. rewrite Hcells. unfold c.
      by rewrite lookup_app_r, Nat.sub_diag. }
    unfold mbind at 1, M_bind at 1, bind at 1.
    unfold mbind at 1, M_bind at 1, bind at 1.
    rewrite Hcell. unfold negb.
    change (@detail.OnWriteNotify t (notifiable handler) p) with (OnWriteNotify handler p).
    unfold mbind at 1, M_bind at 1, bind at 1.
    unfold mbind, M_bind, bind.
    by destruct (OnWriteNotify handler p w2) as [[[] w3]| | |].
  - assert (read_cell c w2 = Done (true, w2)) as Hcell.
    { unfold read_cell. rewrite Hcells. unfold c.
      by rewrite list_lookup_insert_eq by (rewrite length_app; simpl; lia). }
    unfold mbind at 1, M_bind at 1, bind at 1.
    unfold mbind at 1, M_bind at 1, bind at 1.
    rewrite Hcell. unfold negb.
    unfold mbind at 1, M_bind at 1, bind at 1.
    unfold mret at 1, M_ret at 1, ret at 1.
    unfold mret at 1, M_ret at 1, ret at 1. by rewrite Hzero.
Qed.

Lemma has_without_ERR ev :
  has (without ev EPOLLERR) EPOLLERR = false /\
  has (without ev EPOLLERR) EPOLLHUP = has ev EPOLLHUP /\
  has (without ev EPOLLERR) EPOLLIN = has ev EPOLLIN /\
  has (without ev EPOLLERR) EPOLLOUT = has ev EPOLLOUT.
Proof.
  unfold has, without. rewrite <- !Z.land_assoc.
  change (Z.land (Z.lnot EPOLLERR) EPOLLERR) with 0%Z.
  change (Z.land (Z.lnot EPOLLERR) EPOLLHUP) with EPOLLHUP.
  change (Z.land (Z.lnot EPOLLERR) EPOLLIN) with EPOLLIN.
  change (Z.land (Z.lnot EPOLLERR) EPOLLOUT) with EPOLLOUT.
  by rewrite Z.land_0_r.
Qed.

(** X20.  An event with EPOLLERR makes DispatchLoop ask the socket for its error,
    once.  A non-zero error goes to OnException as a system error and
    nothing else is notified for this event, whatever other bits it has; with
    error 0 the event is handled as if the bit EPOLLERR were not set. *)
Theorem DispatchLoop_asks_the_socket_for_its_error
    p (w : World t) s ev err answers (rest : list epoll_event) :
  objs w !! p = Some s -> has ev EPOLLERR = true ->
  script w = Returns err :: answers ->
  DispatchSockets handler (mk_event p ev :: rest) w
  = if (err =? 0)%Z
    then DispatchSockets handler (mk_event p (without ev EPOLLERR) :: rest)
           (asked_for_error s (Returns err) answers w)
    else (OnException handler p (NetError state_category.kSystem err);;
          DispatchSockets handler rest) (asked_for_error s (Returns err) answers w).
Proof.
  intros Hp Herr Hscript.
  unfold DispatchSockets. cbn [DispatchLoop]. unfold dispatch. cbv zeta.
  cbn [events data_ptr]. rewrite Herr.
  destruct (has_without_ERR ev) as (-> & -> & -> & ->).
  set (w1 := asked_for_error s (Returns err) answers w).
  assert (syscall (SysGetSoError (fd_ s)) w = Done (Returns err, w1)) as Hsys
    by (unfold syscall; by rewrite Hscript).
  change (@detail.OnException t (notifiable handler) p) with (OnException handler p).
  unfold mbind, M_bind, bind. unfold this at 1. rewrite Hp.
  change (detail.fd s) with (fd_ s). rewrite Hsys.
  destruct (err =? 0)%Z; unfold negb.
  - done.
  - by destruct (OnException handler p _ w1) as [[[] w2]| | |].
Qed.

(** X21.  A hang-up is delivered as a read notification and nothing else.  For an
    event with EPOLLHUP and without EPOLLERR, DispatchLoop calls OnReadNotify
    and goes on with the next event: OnWriteNotify is not called even if
    EPOLLOUT is set, no flag is installed on the socket, and the other bits of
    the event are not checked. *)
Theorem DispatchLoop_turns_a_hangup_into_a_read_notification
    p (w : World t) ev (rest : list epoll_event) :
  has ev EPOLLERR = false -> has ev EPOLLHUP = true ->
  DispatchSockets handler (mk_event p ev :: rest) w
  = (OnReadNotify handler p;; DispatchSockets handler rest) w.
Proof.
  intros Herr Hhup.
  unfold DispatchSockets. cbn [DispatchLoop]. unfold dispatch. cbv zeta.
  cbn [events data_ptr]. rewrite Herr, Hhup.
  change (@detail.OnReadNotify t (notifiable handler) p) with (OnReadNotify handler p).
  unfold mbind, M_bind, bind. unfold mret, M_ret, ret.
  by destruct (OnReadNotify handler p w) as [[[] w2]| | |].
Qed.
End WithHandlers.

Lemma DispatchLoop_turns_a_hangup_into_a_read_notification_witness :
  DispatchSockets keep [mk_event 1 (Z.lor EPOLLHUP EPOLLOUT)] (world_of queued_socket [])
  = (OnReadNotify keep 1;; DispatchSockets keep []) (world_of queued_socket []).
Proof.
  exact (DispatchLoop_turns_a_hangup_into_a_read_notification keep 1
           (world_of queued_socket []) (Z.lor EPOLLHUP EPOLLOUT) [] eq_refl eq_refl).
Defined.

Lemma DispatchLoop_asks_the_socket_for_its_error_witness :
  DispatchSockets keep [mk_event 1 (Z.lor EPOLLERR EPOLLIN)] (world_of ready_socket [Returns 104%Z])
  = (OnException keep 1 (NetError state_category.kSystem 104);; DispatchSockets keep [])
      (asked_for_error ready_socket (Returns 104%Z) [] (world_of ready_socket [Returns 104%Z])).
Proof.
  exact (DispatchLoop_asks_the_socket_for_its_error keep 1
           (world_of ready_socket [Returns 104%Z]) ready_socket (Z.lor EPOLLERR EPOLLIN)
           104%Z [] [] eq_refl eq_refl eq_refl).
Defined.

Lemma DispatchLoop_guards_the_write_notification_witness :
  exists w2,
    DispatchSockets (destroys 1) [mk_event 1 (Z.lor EPOLLIN EPOLLOUT)]
      (world_of ready_socket [Delivers [x01]])
    = Done (tt, w2) /\ objs w2 !! 1 = None.
Proof.
  assert (exists w1, DoRead MOnReadNotify 1
            (entered_for_read 1 (with_flag (Some 0) ready_socket)
               (flagged_by_dispatch 1 ready_socket (world_of ready_socket [Delivers [x01]])))
          = Done ((1, NetOK), w1)) as [w1 Hrun]
    by (eexists; vm_compute; reflexivity).
  destruct (DispatchLoop_guards_the_write_notification (destroys 1) 1
              (world_of ready_socket [Delivers [x01]]) w1 ready_socket 1 1 NetOK []
              eq_refl eq_refl ltac:(discriminate) Hrun)
    as (s1 & w2 & _ & _ & Hobj & Hdisp).
  exists w2. split; [exact Hdisp | exact Hobj].
Defined.
End DispatchProps.

(** ** ServerSocket: the results of DoAccept *)

Module AcceptProps.
Import AcceptVocabulary.
Import ServerSocket ScriptVocabulary ServerSocketVocabulary MonadProps RunInversion.
Open Scope Z_scope.

(** HandleRunOutOfFD writes [dummy_fd_] only, and only for EMFILE and
    ENFILE. *)
Lemma HandleRunOutOfFD_frame mth p err (w w' : World t) s u :
  objs w !! p = Some s ->
  HandleRunOutOfFD mth p err w = Done (u, w') ->
  exists d,
    objs w' !! p = Some (set_dummy_fd d s) /\
    if (err =? EMFILE) || (err =? ENFILE) then 0 <= d else d = dummy_fd_ s /\ w' = w.
Proof.
  intros Hp. unfold HandleRunOutOfFD.
  destruct ((err =? EMFILE) || (err =? ENFILE)).
  - intros H.
    apply bind_inv in H as (s0 & w0 & [-> Hs0]%this_inv & H).
    assert (s0 = s) as -> by congruence.
    apply bind_inv in H as (r & w1 & (a1 & r1 & _ & _ & ->)%sys_int_inv & H).
    apply bind_inv in H as (? & w2 & [_ ->]%VERIFY_inv & H).
    apply bind_inv in H as (f & w2 & (a2 & r2 & _ & _ & ->)%sys_int_inv & H).
    apply bind_inv in H as (? & w3 & Hclose & H).
    assert (objs w3 !! p = Some s) as Hp3.
    { destruct (f >? 0).
      - apply bind_inv in Hclose as (? & w4 & (a3 & r3 & _ & _ & ->)%sys_int_inv & Hv).
        apply VERIFY_inv in Hv as [_ ->]. done.
      - apply mret_inv in Hclose as [_ ->]. done. }
    apply bind_inv in H as (d & w4 & (a4 & r4 & _ & _ & ->)%sys_int_inv & H).
    apply bind_inv in H as (? & w5 & (o & Ho & ->)%update_inv & H).
    simpl in Ho. assert (o = s) as -> by congruence.
    apply VERIFY_inv in H as [Hd ->].
    exists d. simpl. rewrite lookup_insert_eq. split; [done | lia].
  - intros [_ ->]%mret_inv. exists (dummy_fd_ s). split_and!; try done.
    rewrite Hp. by destruct s.
Qed.

Lemma DoAccept_step_result mth p state (w w' : World t) s res :
  objs w !! p = Some s ->
  DoAccept_step mth p state w = Done (res, w') ->
  exists s', objs w' !! p = Some s' /\
    match res with
    | None => s' = s
    | Some (r, st) =>
        accepted s state r st s' \/ would_block s state r st s' \/
        failed s (errno w') r st s'
    end.
Proof.
  intros Hp. unfold DoAccept_step. intros H.
  apply bind_inv in H as (s0 & w0 & [-> Hs0]%this_inv & H).
  assert (s0 = s) as -> by congruence.
  apply bind_inv in H as (nfd & w1 & (a & rest & _ & _ & ->)%sys_int_inv & H).
  set (w1 := mkWorld _ _ _ _ _ _) in H.
  assert (objs w1 !! p = Some s) as Hp1 by done.
  destruct (Z.ltb_spec nfd 0) as [Hneg|Hpos].
  - apply bind_inv in H as (e & w2 & [-> ->]%get_errno_inv & H).
    destruct (is_EAGAIN (errno w1)) eqn:Hagain.
    + apply bind_inv in H as (? & w2 & (o & Ho & ->)%update_inv & [-> ->]%mret_inv).
      assert (o = s) as -> by congruence.
      eexists. simpl. rewrite lookup_insert_eq. split; [done|].
      right; left. by split_and!.
    + destruct (Z.eqb_spec (errno w1) EINTR) as [Hintr|Hne].
      * apply mret_inv in H as [-> ->]. by exists s.
      * apply bind_inv in H as (? & w2 & Hrec & H).
        destruct (HandleRunOutOfFD_frame _ _ _ _ _ _ _ Hp1 Hrec) as (d & Hp2 & Hd).
        apply bind_inv in H as (e' & w3 & [-> ->]%get_errno_inv & H).
        apply bind_inv in H as (? & w3 & Hupd & [-> ->]%mret_inv).
        destruct (is_EAGAIN (errno w2)) eqn:Hagain'.
        -- apply update_inv in Hupd as (o & Ho & ->).
           assert (o = set_dummy_fd d s) as -> by congruence.
           eexists. simpl. rewrite lookup_insert_eq. split; [done|].
           right; right. split; [done|]. exists (errno w1), d.
           rewrite Hagain'. split_and!; try done.
           destruct ((errno w1 =? EMFILE) || (errno w1 =? ENFILE)); [done|].
           destruct Hd as [_ Hw]. rewrite Hw in Hagain'. congruence.
        -- apply mret_inv in Hupd as [_ ->].
           eexists. split; [done|].
           right; right. split; [done|]. exists (errno w1), d.
           rewrite Hagain'. split_and!; try done.
           destruct ((errno w1 =? EMFILE) || (errno w1 =? ENFILE)); [done|].
           destruct Hd as [-> Hw]. by rewrite Hw.
  - apply mret_inv in H as [-> ->]. exists s. split; [done|]. left. by split_and!.
Qed.

Lemma DoAccept_loop_result mth p state (w' : World t) r st : forall fuel (w : World t) s,
  objs w !! p = Some s ->
  DoAccept_loop fuel mth p state w = Done ((r, st), w') ->
  exists s', objs w' !! p = Some s' /\
    (accepted s state r st s' \/ would_block s state r st s' \/
     failed s (errno w') r st s').
Proof.
  induction fuel as [|fuel IH]; intros w s Hp; [done|].
  simpl DoAccept_loop. intros Hrun.
  apply bind_inv in Hrun as (res & w1 & Hstep & Hrest).
  destruct (DoAccept_step_result _ _ _ _ _ _ _ Hp Hstep) as (s1 & Hp1 & Hres).
  destruct res as [[r' st']|].
  - apply mret_inv in Hrest as [[= -> ->] ->]. eauto.
  - subst s1. eauto.
Qed.

(** X22.  The three ways DoAccept returns.  Either it hands back a descriptor
    (not negative), with the state and the listener untouched; or the
    listener would block: -1, the state untouched and [can_read] cleared; or
    accept4 failed with an error [e] other than EAGAIN and EINTR: -1 and the
    system error [e], the reserved descriptor replaced by a valid one if [e]
    is EMFILE or ENFILE and untouched otherwise, and [can_read] cleared
    exactly when errno reads EAGAIN at the return.  It never returns another
    negative value, and never returns on EINTR. *)
Theorem DoAccept_returns_in_three_ways mth p state (w w' : World t) s r st :
  objs w !! p = Some s ->
  DoAccept mth p state w = Done ((r, st), w') ->
  exists s', objs w' !! p = Some s' /\
    ((0 <= r /\ st = state /\ s' = s) \/
     (r = -1 /\ st = state /\ s' = set_can_read false s) \/
     (r = -1 /\
      exists e d,
        st = NetError state_category.kSystem e /\ is_EAGAIN e = false /\ e <> EINTR /\
        s' = set_can_read (negb (is_EAGAIN (errno w'))) (set_dummy_fd d s) /\
        if (e =? EMFILE) || (e =? ENFILE) then 0 <= d
        else d = dummy_fd_ s /\ errno w' = e)).
Proof.
  intros Hp. unfold DoAccept.
  rewrite (bind_Done _ _ _ _ _ (this_Done p mth w s Hp)).
  unfold assert. destruct (can_read_ s) eqn:Hcr; [|done].
  unfold mbind at 1, M_bind at 1, bind at 1. unfold ret at 1.
  unfold get_fuel, mbind at 1, M_bind at 1, bind at 1.
  intros Hrun.
  destruct (DoAccept_loop_result _ _ _ _ _ _ _ _ _ Hp Hrun) as (s' & Hp' & Hres).
  exists s'. split; [done|].
  destruct Hres as [?|[?|(Hr & e & d & Hst & Hag & Hne & Hs' & Hd)]]; [by left | by right; left |].
  right; right. split; [done|]. exists e, d. split_and!; try done.
  rewrite Hs', Hcr. by destruct (is_EAGAIN (errno w')).
Qed.

Lemma DoAccept_returns_in_three_ways_witness :
  exists w',
    DoAccept MOnReadNotify 1%nat NetOK
      (mkWorld {[ 1%nat := listening ]} [] 0 [Fails EINTR; Fails EAGAIN] [] 4%nat)
    = Done ((-1, NetOK), w') /\
    objs w' !! 1%nat = Some (set_can_read false listening).
Proof.
  assert (exists w', DoAccept MOnReadNotify 1%nat NetOK
            (mkWorld {[ 1%nat := listening ]} [] 0 [Fails EINTR; Fails EAGAIN] [] 4%nat)
          = Done ((-1, NetOK), w')) as [w' Hrun]
    by (eexists; vm_compute; reflexivity).
  destruct (DoAccept_returns_in_three_ways MOnReadNotify 1%nat NetOK
              (mkWorld {[ 1%nat := listening ]} [] 0 [Fails EINTR; Fails EAGAIN] [] 4%nat)
              w' listening (-1) NetOK) as (s' & Hp' & Hres); [reflexivity | exact Hrun |].
  exists w'. split; [exact Hrun|].
  destruct Hres as [[Hr _]|[(_ & _ & Hs')|(_ & e & d & Hst & _)]].
  - exfalso. revert Hr. vm_compute. intros H. by apply H.
  - rewrite <- Hs'. exact Hp'.
  - discriminate Hst.
Defined.
End AcceptProps.

(** ** IOManager: the timer queue *)

Module TimerProps.
Import IOManager TimerVocabulary.
Local Open Scope nat_scope.

Lemma length_swap_at a i j : length (swap_at a i j) = length a.
Proof.
  unfold swap_at. destruct (a !! i), (a !! j); try done. by rewrite !length_insert.
Qed.

Lemma swap_at_Permutation a i j : swap_at a i j ≡ₚ a.
Proof.
  unfold swap_at. destruct (a !! i) eqn:Hi, (a !! j) eqn:Hj; try done.
  by apply Permutation_insert_swap.
Qed.

Lemma swap_at_lookup_ne a i j k : k <> i -> k <> j -> swap_at a i j !! k = a !! k.
Proof.
  intros Hi Hj. unfold swap_at. destruct (a !! i), (a !! j); try done.
  by rewrite !list_lookup_insert_ne.
Qed.

Lemma greater_child_cases n a best c :
  greater_child n a best c = best \/ greater_child n a best c = c /\ c < n.
Proof.
  unfold greater_child. destruct (a !! best), (a !! c); try by left.
  destruct (Nat.ltb_spec c n); simpl; [|by left].
  destruct (TimerStruct_lt _ _); [by right | by left].
Qed.

(** Sifting down permutes the first [n] places and nothing else. *)
Lemma sift_down_spec n : forall fuel i a,
  sift_down fuel n i a ≡ₚ a /\ length (sift_down fuel n i a) = length a /\
  forall k, n <= k -> sift_down fuel n i a !! k = a !! k.
Proof.
  induction fuel as [|fuel IH]; intros i a; [done|].
  cbn [sift_down]. cbv zeta.
  set (b1 := greater_child n a i (2 * i + 1)).
  set (best := greater_child n a b1 (2 * i + 2)).
  destruct (Nat.eqb_spec best i) as [|Hne]; [done|].
  assert (i < n /\ best < n) as [Hi Hbest].
  { destruct (greater_child_cases n a b1 (2 * i + 2)) as [H2|[H2 ?]];
      destruct (greater_child_cases n a i (2 * i + 1)) as [H1|[H1 ?]];
      fold b1 in H1; fold best in H2; lia. }
  destruct (IH best (swap_at a i best)) as (Hperm & Hlen & Hkeep).
  split_and!.
  - by rewrite Hperm, swap_at_Permutation.
  - by rewrite Hlen, length_swap_at.
  - intros k Hk. rewrite Hkeep by done. apply swap_at_lookup_ne; lia.
Qed.

(** Popping the heap removes the front entry and keeps every other one. *)
Lemma pop_front front rest :
  pop_back (pop_heap (front :: rest)) ≡ₚ rest /\
  length (pop_back (pop_heap (front :: rest))) = length rest.
Proof.
  unfold pop_heap, pop_back. set (a := front :: rest).
  set (m := length a - 1).
  assert (length a = S m) as Hlen by (unfold m, a; simpl; lia).
  set (b := swap_at a 0 m).
  assert (b !! m = Some front) as Hb.
  { unfold b, swap_at. change (a !! 0) with (Some front).
    destruct (lookup_lt_is_Some_2 a m ltac:(lia)) as [y Hy]. rewrite Hy.
    apply list_lookup_insert_eq. rewrite length_insert. lia. }
  destruct (sift_down_spec m (length a) 0 b) as (Hperm & Hlenc & Hkeep).
  set (c := sift_down (length a) m 0 b) in *.
  assert (length c = S m) as Hc by (rewrite Hlenc; unfold b; by rewrite length_swap_at).
  assert (c !! m = Some front) as Hlast by (rewrite Hkeep by done; exact Hb).
  rewrite Hc. replace (S m - 1) with m by lia.
  assert (c = take m c ++ [front]) as Hsplit
    by (rewrite <- (take_S_r _ _ _ Hlast); symmetry; apply take_ge; lia).
  split.
  - apply (Permutation_cons_inv (a := front)).
    rewrite Permutation_cons_append, <- Hsplit, Hperm. unfold b.
    by rewrite swap_at_Permutation.
  - rewrite length_take, Hc. unfold m, a. simpl. lia.
Qed.

Lemma fire_spec front : forall fuel q fired0 q' fired,
  length q <= fuel ->
  fire fuel (to_uint64 front) q fired0 = (q', fired) ->
  exists new,
    fired = fired0 ++ new /\
    entry <$> q ≡ₚ new ++ (entry <$> q') /\
    Forall (fun e => due front e = true) new /\
    match q' with
    | [] => True
    | next :: _ => due front (entry next) = false
    end /\
    match q with
    | [] => True
    | first :: _ => due front (entry first) = true -> exists tl, new = entry first :: tl
    end.
Proof.
  induction fuel as [|fuel IH]; intros q fired0 q' fired Hlen.
  - destruct q; [|simpl in Hlen; lia]. intros [= <- <-].
    exists []. rewrite app_nil_r. by split_and!.
  - cbn [fire]. destruct q as [|first rest].
    + intros [= <- <-]. exists []. rewrite app_nil_r. by split_and!.
    + destruct (TIME_TRIGGER (to_uint64 front) (to_uint64 (time first))) eqn:Hdue.
      * destruct (pop_front first rest) as [Hperm Hl]. intros Hrun.
        assert (length (pop_back (pop_heap (first :: rest))) <= fuel) as Hle
          by (rewrite Hl; simpl in Hlen; lia).
        destruct (IH _ _ _ _ Hle Hrun)
          as (new & -> & Hq & Hall & Hnext & _).
        exists (entry first :: new). split_and!.
        -- by rewrite <- app_assoc.
        -- rewrite fmap_cons. simpl. f_equiv. by rewrite <- Hq, Hperm.
        -- by constructor.
        -- done.
        -- eauto.
      * intros [= <- <-]. exists []. rewrite app_nil_r. split_and!; try done.
        unfold due, entry. simpl. congruence.
Qed.

(** *** The heap order *)

Lemma swap_at_lookup a i j x y k :
  a !! i = Some x -> a !! j = Some y ->
  swap_at a i j !! k
  = if decide (k = j) then Some x else if decide (k = i) then Some y else a !! k.
Proof.
  intros Hi Hj. unfold swap_at. rewrite Hi, Hj.
  pose proof (lookup_lt_Some _ _ _ Hi). pose proof (lookup_lt_Some _ _ _ Hj).
  destruct (decide (k = j)) as [->|Hkj].
  - apply list_lookup_insert_eq. by rewrite length_insert.
  - rewrite list_lookup_insert_ne by done.
    destruct (decide (k = i)) as [->|Hki].
    + by apply list_lookup_insert_eq.
    + by rewrite list_lookup_insert_ne.
Qed.

(** The entry chosen by the two comparisons of a sift-down step is the
    earliest of the entry and its children. *)
Lemma best_spec n a i x :
  a !! i = Some x ->
  let best := greater_child n a (greater_child n a i (2 * i + 1)) (2 * i + 2) in
  (best = i /\
   forall j y, child i j -> j < n -> a !! j = Some y -> (time x <= time y)%Z) \/
  (child i best /\ best < n /\
   exists yb, a !! best = Some yb /\ (time yb < time x)%Z /\
     forall j y, child i j -> j < n -> a !! j = Some y -> (time yb <= time y)%Z).
Proof.
  intros Hi best.
  (* the first comparison: the entry against its left child *)
  assert (exists g1 z,
            a !! g1 = Some z /\ best = greater_child n a g1 (2 * i + 2) /\
            (time z <= time x)%Z /\
            (forall y1, 2 * i + 1 < n -> a !! (2 * i + 1) = Some y1 ->
                        (time z <= time y1)%Z) /\
            (g1 = i /\ z = x \/ g1 = 2 * i + 1 /\ 2 * i + 1 < n /\ (time z < time x)%Z))
    as (g1 & z & Hg1 & Hbest & Hzx & Hleft & Hcase).
  { unfold best, greater_child at 2, TimerStruct_lt. rewrite Hi.
    destruct (a !! (2 * i + 1)) as [y1|] eqn:H1.
    - destruct (Nat.ltb_spec (2 * i + 1) n) as [Hn1|Hn1]; cbn [andb].
      + destruct (Z.ltb_spec (time y1) (time x)) as [Hlt|Hge].
        * exists (2 * i + 1), y1. split_and!; [done | done | lia | | right; by split_and!].
          intros y Hn Hy. simplify_eq. lia.
        * exists i, x. split_and!; [done | done | lia | | by left].
          intros y Hn Hy. by simplify_eq.
      + exists i, x. split_and!; [done | done | lia | | by left].
        intros y Hn Hy. lia.
    - exists i, x. split_and!; [done | done | lia | | by left]. intros y Hn Hy. done. }
  (* the second comparison: the earlier of the two against the right child *)
  assert (forall j y, child i j -> j < n -> a !! j = Some y ->
            j = 2 * i + 1 /\ a !! (2 * i + 1) = Some y \/
            j = 2 * i + 2 /\ a !! (2 * i + 2) = Some y) as Hchild
    by (intros j y [->| ->] Hjn Hy; eauto).
  assert (best = match a !! (2 * i + 2) with
                 | Some y2 => if (2 * i + 2 <? n) && (time y2 <? time z)%Z
                              then 2 * i + 2 else g1
                 | None => g1
                 end) as Hbest'
    by (rewrite Hbest; unfold greater_child, TimerStruct_lt; by rewrite Hg1).
  clear Hbest. clearbody best.
  assert (best = g1 /\
          (forall y2, 2 * i + 2 < n -> a !! (2 * i + 2) = Some y2 -> (time z <= time y2)%Z) \/
          best = 2 * i + 2 /\ 2 * i + 2 < n /\
          exists y2, a !! (2 * i + 2) = Some y2 /\ (time y2 < time z)%Z)
    as [[-> Hright]|(-> & Hn2 & y2 & H2 & Hlt2)].
  { rewrite Hbest'. destruct (a !! (2 * i + 2)) as [y2|] eqn:H2; [|by left].
    destruct (Nat.ltb_spec (2 * i + 2) n) as [Hn2|Hn2]; cbn [andb].
    - destruct (Z.ltb_spec (time y2) (time z)) as [Hlt|Hge].
      + right. split_and!; [done | done |]. by exists y2.
      + left. split; [done|]. intros y Hn Hy. simplify_eq. lia.
    - left. split; [done|]. intros y Hn Hy. lia. }
  - destruct Hcase as [[-> ->]|(-> & Hn1 & Hlt)].
    + left. split; [done|]. intros j y Hj Hjn Hy.
      destruct (Hchild j y Hj Hjn Hy) as [[-> Hy']|[-> Hy']]; eauto.
    + right. split; [by left|]. split; [done|]. exists z. split_and!; [done | done |].
      intros j y Hj Hjn Hy.
      destruct (Hchild j y Hj Hjn Hy) as [[-> Hy']|[-> Hy']]; eauto.
  - right. split; [by right|]. split; [done|]. exists y2. split_and!; [done | lia |].
    intros j y Hj Hjn Hy.
    destruct (Hchild j y Hj Hjn Hy) as [[-> Hy']|[-> Hy']].
    + pose proof (Hleft y Hjn Hy'). lia.
    + simplify_eq. lia.
Qed.

(** Sifting down the one entry that may be out of place restores the
    heap. *)
Lemma sift_down_heap n : forall fuel i a,
  n - i <= fuel -> heap_but n i a -> heap_upto n (sift_down fuel n i a).
Proof.
  induction fuel as [|fuel IH]; intros i a Hfuel [Hother Hgrand].
  - simpl. intros k j x y Hj Hc Hk Hy.
    apply (Hother k j x y); try done. destruct Hc; lia.
  - cbn [sift_down]. cbv zeta.
    destruct (a !! i) as [x|] eqn:Hi.
    2:{ assert (greater_child n a (greater_child n a i (2 * i + 1)) (2 * i + 2) = i) as ->
          by (unfold greater_child at 2; rewrite Hi; unfold greater_child; by rewrite Hi).
        rewrite Nat.eqb_refl. intros k j x y Hj Hc Hk Hy.
        apply (Hother k j x y); try done. intros ->. congruence. }
    destruct (best_spec n a i x Hi) as [[Hbest Hmin]|(Hc & Hbn & yb & Hb & Hlt & Hmin)];
      cbv zeta in *.
    + rewrite Hbest, Nat.eqb_refl. intros k j x' y Hj Hcj Hk Hy.
      destruct (decide (k = i)) as [->|Hki].
      * simplify_eq. by eapply Hmin.
      * by eapply Hother.
    + set (best := greater_child n a (greater_child n a i (2 * i + 1)) (2 * i + 2)) in *.
      assert (best <> i) as Hne by (destruct Hc; lia).
      destruct (Nat.eqb_spec best i) as [|_]; [done|].
      apply IH; [destruct Hc; lia|].
      assert (forall k, swap_at a i best !! k
                = if decide (k = best) then Some x
                  else if decide (k = i) then Some yb else a !! k) as Hswap
        by (intros k; by apply swap_at_lookup).
      split.
      * intros k j x' y Hj Hk Hcj. rewrite !Hswap.
        destruct (decide (k = best)) as [|_]; [done|].
        destruct (decide (k = i)) as [->|Hki].
        -- intros [= <-]. destruct (decide (j = best)) as [->|Hjb].
           ++ intros [= <-]. lia.
           ++ destruct (decide (j = i)) as [->|_]; [destruct Hcj; lia|].
              intros Hy. by eapply Hmin.
        -- intros Hx'. destruct (decide (j = best)) as [->|Hjb].
           ++ exfalso. destruct Hc, Hcj; lia.
           ++ destruct (decide (j = i)) as [->|Hji].
              ** intros [= <-]. eapply (Hgrand k best x' yb); done.
              ** intros Hy. by eapply (Hother k j).
      * intros k j x' y Hj Hkb Hbj. rewrite !Hswap.
        assert (k = i) as -> by (destruct Hc, Hkb; lia).
        destruct (decide (i = best)) as [|_]; [done|].
        destruct (decide (i = i)) as [_|]; [|done].
        intros [= <-].
        destruct (decide (j = best)) as [->|_]; [destruct Hbj; lia|].
        destruct (decide (j = i)) as [->|_]; [destruct Hc, Hbj; lia|].
        intros Hy. by eapply (Hother best j).
Qed.

(** Popping a heap leaves a heap. *)
Lemma pop_heap_is_heap front rest :
  is_heap (front :: rest) -> is_heap (pop_back (pop_heap (front :: rest))).
Proof.
  intros Hheap. unfold is_heap, pop_heap, pop_back in *. set (a := front :: rest) in *.
  set (m := length a - 1).
  assert (length a = S m) as Hlen by (unfold m, a; simpl; lia).
  destruct (lookup_lt_is_Some_2 a m ltac:(lia)) as [y Hy].
  assert (a !! 0 = Some front) as H0 by done.
  set (b := swap_at a 0 m).
  assert (heap_but m 0 b) as Hbut.
  { split.
    - intros k j x' y' Hj Hk Hc. unfold b. rewrite !(swap_at_lookup a 0 m front y) by done.
      destruct (decide (k = m)) as [->|_]; [destruct Hc; lia|].
      destruct (decide (k = 0)) as [|_]; [done|].
      destruct (decide (j = m)) as [|_]; [lia|].
      destruct (decide (j = 0)) as [->|_]; [destruct Hc; lia|].
      intros Hx' Hy'. eapply (Hheap k j); try done. lia.
    - intros k j x' y' Hj Hc. destruct Hc; lia. }
  pose proof (sift_down_heap m (length a) 0 b ltac:(lia) Hbut) as Hc.
  destruct (sift_down_spec m (length a) 0 b) as (_ & Hlenc & _).
  set (c := sift_down (length a) m 0 b) in *.
  assert (length c = S m) as Hlc by (rewrite Hlenc; unfold b; by rewrite length_swap_at).
  rewrite Hlc. replace (S m - 1) with m by lia.
  rewrite length_take, Hlc, Nat.min_l by lia.
  intros k j x' y' Hj Hcj Hk Hy'.
  apply lookup_take_Some in Hk as [Hk _]. apply lookup_take_Some in Hy' as [Hy' _].
  by eapply (Hc k j).
Qed.

(** The front of a heap is its earliest entry. *)
Lemma heap_front_earliest a x :
  is_heap a -> a !! 0 = Some x -> forall k y, a !! k = Some y -> (time x <= time y)%Z.
Proof.
  intros Hheap H0 k. induction k as [k IH] using lt_wf_ind. intros y Hy.
  destruct k as [|k]; [by simplify_eq|].
  set (p := k / 2).
  assert (child p (S k)) as Hc.
  { unfold child, p. pose proof (Nat.div_mod_eq k 2) as Hdm.
    pose proof (Nat.mod_upper_bound k 2 ltac:(lia)). lia. }
  assert (p < S k) as Hp by (destruct Hc; lia).
  destruct (lookup_lt_is_Some_2 a p) as [z Hz];
    [pose proof (lookup_lt_Some _ _ _ Hy); lia|].
  pose proof (IH p Hp z Hz). 
  pose proof (Hheap p (S k) z y (lookup_lt_Some _ _ _ Hy) Hc Hz Hy). lia.
Qed.

Lemma due_front front cb : due front (cb, front) = true.
Proof.
  unfold due, TIME_TRIGGER. simpl. by rewrite Z.sub_diag.
Qed.

(** X23.  On a timeout no timer is lost and none fires twice: the timers in the
    queue before are, up to order, those handed to their handlers (each with
    its own time) and those still queued.  The value returned is the
    clock. *)
Theorem UpdateTimer_timeout_loses_no_timer (now prev : Z) (q : list TimerStruct) :
  let '(ret, q', fired) := UpdateTimer now 0 prev q in
  entry <$> q ≡ₚ fired ++ (entry <$> q') /\
  ret = match q with [] => None | _ => Some now end.
Proof.
  unfold UpdateTimer. destruct q as [|front rest]; [done|].
  change (0 =? 0) with true. cbv iota zeta.
  destruct (fire (length (front :: rest)) (to_uint64 (time front)) (front :: rest) [])
    as [q' fired] eqn:Hfire.
  destruct (fire_spec (time front) _ _ _ _ _ (Nat.le_refl _) Hfire)
    as (new & -> & Hperm & _).
  done.
Qed.

(** X24.  On a timeout the front timer always fires, and first; every timer that
    fires is due with it (its time is less than kMinDiff after the front's);
    and the loop stops only when the queue is empty or its front is not
    due. *)
Theorem UpdateTimer_timeout_fires_what_is_due
    (now prev : Z) (front : TimerStruct) (rest : list TimerStruct) :
  let '(_, q', fired) := UpdateTimer now 0 prev (front :: rest) in
  (exists tl, fired = entry front :: tl) /\
  Forall (fun e => due (time front) e = true) fired /\
  match q' with
  | [] => True
  | next :: _ => due (time front) (entry next) = false
  end.
Proof.
  unfold UpdateTimer. change (0 =? 0) with true. cbv iota zeta.
  destruct (fire (length (front :: rest)) (to_uint64 (time front)) (front :: rest) [])
    as [q' fired] eqn:Hfire.
  destruct (fire_spec (time front) _ _ _ _ _ (Nat.le_refl _) Hfire)
    as (new & -> & _ & Hall & Hnext & Hfirst).
  split_and!; [|done|done].
  apply Hfirst. apply due_front.
Qed.

Lemma fire_heap front : forall fuel q fired0 q' fired,
  is_heap q -> fire fuel (to_uint64 front) q fired0 = (q', fired) -> is_heap q'.
Proof.
  induction fuel as [|fuel IH]; intros q fired0 q' fired Hheap.
  - by intros [= <- <-].
  - cbn [fire]. destruct q as [|first rest]; [by intros [= <- <-]|].
    destruct (TIME_TRIGGER _ _).
    + apply IH. by apply pop_heap_is_heap.
    + by intros [= <- <-].
Qed.

Lemma due_in_range front t cb :
  (0 <= front <= t)%Z -> (t < 2 ^ 31)%Z ->
  due front (cb, t) = true <-> (t < front + kMinDiff)%Z.
Proof.
  intros Hft Ht. unfold due, TIME_TRIGGER, to_uint64, kMinDiff. simpl snd.
  assert (2 ^ 31 < 2 ^ 64)%Z by done.
  rewrite (Z.mod_small t), (Z.mod_small front), (Z.mod_small (t - front)) by lia.
  rewrite Z.abs_eq by lia. destruct (Z.ltb_spec (t - front) 3); split; (done || lia).
Qed.

(** X25.  On a timeout exactly the due timers fire.  For a queue that is a heap
    (no entry earlier than its parent) of times that are not negative: every
    timer that fires has a time less than kMinDiff after the front's, every
    timer left in the queue has a time at least kMinDiff after it, and the
    queue left is a heap again. *)
Theorem UpdateTimer_timeout_fires_exactly_what_is_due
    (now prev : Z) (front : TimerStruct) (rest : list TimerStruct) :
  is_heap (front :: rest) ->
  Forall (fun e => (0 <= time e < 2 ^ 31)%Z) (front :: rest) ->
  let '(_, q', fired) := UpdateTimer now 0 prev (front :: rest) in
  is_heap q' /\
  Forall (fun e => (time front <= snd e < time front + kMinDiff)%Z) fired /\
  Forall (fun e => (time front + kMinDiff <= time e)%Z) q'.
Proof.
  intros Hheap Hrange. unfold UpdateTimer. change (0 =? 0) with true. cbv iota zeta.
  destruct (fire (length (front :: rest)) (to_uint64 (time front)) (front :: rest) [])
    as [q' fired] eqn:Hfire.
  pose proof (fire_heap _ _ _ _ _ _ Hheap Hfire) as Hheap'.
  destruct (fire_spec (time front) _ _ _ _ _ (Nat.le_refl _) Hfire)
    as (new & -> & Hperm & Hdue & Hnext & _).
  simpl app.
  (* every timer of the queue is in range and not earlier than the front *)
  assert (forall e, e ∈ entry <$> (front :: rest) ->
            (0 <= time front <= snd e)%Z /\ (snd e < 2 ^ 31)%Z) as Hentries.
  { intros e (t & -> & Ht)%list_elem_of_fmap.
    pose proof (proj1 (Forall_forall _ _) Hrange t Ht) as Hrt.
    pose proof (proj1 (Forall_forall _ _) Hrange front ltac:(by left)) as Hrf.
    apply list_elem_of_lookup in Ht as [k Hk].
    pose proof (heap_front_earliest _ front Hheap eq_refl k t Hk).
    cbv beta in Hrt, Hrf. simpl. lia. }
  split_and!; [done | |].
  - apply Forall_forall. intros [cb t] He.
    destruct (Hentries (cb, t)) as [Hft Ht];
      [rewrite Hperm, elem_of_app; by left|].
    pose proof (proj1 (Forall_forall _ _) Hdue _ He) as Hd.
    apply due_in_range in Hd; simpl in *; lia.
  - destruct q' as [|next q'']; [done|].
    assert (time front + kMinDiff <= time next)%Z as Hn.
    { destruct (Hentries (entry next)) as [Hft Ht];
        [rewrite Hperm, elem_of_app, fmap_cons; right; by left|].
      destruct (Z.lt_ge_cases (time next) (time front + kMinDiff)) as [Hlt|]; [|done].
      apply (due_in_range (time front) (time next) (callback next)) in Hlt; [|done..].
      unfold entry in Hnext. congruence. }
    apply Forall_forall. intros t Ht. apply list_elem_of_lookup in Ht as [k Hk].
    pose proof (heap_front_earliest _ next Hheap' eq_refl k t Hk). lia.
Qed.

Lemma UpdateTimer_timeout_fires_exactly_what_is_due_witness :
  let '(_, q', fired) :=
    UpdateTimer 5000%Z 0 0%Z [mk_timer 10%Z 1; mk_timer 12%Z 2; mk_timer 11%Z 3;
                              mk_timer 40%Z 4] in
  Forall (fun e => (10 <= snd e < 13)%Z) fired /\ Forall (fun e => (13 <= time e)%Z) q'.
Proof.
  assert (is_heap [mk_timer 10%Z 1; mk_timer 12%Z 2; mk_timer 11%Z 3; mk_timer 40%Z 4])
    as Hheap.
  { intros k j x y Hj Hc Hk Hy. unfold child in Hc. simpl in Hj.
    assert (k = 0 \/ k = 1) as [-> | ->] by lia;
      destruct Hc as [-> | ->]; simpl in *; simplify_eq; simpl; lia. }
  pose proof (UpdateTimer_timeout_fires_exactly_what_is_due 5000%Z 0%Z
                (mk_timer 10%Z 1) [mk_timer 12%Z 2; mk_timer 11%Z 3; mk_timer 40%Z 4]
                Hheap ltac:(repeat constructor; simpl; lia)) as H.
  destruct (UpdateTimer 5000%Z 0 0%Z _) as [[ret q'] fired].
  destruct H as (_ & Hfired & Hleft). split; [exact Hfired | exact Hleft].
Defined.

Lemma to_int_range z : (- 2 ^ 31 <= to_int z < 2 ^ 31)%Z.
Proof. unfold to_int. pose proof (Z.mod_pos_bound (z + 2 ^ 31) (2 ^ 32)). lia. Qed.

Lemma to_int_small z : (- 2 ^ 31 <= z < 2 ^ 31)%Z -> to_int z = z.
Proof. intros Hz. unfold to_int. rewrite Z.mod_small; lia. Qed.

Lemma to_int_mod z : ((to_int z - z) mod 2 ^ 32 = 0)%Z.
Proof.
  unfold to_int. change (2 ^ 32)%Z with 4294967296%Z. change (2 ^ 31)%Z with 2147483648%Z.
  Z.div_mod_to_equations. lia.
Qed.

Lemma to_uint64_mod z : ((to_uint64 z - z) mod 2 ^ 32 = 0)%Z.
Proof.
  unfold to_uint64. change (2 ^ 64)%Z with (4294967296 * 4294967296)%Z.
  change (2 ^ 32)%Z with 4294967296%Z.
  Z.div_mod_to_equations. lia.
Qed.

Lemma to_int_congr a b : ((a - b) mod 2 ^ 32 = 0)%Z -> to_int a = to_int b.
Proof.
  intros H. unfold to_int. f_equal.
  change (2 ^ 32)%Z with 4294967296%Z in *. change (2 ^ 31)%Z with 2147483648%Z.
  Z.div_mod_to_equations. lia.
Qed.

(** X26.  The elapsed time survives the narrowing of the clock.  With a non-empty
    batch, let [prev0] be the clock at the previous round and [prev] the
    baseline kept from it, equal to [prev0] modulo 2^32.  If less than 2^31
    ms have elapsed, every timer is reduced by exactly [now - prev0] (as
    long as the result fits an int), order and handlers are kept, no handler
    runs, the value returned equals the clock modulo 2^32, and a queue that
    was a heap is one still. *)
Theorem UpdateTimer_subtracts_the_elapsed_time
    (now prev prev0 : Z) (event_sz : nat) (q : list TimerStruct) :
  q <> [] -> event_sz <> 0 ->
  ((prev - prev0) mod 2 ^ 32 = 0)%Z ->
  (- 2 ^ 31 <= now - prev0 < 2 ^ 31)%Z ->
  Forall (fun e => (- 2 ^ 31 <= time e - (now - prev0) < 2 ^ 31)%Z) q ->
  exists ret,
    UpdateTimer now event_sz prev q
    = (Some ret, (fun e => mk_timer (time e - (now - prev0)) (callback e)) <$> q, []) /\
    ((ret - now) mod 2 ^ 32 = 0)%Z /\
    (is_heap q ->
     is_heap ((fun e => mk_timer (time e - (now - prev0)) (callback e)) <$> q)).
Proof.
  intros Hq Hsz Hprev Helapsed Htimes. unfold UpdateTimer.
  destruct q as [|front rest]; [done|].
  destruct (Nat.eqb_spec event_sz 0) as [|_]; [done|]. cbv zeta.
  exists (to_uint64 (to_int now)). split; [|split].
  3:{ intros Hheap k j x y Hj Hc. rewrite length_fmap in Hj. rewrite !list_lookup_fmap.
      destruct ((front :: rest) !! k) as [x0|] eqn:Hk; [|done].
      destruct ((front :: rest) !! j) as [y0|] eqn:Hy; [|done].
      intros [= <-] [= <-]. simpl. pose proof (Hheap k j x0 y0 Hj Hc Hk Hy). lia. }
  - assert (to_int (to_uint64 (to_int now) - prev) = (now - prev0)%Z) as ->.
    { rewrite <- (to_int_small (now - prev0)) by done. apply to_int_congr.
      pose proof (to_uint64_mod (to_int now)) as H1. pose proof (to_int_mod now) as H2.
      change (2 ^ 32)%Z with 4294967296%Z in *.
      revert H1 H2 Hprev. generalize (to_uint64 (to_int now)) (to_int now).
      intros a b H1 H2 H3. Z.div_mod_to_equations. lia. }
    f_equal. f_equal. apply list_eq_Forall2, Forall2_fmap, Forall_Forall2_diag.
    eapply Forall_impl; [exact Htimes|]. intros e He. simpl.
    by rewrite to_int_small.
  - pose proof (to_uint64_mod (to_int now)) as H1. pose proof (to_int_mod now) as H2.
    change (2 ^ 32)%Z with 4294967296%Z in *.
    revert H1 H2. generalize (to_uint64 (to_int now)) (to_int now).
    intros a b H1 H2. Z.div_mod_to_equations. lia.
Qed.

Lemma UpdateTimer_subtracts_the_elapsed_time_witness :
  exists ret,
    UpdateTimer 1700000000010%Z 1 1700000000000%Z [mk_timer 100%Z 7; mk_timer 250%Z 8]
    = (Some ret, [mk_timer 90%Z 7; mk_timer 240%Z 8], []) /\
    ((ret - 1700000000010) mod 2 ^ 32 = 0)%Z.
Proof.
  destruct (UpdateTimer_subtracts_the_elapsed_time 1700000000010%Z 1700000000000%Z
              1700000000000%Z 1 [mk_timer 100%Z 7; mk_timer 250%Z 8])
    as (ret & Hrun & Hret & _).
  - discriminate.
  - discriminate.
  - reflexivity.
  - lia.
  - repeat constructor; simpl; lia.
  - exists ret. split; [exact Hrun | exact Hret].
Defined.
End TimerProps.

(** ** IOManager: WatchRead and WatchWrite *)

Module WatchProps.
Import IOManager IOManagerWatch WatchVocabulary.
Open Scope Z_scope.

Section Watch.
Variable Valid : Pollable -> bool.

(** X27.  Registration keeps the flags and the kernel in step.  On a valid
    pollable whose flags agree with the interest list, WatchRead and
    WatchWrite return (the choice between EPOLL_CTL_ADD and EPOLL_CTL_MOD is
    the right one), the flag of the direction asked is set and the other one
    kept, the descriptor is registered for exactly the watched directions in
    edge-triggered mode, no other descriptor is touched, and a direction
    that is watched already costs no system call. *)
Theorem Watch_keeps_flags_and_kernel_in_step
    (pollable : Pollable) (interest : gmap Z Z) :
  Valid pollable = true -> in_step pollable interest ->
  (exists p' k',
     WatchRead Valid pollable interest = Done (p', k') /\
     in_step p' k' /\ fd_ p' = fd_ pollable /\
     is_epoll_read_ p' = true /\ is_epoll_write_ p' = is_epoll_write_ pollable /\
     (forall fd, fd <> fd_ pollable -> k' !! fd = interest !! fd) /\
     (is_epoll_read_ pollable = true -> p' = pollable /\ k' = interest)) /\
  (exists p' k',
     WatchWrite Valid pollable interest = Done (p', k') /\
     in_step p' k' /\ fd_ p' = fd_ pollable /\
     is_epoll_write_ p' = true /\ is_epoll_read_ p' = is_epoll_read_ pollable /\
     (forall fd, fd <> fd_ pollable -> k' !! fd = interest !! fd) /\
     (is_epoll_write_ pollable = true -> p' = pollable /\ k' = interest)).
Proof.
  intros Hvalid Hstep. unfold WatchRead, WatchWrite, in_step, watched, epoll_ctl in *.
  rewrite Hvalid. unfold negb. destruct pollable as [fd r wr]. simpl in *.
  split.
  - destruct r, wr; rewrite ?Hstep; simpl; eexists _, _;
      (split; [reflexivity|]); simpl; rewrite ?lookup_insert_eq;
      split_and!; try done; intros fd' Hfd; by rewrite lookup_insert_ne.
  - destruct r, wr; rewrite ?Hstep; simpl; eexists _, _;
      (split; [reflexivity|]); simpl; rewrite ?lookup_insert_eq;
      split_and!; try done; intros fd' Hfd; by rewrite lookup_insert_ne.
Qed.
End Watch.

Lemma Watch_keeps_flags_and_kernel_in_step_witness :
  exists p' k',
    WatchWrite (fun _ => true) (mk 7 true false) {[ 7 := Z.lor EPOLLIN EPOLLET ]}
    = Done (p', k') /\
    k' !! 7 = Some (Z.lor (Z.lor EPOLLIN EPOLLOUT) EPOLLET) /\
    is_epoll_read_ p' = true /\ is_epoll_write_ p' = true.
Proof.
  destruct (Watch_keeps_flags_and_kernel_in_step (fun _ => true) (mk 7 true false)
              {[ 7 := Z.lor EPOLLIN EPOLLET ]}) as [_ (p' & k' & Hrun & Hstep & Hfd & Hw & Hr & _)].
  - reflexivity.
  - unfold in_step. simpl. apply lookup_singleton_eq.
  - exists p', k'. unfold in_step, watched in Hstep. rewrite Hfd, Hw, Hr in Hstep.
    split_and!; [exact Hrun | exact Hstep | exact Hr | exact Hw].
Defined.
End WatchProps.

